(** * Train-shunting safety orchestrator: detector hub, event client,
      safety sequencer, supervisor and discovery.

    Shallow embedding of the Python sources
    - [backend/detection_config.py], [backend/yolo_server.py],
    - [orchestrator/main.py], [orchestrator/events_client.py],
      [orchestrator/mdns_discover.py],
    - [serial_cmds/stop.py], [serial_cmds/reverse.py], [serial_cmds/forward.py],
    - [backend/utils/zeroconf_register.py], [backend/serial_discovery.py].

    Conventions.  Python floats that carry wall-clock times and durations are
    modelled as rationals ([Q]); rounding of float arithmetic is not modelled.
    Effects (clock reads, sleeps, serial writes, log lines, raised
    exceptions) are made explicit: every stateful function runs in a small
    state-and-exception monad over the state of its module, and appends what it
    does to a chronological trace. *)

From Stdlib Require Import QArith Qround Qminmax Lqa ZArith Lia Ascii DecimalString.
From Stdlib Require Import DecimalPos DecimalZ.
From stdpp Require Import base gmap sets list strings.

Local Open Scope Q_scope.

(** ** The fragment of Python shared by all modules *)

Module Py.

(** Values produced by [json.loads] and stored in dicts. *)
#[warnings="-register-all"]
Inductive json : Type :=
  | JNull
  | JBool (b : bool)
  | JNum (q : Q)
  | JStr (s : string)
  | JArr (items : list json)
  | JObj (fields : list (string * json)).

(** Exceptions that the modelled code can raise. *)
Inductive exn : Type :=
  | AttributeError
  | TypeError
  | ValueError (msg : string)
  | RuntimeError (msg : string)
  | TimeoutError (msg : string)
  | IndexError
  | IndentationError (msg : string) (lineno : nat).

Inductive outcome (A : Type) : Type :=
  | Ret (a : A)
  | Raise (e : exn).
Arguments Ret {A} a.
Arguments Raise {A} e.

(** State-and-exception monad: a raised exception keeps the state reached
    so far, as mutation in Python does. *)
Definition M (S A : Type) : Type := S -> outcome A * S.

Definition ret {S A} (a : A) : M S A := fun s => (Ret a, s).

Definition bind {S A B} (m : M S A) (k : A -> M S B) : M S B :=
  fun s =>
    match m s with
    | (Ret a, s') => k a s'
    | (Raise e, s') => (Raise e, s')
    end.

Definition raise {S A} (e : exn) : M S A := fun s => (Raise e, s).
Definition get {S} : M S S := fun s => (Ret s, s).
Definition modify {S} (f : S -> S) : M S unit := fun s => (Ret tt, f s).

(** [try: body finally: cleanup] *)
Definition try_finally {S A} (body : M S A) (cleanup : M S unit) : M S A :=
  fun s =>
    match body s with
    | (r, s') =>
        match cleanup s' with
        | (Ret _, s'') => (r, s'')
        | (Raise e, s'') => (Raise e, s'')
        end
    end.

Declare Scope py_scope.
Delimit Scope py_scope with py.
Notation "x ← y ; z" := (bind y (fun x => z))
  (at level 20, y at level 100, z at level 200, only parsing) : py_scope.
Notation "' x ← y ; z" := (bind y (fun x => z))
  (at level 20, x pattern, y at level 100, z at level 200, only parsing) : py_scope.
Notation "x ;; z" := (bind x (fun _ => z))
  (at level 100, z at level 200, only parsing, right associativity) : py_scope.

(** [a < b] on floats, as a boolean. *)
Definition Qltb (a b : Q) : bool := negb (Qle_bool b a).

(** Truth value of an object ([bool(x)], used by [not x] and [x or y]). *)
Definition truthy (v : json) : bool :=
  match v with
  | JNull => false
  | JBool b => b
  | JNum q => negb (Qeq_bool q 0)
  | JStr s => negb (String.eqb s "")
  | JArr l => match l with [] => false | _ => true end
  | JObj l => match l with [] => false | _ => true end
  end.

(** Lookup in the item list of a dict; a key repeated in a JSON document
    keeps its last value. *)
Fixpoint assoc_last (k : string) (fields : list (string * json)) : option json :=
  match fields with
  | [] => None
  | (k', v) :: rest =>
      match assoc_last k rest with
      | Some v' => Some v'
      | None => if String.eqb k k' then Some v else None
      end
  end.

(** [x.get(k)]: [None] for a missing key, [AttributeError] when [x] is not
    a dict. *)
Definition dict_get {S} (x : json) (k : string) : M S json :=
  match x with
  | JObj fields => ret (default JNull (assoc_last k fields))
  | _ => raise AttributeError
  end.

(** [x in s] for a set of strings: lists and dicts are unhashable. *)
Definition in_str_set {S} (x : json) (s : gset string) : M S bool :=
  match x with
  | JStr l => ret (bool_decide (l ∈ s))
  | JArr _ | JObj _ => raise TypeError
  | _ => ret false
  end.

(** [str(n)] for an int. *)
Definition str_of_int (n : Z) : string :=
  DecimalString.NilZero.string_of_int (Z.to_int n).

End Py.
Import Py.
Local Open Scope py_scope.

(** ** [backend/detection_config.py] *)

Record detection_config : Type := {
  WATCH_CLASSES : gset string;
  CAPTURE_INTERVAL_SEC : Q;
  YOLO_SERVER_HOST : string;
  YOLO_SERVER_PORT : Z;
  STOP_TO_REVERSE_DELAY : Q;
  REVERSE_DURATION : Q;
  FORWARD_RESUME_DELAY : Q;
  RESUME_WITH_FORWARD : bool;
  SSE_BACKOFF_SEC : Q;
  MAX_EVENT_LOG_SIZE : Z
}.

(** The values used when no environment variable overrides them. *)
Definition default_config : detection_config := {|
  WATCH_CLASSES := {[ "person"; "bottle" ]}%string;
  CAPTURE_INTERVAL_SEC := 0.5;
  YOLO_SERVER_HOST := "127.0.0.1";
  YOLO_SERVER_PORT := 8001;
  STOP_TO_REVERSE_DELAY := 1.0;
  REVERSE_DURATION := 1.5;
  FORWARD_RESUME_DELAY := 1.0;
  RESUME_WITH_FORWARD := true;
  SSE_BACKOFF_SEC := 2.0;
  MAX_EVENT_LOG_SIZE := 100
|}.

(** ** [collections.deque(maxlen=N)] as used for the event log *)

Module Deque.
Section Deque.
Context {A : Type}.

(** [deque(maxlen=n)]: a negative [maxlen] is rejected. *)
Definition new {S} (maxlen : Z) : M S (list A) :=
  if (maxlen <? 0)%Z then raise (ValueError "maxlen must be non-negative")
  else ret [].

(** [d.appendleft(x)]: the item is put in front, then the deque is
    trimmed from the right while it is longer than [maxlen]. *)
Definition appendleft (maxlen : nat) (x : A) (d : list A) : list A :=
  let d' := x :: d in
  if (maxlen <? length d')%nat then removelast d' else d'.

(** A run of insertions into an initially empty deque. *)
Definition inserts (maxlen : nat) (xs : list A) : list A :=
  fold_left (fun d x => appendleft maxlen x d) xs [].
End Deque.
End Deque.

(** ** [serial_cmds/*.py] and [orchestrator/main.py] *)

Module Orchestrator.

(** ASCII line protocol of the motor controller: [STOP], [FWD:<speed>],
    [REV:<speed>:<duration>]. *)
Inductive serial_cmd : Type :=
  | STOP
  | FWD (speed : Z)
  | REV (speed : Z) (duration : Q).

Inductive level : Type := DEBUG | INFO | WARNING | ERROR.

(** What the runtime does to its environment, in the order it does it. *)
Inductive effect : Type :=
  | TimeRead (t : Q)
  | Sleep (d : Q)
  | LockAcquire
  | LockRelease
  | Serial (c : serial_cmd) (ok : bool)
  | Poll (returncode : option Z)
  | HttpGet (url : string) (status : option Z)
  | Log (lvl : level) (fmt : string) (args : list json).

(** The environment: the wall clock, and what the serial port, the child
    process and the HTTP peer will answer next.  Each serial exchange and each
    HTTP request comes with the time it takes. *)
Record world : Type := {
  clock : Q;
  serial_script : list (bool * Q);
  poll_script : list (option Z);
  http_script : list (option Z * Q);
  trace : list effect
}.

(** The attributes of [OrchestratorRuntime] that the modelled methods use. *)
Record runtime : Type := {
  yolo_process : option Z;
  event_log : list json;
  last_detection : option json;
  _serial_cooldown : Q
}.

Definition state : Type := runtime * world.

Definition emit (e : effect) : M state unit :=
  modify (fun '(rt, w) =>
    (rt, {| clock := clock w; serial_script := serial_script w;
            poll_script := poll_script w; http_script := http_script w;
            trace := trace w ++ [e] |})).

Definition advance (d : Q) : M state unit :=
  modify (fun '(rt, w) =>
    (rt, {| clock := clock w + d; serial_script := serial_script w;
            poll_script := poll_script w; http_script := http_script w;
            trace := trace w |})).

(** [time.time()] *)
Definition time_time : M state Q :=
  '(_, w) ← get; emit (TimeRead (clock w));; ret (clock w).

(** [time.sleep(d)]; a negative length is a [ValueError]. *)
Definition time_sleep (d : Q) : M state unit :=
  if Qltb d 0 then raise (ValueError "sleep length must be non-negative")
  else emit (Sleep d);; advance d.

Definition logger (lvl : level) (fmt : string) (args : list json) : M state unit :=
  emit (Log lvl fmt args).

(** The body shared by the three [send] helpers: open the port, write the
    command, flush; a [SerialException] is logged and turned into [False]. *)
Definition serial_send (c : serial_cmd) : M state bool :=
  '(_, w) ← get;
  let '(ok, dt, rest) :=
    match serial_script w with
    | [] => (true, 0, [])
    | (ok, dt) :: rest => (ok, dt, rest)
    end in
  modify (fun '(rt, w) =>
    (rt, {| clock := clock w; serial_script := rest;
            poll_script := poll_script w; http_script := http_script w;
            trace := trace w |}));;
  advance dt;;
  emit (Serial c ok);;
  ret ok.

(** [stop.send()] *)
Definition stop_send : M state bool := serial_send STOP.
(** [forward.send(speed=100)] *)
Definition forward_send (speed : Z) : M state bool := serial_send (FWD speed).
(** [reverse.send(speed=80, duration=1.5)] *)
Definition reverse_send (speed : Z) (duration : Q) : M state bool :=
  serial_send (REV speed duration).

(** [with self.serial_lock: body] *)
Definition with_serial_lock {A} (body : M state A) : M state A :=
  emit LockAcquire;; try_finally body (emit LockRelease).

Section Runtime.
Variable cfg : detection_config.

(** [OrchestratorRuntime.__init__] *)
Definition __init__ : M world runtime :=
  log ← Deque.new (MAX_EVENT_LOG_SIZE cfg);
  ret {| yolo_process := None; event_log := log;
         last_detection := None; _serial_cooldown := 0 |}.

(** [self._serial_cooldown = t] *)
Definition with_cooldown (rt : runtime) (t : Q) : runtime :=
  {| yolo_process := yolo_process rt; event_log := event_log rt;
     last_detection := last_detection rt; _serial_cooldown := t |}.

(** [self.last_detection = payload; self.event_log.appendleft(payload)] *)
Definition with_detection (rt : runtime) (payload : json) : runtime :=
  {| yolo_process := yolo_process rt;
     event_log :=
       Deque.appendleft (Z.to_nat (MAX_EVENT_LOG_SIZE cfg)) payload (event_log rt);
     last_detection := Some payload;
     _serial_cooldown := _serial_cooldown rt |}.

Definition set_cooldown (t : Q) : M state unit :=
  modify (fun '(rt, w) => (with_cooldown rt t, w)).

Definition record_detection (payload : json) : M state unit :=
  modify (fun '(rt, w) => (with_detection rt payload, w)).

(** [OrchestratorRuntime._execute_safety_sequence] *)
Definition _execute_safety_sequence (payload : json) : M state unit :=
  now ← time_time;
  with_serial_lock (
    '(rt, _) ← get;
    if Qltb (now - _serial_cooldown rt) (REVERSE_DURATION cfg) then
      logger DEBUG "Skipping serial actions due to cooldown" []
    else
      label ← dict_get payload "label";
      logger INFO "Triggering safety sequence for label=%s" [label];;
      stop_send;;
      time_sleep (STOP_TO_REVERSE_DELAY cfg);;
      reverse_send 80 (REVERSE_DURATION cfg);;
      t ← time_time;
      set_cooldown t;;
      if RESUME_WITH_FORWARD cfg then
        time_sleep (FORWARD_RESUME_DELAY cfg);;
        forward_send 100;;
        ret tt
      else ret tt).

(** [OrchestratorRuntime._handle_event] *)
Definition _handle_event (event : json) : M state unit :=
  ty ← dict_get event "type";
  if negb (match ty with JStr s => String.eqb s "detection" | _ => false end)
  then ret tt
  else
    p ← dict_get event "payload";
    let payload := if truthy p then p else JObj [] in
    label ← dict_get payload "label";
    if negb (truthy label) then ret tt
    else
      logger DEBUG "Received detection event: %s" [payload];;
      record_detection payload;;
      watched ← in_str_set label (WATCH_CLASSES cfg);
      if watched then _execute_safety_sequence payload else ret tt.

(** The events of a stream handled one after the other on the client's
    thread; event [i] reaches the handler no earlier than its arrival time, and
    no earlier than the end of the handling of event [i-1]. *)
Definition arrive (t : Q) : M state unit :=
  '(_, w) ← get;
  if Qltb (clock w) t then advance (t - clock w) else ret tt.

Fixpoint handle_stream (events : list (Q * json)) : M state unit :=
  match events with
  | [] => ret tt
  | (t, ev) :: rest => arrive t;; _handle_event ev;; handle_stream rest
  end.

Definition health_url : string :=
  "http://" +:+ YOLO_SERVER_HOST cfg +:+ ":" +:+ str_of_int (YOLO_SERVER_PORT cfg)
  +:+ "/health".

(** [self.yolo_process.poll()] *)
Definition process_poll : M state (option Z) :=
  '(_, w) ← get;
  let '(r, rest) :=
    match poll_script w with
    | [] => (None, [])
    | r :: rest => (r, rest)
    end in
  modify (fun '(rt, w) =>
    (rt, {| clock := clock w; serial_script := serial_script w;
            poll_script := rest; http_script := http_script w;
            trace := trace w |}));;
  emit (Poll r);;
  ret r.

(** [requests.get(url, timeout=3)]: [Some status], or [None] for a
    [RequestException]. *)
Definition requests_get (url : string) : M state (option Z) :=
  '(_, w) ← get;
  let '(r, dt, rest) :=
    match http_script w with
    | [] => (None, 0, [])
    | (r, dt) :: rest => (r, dt, rest)
    end in
  modify (fun '(rt, w) =>
    (rt, {| clock := clock w; serial_script := serial_script w;
            poll_script := poll_script w; http_script := rest;
            trace := trace w |}));;
  advance dt;;
  emit (HttpGet url r);;
  ret r.

(** How one pass through the [while] statement of
    [_wait_for_yolo_health] ends: the body ran to its end, the condition was
    false, or the body returned. *)
Inductive control : Type := Continue | Break | Return.

Definition health_iteration (url : string) (start_time timeout : Q)
  : M state control :=
  t ← time_time;
  if Qltb (t - start_time) timeout then
    '(rt, _) ← get;
    exited ←
      match yolo_process rt with
      | Some _ => process_poll
      | None => ret None
      end;
    match exited with
    | Some returncode =>
        logger ERROR "YOLO server exited early with code %s"
          [JNum (inject_Z returncode)];;
        raise (RuntimeError "YOLO server process terminated unexpectedly")
    | None =>
        response ← requests_get url;
        if bool_decide (response = Some 200%Z) then
          logger INFO "YOLO health endpoint reachable" [];;
          ret Return
        else
          time_sleep 1;;
          ret Continue
    end
  else ret Break.

(** The [while] loop and the [raise TimeoutError] after it; [None] when
    [fuel] iterations did not finish the loop. *)
Fixpoint health_loop (fuel : nat) (url : string) (start_time timeout : Q)
  : M state (option unit) :=
  match fuel with
  | O => ret None
  | S fuel' =>
      c ← health_iteration url start_time timeout;
      match c with
      | Continue => health_loop fuel' url start_time timeout
      | Return => ret (Some tt)
      | Break =>
          raise (TimeoutError
                   ("Timed out waiting for YOLO health endpoint at " +:+ url))
      end
  end.

(** [OrchestratorRuntime._wait_for_yolo_health(timeout=45.0)] *)
Definition _wait_for_yolo_health (fuel : nat) (timeout : Q) : M state (option unit) :=
  let url := health_url in
  start_time ← time_time;
  health_loop fuel url start_time timeout.

End Runtime.

(** The world after some more effects. *)
Definition extend_trace (w : world) (es : list effect) : world :=
  {| clock := clock w; serial_script := serial_script w;
     poll_script := poll_script w; http_script := http_script w;
     trace := trace w ++ es |}.

(** What a call of the sequencer inside the cooldown window does. *)
Definition skip_effects (now : Q) : list effect :=
  [TimeRead now; LockAcquire;
   Log DEBUG "Skipping serial actions due to cooldown" [];
   LockRelease].

(** The ordered action sequence of the specification: under the lock, STOP,
    wait [STOP_TO_REVERSE_DELAY], REVERSE with the configured duration, read
    the clock for the trigger time, then, if resuming is enabled, wait
    [FORWARD_RESUME_DELAY] and FORWARD; the lock is released last. *)
Definition sequence_effects (cfg : detection_config) (now : Q) (label : json)
    (ok_stop ok_rev ok_fwd : bool) (trigger_time : Q) : list effect :=
  [TimeRead now; LockAcquire;
   Log INFO "Triggering safety sequence for label=%s" [label];
   Serial STOP ok_stop;
   Sleep (STOP_TO_REVERSE_DELAY cfg);
   Serial (REV 80 (REVERSE_DURATION cfg)) ok_rev;
   TimeRead trigger_time]
  ++ (if RESUME_WITH_FORWARD cfg
      then [Sleep (FORWARD_RESUME_DELAY cfg); Serial (FWD 100) ok_fwd]
      else [])
  ++ [LockRelease].

(** A detection event that carries a label: a dict of type "detection" whose
    payload is a dict with a true value under "label". *)
Definition carries_label (event payload label : json) : Prop :=
  exists efields pfields,
    event = JObj efields /\
    assoc_last "type" efields = Some (JStr "detection") /\
    assoc_last "payload" efields = Some payload /\
    payload = JObj pfields /\
    assoc_last "label" pfields = Some label /\
    truthy label = true.

(** The usual case: the label is a non-empty string. *)
Definition labelled_detection (event payload : json) (l : string) : Prop :=
  exists efields pfields,
    event = JObj efields /\
    assoc_last "type" efields = Some (JStr "detection") /\
    assoc_last "payload" efields = Some payload /\
    payload = JObj pfields /\
    assoc_last "label" pfields = Some (JStr l) /\
    l <> ""%string.

(** Number of safety sequences started in a trace: one STOP is sent at the
    head of each. *)
Definition is_stop (e : effect) : bool :=
  match e with Serial STOP _ => true | _ => false end.
Definition sequences_started (tr : list effect) : nat :=
  length (filter (fun e => is_stop e = true) tr).

(** The serial commands of a trace, in order. *)
Definition serial_cmds (tr : list effect) : list serial_cmd :=
  omap (fun e => match e with Serial c _ => Some c | _ => None end) tr.

(** The health requests and the sleeps of a trace alternate: every request
    goes to [url], and every request but the last is followed by a sleep of
    one second. *)
Definition is_pacing (e : effect) : bool :=
  match e with HttpGet _ _ | Sleep _ => true | _ => false end.

Fixpoint polls_paced (url : string) (es : list effect) : bool :=
  match es with
  | [] => true
  | HttpGet u _ :: tail =>
      String.eqb u url &&
      match tail with
      | [] => true
      | Sleep d :: rest => Qeq_bool d 1 && polls_paced url rest
      | _ => false
      end
  | _ => false
  end.

(** The three ways in which the health wait ends, with the effects [es] it
    had and the clock at its end: the endpoint answered 200; the child was
    seen to have exited (the exit code goes to the error log, the raised error
    has a fixed message); or the timeout elapsed. *)
Definition wait_result (url : string) (start timeout : Q)
    (r : outcome (option unit)) (es : list effect) (final_clock : Q) : Prop :=
  (r = Ret (Some tt) /\
   exists pre, es = pre ++ [HttpGet url (Some 200%Z);
                            Log INFO "YOLO health endpoint reachable" []])
  \/
  (exists code pre,
     r = Raise (RuntimeError "YOLO server process terminated unexpectedly") /\
     es = pre ++ [Poll (Some code);
                  Log ERROR "YOLO server exited early with code %s"
                    [JNum (inject_Z code)]])
  \/
  (r = Raise (TimeoutError ("Timed out waiting for YOLO health endpoint at " +:+ url)) /\
   timeout <= final_clock - start /\
   exists pre, es = pre ++ [TimeRead final_clock]).

(** What round [i] of the health wait (counted from 0) meets in the
    environment when no earlier round has ended the wait: the exit code that
    [poll()] reports (the child is polled only when one is tracked; an
    exhausted script means that it is still running), the answer of the
    endpoint with the time that the request takes, and the time that has
    passed since the start when the round begins (every earlier round took the
    time of its request and a sleep of one second). *)
Definition exit_seen (rt : runtime) (w : world) (i : nat) : option Z :=
  match yolo_process rt with
  | Some _ => nth i (poll_script w) None
  | None => None
  end.

Definition answer (w : world) (i : nat) : option Z * Q :=
  nth i (http_script w) (None, 0).

Fixpoint elapsed (w : world) (i : nat) : Q :=
  match i with
  | O => 0
  | S j => elapsed w j + snd (answer w j) + 1
  end.

(** Round [i] neither ends the wait nor finds that [timeout] has elapsed. *)
Definition undecided (rt : runtime) (w : world) (timeout : Q) (i : nat) : Prop :=
  elapsed w i < timeout /\ exit_seen rt w i = None /\ fst (answer w i) <> Some 200%Z.

(** What handling one labelled event leaves behind when serial exchanges
    take no time: the payload is recorded, [started] more sequences have been
    started and the commands [cmds] have been sent. *)
Record handled (cfg : detection_config) (rt : runtime) (w : world)
    (payload : json) (rt' : runtime) (w' : world) (started : nat)
    (cmds : list serial_cmd) : Prop := {
  handled_script : serial_script w' = [];
  handled_log :
    event_log rt' =
    Deque.appendleft (Z.to_nat (MAX_EVENT_LOG_SIZE cfg)) payload (event_log rt);
  handled_last : last_detection rt' = Some payload;
  handled_started :
    sequences_started (trace w') = (sequences_started (trace w) + started)%nat;
  handled_cmds : serial_cmds (trace w') = serial_cmds (trace w) ++ cmds
}.

End Orchestrator.

(** ** [backend/yolo_server.py] *)

Module Detector.

(** One detected box of a result: class index, confidence and the rows of
    [box.xyxy.tolist()]. *)
Record box : Type := {
  cls : Z;
  conf : Q;
  xyxy : list (list Q)
}.

(** One element of the model's output: [r.boxes] (possibly [None]) and
    [r.names] when the attribute exists. *)
Record result : Type := {
  boxes : option (list box);
  names : option (gmap Z string)
}.

(** A captured frame, seen through what the code does with it: its PNG
    encoding in base64 (when [cv2.imencode] succeeds) and the output of the
    model on it. *)
Record frame : Type := {
  imencode : option string;
  model : list result
}.

(** The payload built for a detection before it is published. *)
Record detection : Type := {
  label : string;
  confidence : Q;
  bbox : list Q;
  timestamp : Q
}.

Definition detection_payload (d : detection) : json :=
  JObj [("label", JStr (label d)); ("confidence", JNum (confidence d));
        ("bbox", JArr (JNum <$> bbox d)); ("timestamp", JNum (timestamp d))]%string.

Inductive level : Type := DEBUG | INFO | WARNING | ERROR.

Inductive effect : Type :=
  | TimeRead (t : Q)
  | Sleep (d : Q)
  | Log (lvl : level) (fmt : string) (args : list json)
  | Put (queue : nat) (payload : json)
  | Yield (queue : nat) (event : json) (data : json).

(** The environment of the detector: the wall clock, what the camera returns
    next, the [asyncio.Queue] objects allocated so far with their contents,
    and the callbacks scheduled on the event loop and not yet run. *)
Record world : Type := {
  clock : Q;
  camera_script : list (option frame);
  next_queue : nat;
  queues : gmap nat (list json);
  ready : list (nat * json);
  trace : list effect
}.

(** The attributes of [DetectionState] that the modelled methods use;
    queues are held by identity. *)
Record DetectionState : Type := {
  last_detection : option json;
  last_frame_b64 : option string;
  event_queues : list nat;
  stop_event : bool;
  loop : option nat
}.

Definition state : Type := DetectionState * world.

(** [DetectionState.__init__] *)
Definition __init__ : DetectionState :=
  {| last_detection := None; last_frame_b64 := None; event_queues := [];
     stop_event := false; loop := None |}.

Definition emit (e : effect) : M state unit :=
  modify (fun '(st, w) =>
    (st, {| clock := clock w; camera_script := camera_script w;
            next_queue := next_queue w; queues := queues w; ready := ready w;
            trace := trace w ++ [e] |})).

Definition time_time : M state Q :=
  '(_, w) ← get; emit (TimeRead (clock w));; ret (clock w).

Definition time_sleep (d : Q) : M state unit :=
  if Qltb d 0 then raise (ValueError "sleep length must be non-negative")
  else
    emit (Sleep d);;
    modify (fun '(st, w) =>
      (st, {| clock := clock w + d; camera_script := camera_script w;
              next_queue := next_queue w; queues := queues w; ready := ready w;
              trace := trace w |})).

Definition logger (lvl : level) (fmt : string) (args : list json) : M state unit :=
  emit (Log lvl fmt args).

(** [DetectionState.set_event_loop] *)
Definition set_event_loop (l : nat) : M state unit :=
  modify (fun '(st, w) =>
    ({| last_detection := last_detection st; last_frame_b64 := last_frame_b64 st;
        event_queues := event_queues st; stop_event := stop_event st;
        loop := Some l |}, w)).

(** [DetectionState.update_frame] *)
Definition update_frame (f : frame) : M state unit :=
  match imencode f with
  | None => logger DEBUG "Failed to encode frame for last_frame endpoint" []
  | Some b64 =>
      modify (fun '(st, w) =>
        ({| last_detection := last_detection st; last_frame_b64 := Some b64;
            event_queues := event_queues st; stop_event := stop_event st;
            loop := loop st |}, w))
  end.

(** [DetectionState.update_detection] *)
Definition update_detection (d : json) : M state unit :=
  modify (fun '(st, w) =>
    ({| last_detection := Some d; last_frame_b64 := last_frame_b64 st;
        event_queues := event_queues st; stop_event := stop_event st;
        loop := loop st |}, w)).

Definition set_event_queues (qs : list nat) : M state unit :=
  modify (fun '(st, w) =>
    ({| last_detection := last_detection st; last_frame_b64 := last_frame_b64 st;
        event_queues := qs; stop_event := stop_event st; loop := loop st |}, w)).

(** [asyncio.Queue()]: a new, empty, unbounded queue. *)
Definition new_queue : M state nat :=
  '(_, w) ← get;
  let q := next_queue w in
  modify (fun '(st, w) =>
    (st, {| clock := clock w; camera_script := camera_script w;
            next_queue := S q; queues := <[q := []]> (queues w); ready := ready w;
            trace := trace w |}));;
  ret q.

(** [DetectionState.register_queue] *)
Definition register_queue : M state nat :=
  queue ← new_queue;
  '(st, _) ← get;
  set_event_queues (event_queues st ++ [queue]);;
  ret queue.

(** [list.remove(x)]: drops the first occurrence. *)
Fixpoint list_remove (x : nat) (l : list nat) : list nat :=
  match l with
  | [] => []
  | y :: r => if Nat.eqb x y then r else y :: list_remove x r
  end.

(** [DetectionState.unregister_queue] *)
Definition unregister_queue (queue : nat) : M state unit :=
  '(st, _) ← get;
  if bool_decide (queue ∈ event_queues st)
  then set_event_queues (list_remove queue (event_queues st))
  else ret tt.

(** [asyncio.run_coroutine_threadsafe(queue.put(payload), self.loop)]: the
    put is handed to the loop, which runs its callbacks in the order they
    were scheduled. *)
Definition run_coroutine_threadsafe (queue : nat) (payload : json) : M state unit :=
  modify (fun '(st, w) =>
    (st, {| clock := clock w; camera_script := camera_script w;
            next_queue := next_queue w; queues := queues w;
            ready := ready w ++ [(queue, payload)]; trace := trace w |})).

Fixpoint broadcast_to (snapshot : list nat) (payload : json) : M state unit :=
  match snapshot with
  | [] => ret tt
  | queue :: rest =>
      '(st, _) ← get;
      match loop st with
      | None => broadcast_to rest payload
      | Some _ => run_coroutine_threadsafe queue payload;; broadcast_to rest payload
      end
  end.

(** [DetectionState.broadcast] *)
Definition broadcast (payload : json) : M state unit :=
  '(st, _) ← get;
  let snapshot := event_queues st in
  broadcast_to snapshot payload.

(** One turn of the event loop: the oldest scheduled [queue.put(payload)]
    runs; the queue is unbounded, so the put completes at once. *)
Definition loop_step : M state unit :=
  '(_, w) ← get;
  match ready w with
  | [] => ret tt
  | (q, payload) :: rest =>
      modify (fun '(st, w) =>
        (st, {| clock := clock w; camera_script := camera_script w;
                next_queue := next_queue w;
                queues := <[q := default [] (queues w !! q) ++ [payload]]> (queues w);
                ready := rest; trace := trace w |}));;
      emit (Put q payload)
  end.

(** The loop runs until nothing is scheduled. *)
Fixpoint loop_drain (fuel : nat) : M state unit :=
  match fuel with
  | O => ret tt
  | S fuel' => loop_step;; loop_drain fuel'
  end.

Definition run_until_idle : M state unit :=
  '(_, w) ← get; loop_drain (length (ready w)).

(** One turn of the loop of [_event_publisher(queue)]: [await queue.get()],
    then yield the server-sent event named by [payload.get("type", "message")];
    with an empty queue the coroutine stays suspended. *)
Definition _event_publisher_step (queue : nat) : M state unit :=
  '(_, w) ← get;
  match default [] (queues w !! queue) with
  | [] => ret tt
  | payload :: rest =>
      modify (fun '(st, w) =>
        (st, {| clock := clock w; camera_script := camera_script w;
                next_queue := next_queue w;
                queues := <[queue := rest]> (queues w);
                ready := ready w; trace := trace w |}));;
      match payload with
      | JObj fields =>
          emit (Yield queue (default (JStr "message") (assoc_last "type" fields))
                  payload)
      | _ => raise AttributeError
      end
  end.

(** [_event_publisher(queue)] as the event loop sees it: an exception ends
    the generator, whose [finally] clause unregisters the queue. *)
Definition _event_publisher (queue : nat) : M state unit :=
  fun s =>
    match _event_publisher_step queue s with
    | (Ret _, s') => (Ret tt, s')
    | (Raise _, s') => unregister_queue queue s'
    end.

(** Calls made on the hub by its clients, and turns of the event loop and of
    the subscribers' generators. *)
Inductive hub_op : Type :=
  | SetLoop (l : nat)
  | Register
  | Unregister (queue : nat)
  | Broadcast (payload : json)
  | LoopStep
  | Consume (queue : nat).

Definition hub_step (o : hub_op) : M state unit :=
  match o with
  | SetLoop l => set_event_loop l
  | Register => register_queue;; ret tt
  | Unregister q => unregister_queue q
  | Broadcast p => broadcast p
  | LoopStep => loop_step
  | Consume q => _event_publisher q
  end.

Fixpoint hub_run (ops : list hub_op) : M state unit :=
  match ops with
  | [] => ret tt
  | o :: rest => hub_step o;; hub_run rest
  end.

(** The payloads put on a queue, in the order they were put. *)
Definition received (queue : nat) (tr : list effect) : list json :=
  omap (fun e =>
          match e with
          | Put q p => if Nat.eqb q queue then Some p else None
          | _ => None
          end) tr.

(** The payloads scheduled for a queue and not yet put on it. *)
Definition addressed_to (queue : nat) (x : nat * json) : option json :=
  if Nat.eqb (fst x) queue then Some (snd x) else None.

Definition pending_for (queue : nat) (s : state) : list json :=
  omap (addressed_to queue) (ready (snd s)).

(** The specification of delivery: what is published to [queue] by a run of
    operations is, in publish order, every payload whose publish finds the
    queue registered. *)
Fixpoint published_to (queue : nat) (ops : list hub_op) (s : state) : list json :=
  match ops with
  | [] => []
  | o :: rest =>
      match o with
      | Broadcast p =>
          if bool_decide (queue ∈ event_queues (fst s)) then [p] else []
      | _ => []
      end ++ published_to queue rest (snd (hub_step o s))
  end.

(** A hub in service: the event loop is attached, and the registered queues
    are distinct objects that have been allocated. *)
Definition in_service (s : state) : Prop :=
  loop (fst s) <> None /\
  NoDup (event_queues (fst s)) /\
  Forall (fun q => (q < next_queue (snd s))%nat) (event_queues (fst s)).

(** A world where nothing has happened yet. *)
Definition fresh_world : world :=
  {| clock := 1700000000; camera_script := []; next_queue := 0;
     queues := ∅; ready := []; trace := [] |}.

(** The hub after [on_startup] has attached the running loop. *)
Definition started_hub : state :=
  ({| last_detection := None; last_frame_b64 := None; event_queues := [];
      stop_event := false; loop := Some 1%nat |}, fresh_world).

(** A payload as the detection loop publishes it. *)
Definition sample_event (l : string) (c : Q) : json :=
  JObj [("type", JStr "detection");
        ("payload",
         detection_payload {| label := l; confidence := c;
                              bbox := [10; 20; 110; 220];
                              timestamp := 1700000000 |})]%string.

(** *** The capture/inference loop *)

Section Loop.
Variable cfg : detection_config.

(** [state.capture.read()] *)
Definition capture_read : M state (option frame) :=
  '(_, w) ← get;
  let '(r, rest) :=
    match camera_script w with
    | [] => (None, [])
    | r :: rest => (r, rest)
    end in
  modify (fun '(st, w) =>
    (st, {| clock := clock w; camera_script := rest;
            next_queue := next_queue w; queues := queues w; ready := ready w;
            trace := trace w |}));;
  ret r.

(** The inner [for box in boxes] loop. *)
Fixpoint collect_boxes (r : result) (now : Q) (bs : list box)
    (detections : list detection) : M state (list detection) :=
  match bs with
  | [] => ret detections
  | b :: rest =>
      let cls_idx := cls b in
      let label :=
        match names r with
        | Some names => default (str_of_int cls_idx) (names !! cls_idx)
        | None => str_of_int cls_idx
        end in
      let conf := conf b in
      if negb (bool_decide (label ∈ WATCH_CLASSES cfg)) then
        collect_boxes r now rest detections
      else
        match xyxy b with
        | [] => raise IndexError
        | row :: _ =>
            collect_boxes r now rest
              (detections ++ [{| label := label; confidence := conf;
                                 bbox := row; timestamp := now |}])
        end
  end.

(** The outer [for r in results] loop. *)
Fixpoint collect_results (results : list result) (now : Q)
    (detections : list detection) : M state (list detection) :=
  match results with
  | [] => ret detections
  | r :: rest =>
      match boxes r with
      | None => collect_results rest now detections
      | Some bs =>
          detections' ← collect_boxes r now bs detections;
          collect_results rest now detections'
      end
  end.

(** [max(iterable, key=...)] on a non-empty iterable given by its first item
    and the others: the first of the largest items. *)
Fixpoint max_by {A} (key : A -> Q) (best : A) (l : list A) : A :=
  match l with
  | [] => best
  | x :: rest => if Qltb (key best) (key x) then max_by key x rest else max_by key best rest
  end.

(** The body of [while not state.stop_event.is_set()]; returns the new value
    of [last_emit]. *)
Definition detection_iteration (last_emit : Q) : M state Q :=
  r ← capture_read;
  match r with
  | None =>
      logger WARNING "Camera read failed; retrying" [];;
      time_sleep 1.0;;
      ret last_emit
  | Some frame =>
      update_frame frame;;
      now ← time_time;
      if Qltb (now - last_emit) (CAPTURE_INTERVAL_SEC cfg) then
        time_sleep 0.01;;
        ret last_emit
      else
        let last_emit := now in
        let results := model frame in
        detections ← collect_results results now [];
        match detections with
        | [] => ret last_emit
        | d :: others =>
            let top := max_by confidence d others in
            logger INFO "Detected %s (%.2f)" [JStr (label top); JNum (confidence top)];;
            update_detection (detection_payload top);;
            broadcast (JObj [("type", JStr "detection");
                             ("payload", detection_payload top)]%string);;
            ret last_emit
        end
  end.

(** [_detection_loop]; [None] when [fuel] iterations did not finish it. *)
Fixpoint detection_loop_from (fuel : nat) (last_emit : Q) : M state (option unit) :=
  match fuel with
  | O => ret None
  | S fuel' =>
      '(st, _) ← get;
      if stop_event st then
        logger INFO "Detection loop terminated" [];;
        ret (Some tt)
      else
        last_emit' ← detection_iteration last_emit;
        detection_loop_from fuel' last_emit'
  end.

Definition _detection_loop (fuel : nat) : M state (option unit) :=
  logger INFO "Starting detection loop" [];;
  detection_loop_from fuel 0.0.

(** The watch-class detections of a frame, as the specification has them:
    one per box whose label is in the watch set, in the order of the model's
    output. *)
Definition box_label (r : result) (b : box) : string :=
  match names r with
  | Some names => default (str_of_int (cls b)) (names !! cls b)
  | None => str_of_int (cls b)
  end.

Definition watched_box (r : result) (now : Q) (b : box) : list detection :=
  if bool_decide (box_label r b ∈ WATCH_CLASSES cfg) then
    match xyxy b with
    | [] => []
    | row :: _ => [{| label := box_label r b; confidence := conf b;
                      bbox := row; timestamp := now |}]
    end
  else [].

Definition watched_detections (now : Q) (results : list result) : list detection :=
  results ≫= (fun r => default [] (boxes r) ≫= watched_box r now).

(** The event published for a detection. *)
Definition detection_event (d : detection) : json :=
  JObj [("type", JStr "detection"); ("payload", detection_payload d)]%string.


End Loop.

(** A frame on which the model reports a person twice, a dog and a bottle. *)
Definition coco_names : gmap Z string :=
  {[ 0%Z := "person"%string; 16%Z := "dog"%string; 39%Z := "bottle"%string ]}.

Definition busy_frame : frame :=
  {| imencode := Some "iVBORw0KGgo="%string;
     model :=
       [{| boxes := Some [{| cls := 0; conf := 0.62; xyxy := [[10; 20; 110; 220]] |};
                          {| cls := 16; conf := 0.99; xyxy := [[0; 0; 50; 50]] |};
                          {| cls := 0; conf := 0.93; xyxy := [[200; 20; 300; 220]] |};
                          {| cls := 39; conf := 0.71; xyxy := [[5; 5; 25; 45]] |}];
           names := Some coco_names |}] |}.

(** The started hub with two subscribers, and the camera about to deliver
    [f]. *)
Definition watching (f : frame) : state :=
  ({| last_detection := None; last_frame_b64 := None; event_queues := [0; 1]%nat;
      stop_event := false; loop := Some 1%nat |},
   {| clock := 1700000000; camera_script := [Some f]; next_queue := 2;
      queues := {[ 0%nat := []; 1%nat := [] ]}; ready := []; trace := [] |}).

End Detector.

(** ** [orchestrator/events_client.py] *)

Module EventsClient.

(** What one pass through the [try] block meets: [session.get] or
    [raise_for_status] raises a [RequestException], or the response is read
    line by line until the stream ends, cleanly or with a
    [RequestException]. *)
Inductive attempt : Type :=
  | ConnectFailed
  | Streamed (lines : list string) (broken : bool).

Inductive level : Type := DEBUG | INFO | WARNING | ERROR.

Inductive effect : Type :=
  | Connect (url : string)
  | Sleep (d : Q)
  | Log (lvl : level) (fmt : string).

Record world : Type := {
  clock : Q;
  trace : list effect
}.

Definition emit (e : effect) : M world unit :=
  modify (fun w => {| clock := clock w; trace := trace w ++ [e] |}).

Definition time_sleep (d : Q) : M world unit :=
  if Qltb d 0 then raise (ValueError "sleep length must be non-negative")
  else
    emit (Sleep d);;
    modify (fun w => {| clock := clock w + d; trace := trace w |}).

(** [min(a, b)] *)
Definition py_min (a b : Q) : Q := if Qltb b a then b else a.

(** [c.isspace()] for an ASCII character: the white space of ASCII text is
    tab, line feed, vertical tab, form feed, carriage return, the four
    separators [0x1c]-[0x1f] and the space. *)
Definition is_space (c : Ascii.ascii) : bool :=
  let n := Ascii.nat_of_ascii c in
  ((9 <=? n) && (n <=? 13) || (28 <=? n) && (n <=? 32))%nat.

Fixpoint lstrip (s : string) : string :=
  match s with
  | String c rest => if is_space c then lstrip rest else s
  | EmptyString => EmptyString
  end.

(** [s.strip()] on ASCII text, as the lines of the detector's stream are
    (it sends [json.dumps] output, which escapes every other character). *)
Definition strip (s : string) : string :=
  String.rev (lstrip (String.rev (lstrip s))).

Section Client.
Variable cfg : detection_config.
Variable url : string.
(** [json.loads]; [None] stands for a [JSONDecodeError]. *)
Variable json_loads : string -> option json.
Variable on_event : json -> M world unit.

(** [DetectionEventsClient._dispatch], on the lines of the raw event (the
    lines that [iter_lines] yields hold no line break, so joining them with a
    newline and splitting again gives them back). *)
Definition _dispatch (raw_event : list string) : M world unit :=
  let data_lines :=
    omap (fun line =>
            if String.prefix "data:" line
            then Some (strip (String.substring 5 (String.length line - 5) line))
            else None) raw_event in
  match data_lines with
  | [] => ret tt
  | _ =>
      match json_loads (String.concat "" data_lines) with
      | Some payload => on_event payload
      | None => emit (Log DEBUG "Failed to decode SSE payload: %s")
      end
  end.

(** The [for line in response.iter_lines(...)] loop. *)
Fixpoint read_lines (lines : list string) (event_lines : list string) : M world unit :=
  match lines with
  | [] => ret tt
  | line :: rest =>
      if String.eqb line "" then
        match event_lines with
        | [] => read_lines rest event_lines
        | _ => _dispatch event_lines;; read_lines rest []
        end
      else read_lines rest (event_lines ++ [line])
  end.

(** The [while not self._stop_event.is_set()] loop of [_run]: one iteration
    per connection attempt made before the client is stopped. *)
Fixpoint run_from (attempts : list attempt) (backoff : Q) : M world unit :=
  match attempts with
  | [] => ret tt
  | a :: rest =>
      emit (Log INFO "Connecting to YOLO SSE stream at %s");;
      emit (Connect url);;
      let on_request_exception :=
        emit (Log WARNING "SSE connection error: %s");;
        time_sleep backoff;;
        run_from rest (py_min (backoff * 2) 30) in
      match a with
      | ConnectFailed => on_request_exception
      | Streamed lines broken =>
          read_lines lines [];;
          if broken then on_request_exception
          else run_from rest (SSE_BACKOFF_SEC cfg)
      end
  end.

(** [DetectionEventsClient._run] *)
Definition _run (attempts : list attempt) : M world unit :=
  let backoff := SSE_BACKOFF_SEC cfg in
  run_from attempts backoff.

End Client.

(** The sleeps of a trace, in order. *)
Definition sleeps (tr : list effect) : list Q :=
  omap (fun e => match e with Sleep d => Some d | _ => None end) tr.

Definition pow2 (k : nat) : Q := inject_Z (2 ^ Z.of_nat k).

(** The backoff schedule of the specification, for base [B] and cap [C]:
    the [k]-th consecutive failure (counted from 0) is followed by a sleep of
    [min(2^k B, C)], and any successful connection resets the count, also when
    its stream breaks later. *)
Fixpoint claimed_schedule (B C : Q) (k : nat) (attempts : list attempt) : list Q :=
  match attempts with
  | [] => []
  | Streamed _ false :: rest => claimed_schedule B C 0 rest
  | Streamed _ true :: rest => Qmin B C :: claimed_schedule B C 1 rest
  | ConnectFailed :: rest => Qmin (pow2 k * B) C :: claimed_schedule B C (S k) rest
  end.

(** The schedule as amended: the first sleep of a run of failures is the base
    itself, the later ones are capped; a stream that ends without a connection
    error resets the count, and a stream that breaks with a connection error is
    a failure like a refused connection. *)
Definition nth_backoff (B C : Q) (k : nat) : Q :=
  match k with
  | O => B
  | S _ => Qmin (pow2 k * B) C
  end.

Fixpoint schedule (B C : Q) (k : nat) (attempts : list attempt) : list Q :=
  match attempts with
  | [] => []
  | Streamed _ false :: rest => schedule B C 0 rest
  | _ :: rest => nth_backoff B C k :: schedule B C (S k) rest
  end.

(** The default settings with another base backoff ([SSE_BACKOFF_SEC]). *)
Definition config_with_backoff (B : Q) : detection_config :=
  {| WATCH_CLASSES := WATCH_CLASSES default_config;
     CAPTURE_INTERVAL_SEC := CAPTURE_INTERVAL_SEC default_config;
     YOLO_SERVER_HOST := YOLO_SERVER_HOST default_config;
     YOLO_SERVER_PORT := YOLO_SERVER_PORT default_config;
     STOP_TO_REVERSE_DELAY := STOP_TO_REVERSE_DELAY default_config;
     REVERSE_DURATION := REVERSE_DURATION default_config;
     FORWARD_RESUME_DELAY := FORWARD_RESUME_DELAY default_config;
     RESUME_WITH_FORWARD := RESUME_WITH_FORWARD default_config;
     SSE_BACKOFF_SEC := B;
     MAX_EVENT_LOG_SIZE := MAX_EVENT_LOG_SIZE default_config |}.

(** A client whose callback does nothing and whose JSON decoder rejects
    everything, started with nothing in its trace. *)
Definition idle_start : world := {| clock := 1700000000; trace := [] |}.

Definition run_idle (B : Q) (attempts : list attempt) : outcome unit * world :=
  _run (config_with_backoff B) "http://127.0.0.1:8001/events"
    (fun _ => None) (fun _ => ret tt) attempts idle_start.

End EventsClient.

(** ** [orchestrator/mdns_discover.py] *)

Module MdnsDiscover.

(** *** The module text

    A physical line of the file, reduced to what decides block structure:
    blank, continuation of a bracketed expression, or the start of a
    statement with its indentation and whether it is the header of a
    compound statement (ends with a colon and opens a block). *)
Inductive line : Type :=
  | Blank
  | Continuation
  | Stmt (indent : nat) (opens_block : bool).

(** Lines 1 to 41 of the file. *)
Definition source : list line := [
  (*  1 *) Stmt 0 false;    (* module docstring *)
  (*  2 *) Stmt 0 false;    (* from __future__ import annotations *)
  (*  3 *) Blank;
  (*  4 *) Stmt 0 true;     (* def discover_first(...) -> Optional[dict]: *)
  (*  5 *) Stmt 0 false;    (* import logging *)
  (*  6 *) Stmt 0 false;    (* import threading *)
  (*  7 *) Stmt 0 false;    (* from typing import Optional *)
  (*  8 *) Blank;
  (*  9 *) Stmt 0 false;    (* from zeroconf import ... *)
  (* 10 *) Blank;
  (* 11 *) Stmt 0 false;    (* LOGGER = ... *)
  (* 12 *) Blank;
  (* 13 *) Blank;
  (* 14 *) Stmt 0 true;     (* def discover_first(...) -> Optional[dict]: *)
  (* 15 *) Stmt 4 false;    (* docstring *)
  (* 16 *) Stmt 4 false;    (* zeroconf = Zeroconf() *)
  (* 17 *) Stmt 4 false;    (* found = None *)
  (* 18 *) Stmt 4 false;    (* event = threading.Event() *)
  (* 19 *) Blank;
  (* 20 *) Stmt 4 true;     (* def _on_service_change(...): *)
  (* 21 *) Stmt 8 false;    (* nonlocal found *)
  (* 22 *) Stmt 8 true;     (* if state_change is Added and found is None: *)
  (* 23 *) Stmt 12 false;   (* info = zeroconf_obj.get_service_info(...) *)
  (* 24 *) Stmt 12 true;    (* if info is None: *)
  (* 25 *) Stmt 16 false;   (* return *)
  (* 26 *) Stmt 12 false;   (* addresses = [...] *)
  (* 27 *) Stmt 12 false;   (* found = { *)
  (* 28 *) Continuation;
  (* 29 *) Continuation;
  (* 30 *) Continuation;
  (* 31 *) Continuation;    (* } *)
  (* 32 *) Stmt 12 false;   (* event.set() *)
  (* 33 *) Blank;
  (* 34 *) Stmt 4 false;    (* ServiceBrowser(...) *)
  (* 35 *) Blank;
  (* 36 *) Stmt 4 false;    (* event.wait(timeout) *)
  (* 37 *) Stmt 4 false;    (* zeroconf.close() *)
  (* 38 *) Stmt 4 true;     (* if found: *)
  (* 39 *) Stmt 8 false;    (* LOGGER.info(...) *)
  (* 40 *) Stmt 4 false;    (* return found *)
  (* 41 *) Blank
].

Inductive syntax_error : Type :=
  | ExpectedIndentedBlock (lineno : nat)
  | UnexpectedIndent (lineno : nat)
  | UnindentMismatch (lineno : nat).

(** Pops the indentation levels deeper than [i]. *)
Fixpoint dedent_to (i : nat) (stack : list nat) : list nat :=
  match stack with
  | [] => []
  | top :: below => if (i <? top)%nat then dedent_to i below else stack
  end.

(** The block structure that the tokenizer and parser enforce: the line after
    a header must be indented deeper than the header; no other line may be
    indented deeper than the one before; a dedent must return to an enclosing
    level.  [stack] holds the open indentation levels, innermost first, and
    [after_header] tells whether the previous statement opened a block. *)
Fixpoint check_blocks (stack : list nat) (after_header : bool) (lineno : nat)
    (lines : list line) : option syntax_error :=
  match lines with
  | [] => if after_header then Some (ExpectedIndentedBlock lineno) else None
  | Blank :: rest | Continuation :: rest =>
      check_blocks stack after_header (S lineno) rest
  | Stmt i header :: rest =>
      let top := hd 0%nat stack in
      if after_header then
        if (top <? i)%nat then check_blocks (i :: stack) header (S lineno) rest
        else Some (ExpectedIndentedBlock lineno)
      else if (top <? i)%nat then Some (UnexpectedIndent lineno)
      else
        let stack' := dedent_to i stack in
        if (hd 0%nat stack' =? i)%nat then check_blocks stack' header (S lineno) rest
        else Some (UnindentMismatch lineno)
  end.

Definition compile_module (src : list line) : option syntax_error :=
  check_blocks [0%nat] false 1 src.

(** *** The function body (lines 14 to 40) *)

Inductive ServiceStateChange : Type := Added | Removed | Updated.

(** What [get_service_info] returns for a service. *)
Record service_info : Type := {
  port : Z;
  parsed_scoped_addresses : list string
}.

(** A state change that the browser reports to its handler: when (seconds
    after the browser was started), which change, for which service name, and
    what [get_service_info] answers for it. *)
Record notification : Type := {
  after : Q;
  state_change : ServiceStateChange;
  name : string;
  info : option service_info
}.

(** A notification that makes the handler store a result: a service was
    added and its record could be resolved. *)
Definition resolves (n : notification) : Prop :=
  state_change n = Added /\ info n <> None.

Inductive effect : Type :=
  | ZeroconfOpen
  | BrowserStart (service_type : string)
  | GetServiceInfo (service_type : string) (name : string)
  | WaitReturned (event_set : bool)
  | ZeroconfClose
  | LogInfo (fmt : string).

Record world : Type := {
  clock : Q;
  notifications : list notification;
  trace : list effect
}.

Definition emit (e : effect) : M world unit :=
  modify (fun w => {| clock := clock w; notifications := notifications w;
                      trace := trace w ++ [e] |}).

(** Time passes until [t], if it has not passed already. *)
Definition wait_until (t : Q) : M world unit :=
  modify (fun w => {| clock := if Qltb (clock w) t then t else clock w;
                      notifications := notifications w; trace := trace w |}).

(** The dict stored in [found]. *)
Definition found_dict (name : string) (i : service_info) : list (string * string) :=
  [("name", name); ("port", str_of_int (port i));
   ("addresses", String.concat "," (parsed_scoped_addresses i))]%string.

(** [event.wait(timeout)] with the handler [_on_service_change] running for
    each change reported meanwhile.  [found] is [None] for as long as the wait
    lasts: the first change that sets it also sets the event, which ends the
    wait. *)
Fixpoint wait_for_event (service_type : string) (start timeout : Q)
    (pending : list notification) : M world (option (list (string * string))) :=
  match pending with
  | [] =>
      wait_until (start + timeout);;
      emit (WaitReturned false);;
      ret None
  | n :: rest =>
      if Qltb (after n) timeout then
        wait_until (start + after n);;
        match state_change n with
        | Added =>
            emit (GetServiceInfo service_type (name n));;
            match info n with
            | None => wait_for_event service_type start timeout rest
            | Some i =>
                emit (WaitReturned true);;
                ret (Some (found_dict (name n) i))
            end
        | _ => wait_for_event service_type start timeout rest
        end
      else
        wait_until (start + timeout);;
        emit (WaitReturned false);;
        ret None
  end.

(** [discover_first(service_type, timeout=3.0)], lines 14 to 40. *)
Definition discover_first (service_type : string) (timeout : Q)
  : M world (option (list (string * string))) :=
  emit ZeroconfOpen;;
  emit (BrowserStart service_type);;
  w ← get;
  found ← wait_for_event service_type (clock w) timeout (notifications w);
  emit ZeroconfClose;;
  match found with
  | Some _ => emit (LogInfo "Discovered service %s")
  | None => ret tt
  end;;
  ret found.

(** A call of [discover_first] by a client of the module: the module is
    compiled when it is imported, and only then can the function run. *)
Definition import_and_call (src : list line) (service_type : string) (timeout : Q)
  : M world (option (list (string * string))) :=
  match compile_module src with
  | Some (ExpectedIndentedBlock n) =>
      raise (IndentationError "expected an indented block" n)
  | Some (UnexpectedIndent n) => raise (IndentationError "unexpected indent" n)
  | Some (UnindentMismatch n) =>
      raise (IndentationError "unindent does not match any outer indentation level" n)
  | None => discover_first service_type timeout
  end.

End MdnsDiscover.
(** ** The scenario of the specification: four events on one stream *)

Module Scenario.
Import Orchestrator.

(** The event that the detector publishes for a detection. *)
Definition detection_event (d : Detector.detection) : json :=
  JObj [("type", JStr "detection"); ("payload", Detector.detection_payload d)]%string.

Definition seen (l : string) (t : Q) : Detector.detection :=
  {| Detector.label := l; Detector.confidence := 0.9;
     Detector.bbox := [10; 20; 110; 220]; Detector.timestamp := t |}.

(** [person@0], [person@0.2], [bottle@0.3], [person@2.0], counted from [t0]. *)
Definition detections (t0 : Q) : list Detector.detection :=
  [seen "person" t0; seen "person" (t0 + 0.2);
   seen "bottle" (t0 + 0.3); seen "person" (t0 + 2.0)].

Definition events (t0 : Q) : list (Q * json) :=
  (fun d => (Detector.timestamp d, detection_event d)) <$> detections t0.

(** Watch set [{person}], cooldown 1.5 s, and the given delays; the other
    settings are the defaults. *)
Definition config (stop_to_reverse forward_resume : Q) (resume : bool)
  : detection_config :=
  {| WATCH_CLASSES := {[ "person" ]}%string;
     CAPTURE_INTERVAL_SEC := CAPTURE_INTERVAL_SEC default_config;
     YOLO_SERVER_HOST := YOLO_SERVER_HOST default_config;
     YOLO_SERVER_PORT := YOLO_SERVER_PORT default_config;
     STOP_TO_REVERSE_DELAY := stop_to_reverse;
     REVERSE_DURATION := 1.5;
     FORWARD_RESUME_DELAY := forward_resume;
     RESUME_WITH_FORWARD := resume;
     SSE_BACKOFF_SEC := SSE_BACKOFF_SEC default_config;
     MAX_EVENT_LOG_SIZE := MAX_EVENT_LOG_SIZE default_config |}.

(** A world where the clock shows [t0], nothing has happened yet, and every
    serial exchange succeeds at once. *)
Definition quiet_world (t0 : Q) : world :=
  {| clock := t0; serial_script := []; poll_script := []; http_script := [];
     trace := [] |}.

(** The default settings with an event log of capacity zero
    ([MAX_EVENT_LOG_SIZE=0]). *)
Definition zero_capacity_config : detection_config :=
  {| WATCH_CLASSES := WATCH_CLASSES default_config;
     CAPTURE_INTERVAL_SEC := CAPTURE_INTERVAL_SEC default_config;
     YOLO_SERVER_HOST := YOLO_SERVER_HOST default_config;
     YOLO_SERVER_PORT := YOLO_SERVER_PORT default_config;
     STOP_TO_REVERSE_DELAY := STOP_TO_REVERSE_DELAY default_config;
     REVERSE_DURATION := REVERSE_DURATION default_config;
     FORWARD_RESUME_DELAY := FORWARD_RESUME_DELAY default_config;
     RESUME_WITH_FORWARD := RESUME_WITH_FORWARD default_config;
     SSE_BACKOFF_SEC := SSE_BACKOFF_SEC default_config;
     MAX_EVENT_LOG_SIZE := 0 |}.

(** A runtime that tracks a launched child process. *)
Definition supervising_runtime : runtime :=
  {| yolo_process := Some 4242%Z; event_log := []; last_detection := None;
     _serial_cooldown := 0 |}.

(** The child is running at the first poll, while the endpoint refuses the
    connection, and has exited with [code] at the second poll. *)
Definition child_exits (t0 : Q) (code : Z) : world :=
  {| clock := t0; serial_script := []; poll_script := [None; Some code];
     http_script := [(None, 0.01)]; trace := [] |}.

(** The endpoint refuses the connection, then answers 503, then 200. *)
Definition child_comes_up (t0 : Q) : world :=
  {| clock := t0; serial_script := []; poll_script := [];
     http_script := [(None, 0.01); (Some 503%Z, 0.2); (Some 200%Z, 0.05)];
     trace := [] |}.

(** The runtime right after construction. *)
Definition fresh_runtime : runtime :=
  {| yolo_process := None; event_log := []; last_detection := None;
     _serial_cooldown := 0 |}.

End Scenario.

(** ** A callback and a decoder for the event client *)

Module Sse.

(** A callback that expects a dict, as [_handle_event] does: its first
    action, [event.get], raises [AttributeError] on anything else. *)
Definition dict_callback (event : json) : M EventsClient.world unit :=
  _ty ← dict_get event "type";
  ret tt.

(** A JSON decoder for the two documents of the examples. *)
Definition toy_loads (s : string) : option json :=
  if String.eqb s "{}" then Some (JObj [])
  else if String.eqb s "[1]" then Some (JArr [JNum 1])
  else None.

End Sse.

(** ** [backend/yolo_server.py]: the endpoints and the camera source *)

Module DetectorApi.
Import Detector.

(** A value that is an [int] or a [str], as [CAMERA_SOURCE] may be. *)
Inductive source : Type :=
  | SInt (n : Z)
  | SStr (s : string).







(** What an endpoint answers: the JSON body of a 200 response, or the status
    and detail of an [HTTPException]. *)
Inductive response : Type :=
  | Ok (body : json)
  | HttpError (status_code : Z) (detail : string).

(** [GET /last_frame] *)
Definition last_frame : M state response :=
  '(st, _) ← get;
  match last_frame_b64 st with
  | None => ret (HttpError 404 "No frame captured yet")
  | Some b64 =>
      let payload :=
        match last_detection st with
        | Some d => if truthy d then d else JObj []
        | None => JObj []
        end in
      ret (Ok (JObj [("image_b64", JStr b64); ("last_detection", payload)]))
  end.









(** The payloads that the generator of a subscriber has yielded, in order,
    and the payloads that wait on its queue. *)
Definition yielded (queue : nat) (tr : list effect) : list json :=
  omap (fun e =>
          match e with
          | Yield q _ data => if Nat.eqb q queue then Some data else None
          | _ => None
          end) tr.

Definition waiting (queue : nat) (s : state) : list json :=
  default [] (queues (snd s) !! queue).

Definition is_dict (v : json) : Prop :=
  match v with JObj _ => True | _ => False end.

Definition publishes_dict (o : hub_op) : Prop :=
  match o with Broadcast p => is_dict p | _ => True end.

(** A hub in service whose bookkeeping is sound: what each subscriber has
    been sent and what still waits on its queue add up to what was put on the
    queue; queues that do not exist yet have received nothing; and everything
    scheduled or waiting is a dict addressed to an existing queue. *)
Definition hub_consistent (s : state) : Prop :=
  in_service s /\
  (forall q, yielded q (trace (snd s)) ++ waiting q s = received q (trace (snd s))) /\
  (forall q, (next_queue (snd s) <= q)%nat -> received q (trace (snd s)) = []) /\
  Forall (fun x => (fst x < next_queue (snd s))%nat /\ is_dict (snd x)) (ready (snd s)) /\
  (forall q, Forall is_dict (waiting q s)).

(** The state of the detector after a pass of the loop has read the frame
    [f] at time [now]. *)
Definition with_frame (st : DetectionState) (f : frame) : DetectionState :=
  {| last_detection := last_detection st;
     last_frame_b64 :=
       match imencode f with Some b64 => Some b64 | None => last_frame_b64 st end;
     event_queues := event_queues st; stop_event := stop_event st;
     loop := loop st |}.

Definition frame_effects (f : frame) (now : Q) : list effect :=
  match imencode f with
  | Some _ => []
  | None => [Log DEBUG "Failed to encode frame for last_frame endpoint" []]
  end ++ [TimeRead now].


End DetectorApi.

(** ** Strings: the methods of [str] used by the configuration and the serial
    port discovery (ASCII text) *)

Module PyStr.

(** Strings are sequences of bytes.  The methods of [str] below are modelled
    on ASCII text, where a character is a byte and Python's notions of letter
    case, white space and digit are the ASCII ones; the properties that depend
    on them are stated for ASCII text. *)

(** [s.isascii()] *)
Definition isascii (s : string) : bool :=
  forallb (fun c => (Ascii.nat_of_ascii c <? 128)%nat) (String.list_ascii_of_string s).

Definition lower_char (c : Ascii.ascii) : Ascii.ascii :=
  let n := Ascii.nat_of_ascii c in
  if ((65 <=? n) && (n <=? 90))%nat then Ascii.ascii_of_nat (n + 32) else c.

(** [s.lower()] on ASCII text: the letters [A]-[Z] are lowered. *)
Fixpoint lower (s : string) : string :=
  match s with
  | EmptyString => EmptyString
  | String c rest => String (lower_char c) (lower rest)
  end.

(** [sub in s] *)
Fixpoint contains (sub s : string) : bool :=
  String.prefix sub s ||
  match s with
  | EmptyString => false
  | String _ rest => contains sub rest
  end.

(** [s.split(sep)] for a separator of one character: never empty, and
    [[""]] for the empty string. *)
Fixpoint split (sep : Ascii.ascii) (s : string) : list string :=
  match s with
  | EmptyString => [EmptyString]
  | String c rest =>
      if Ascii.eqb c sep then EmptyString :: split sep rest
      else
        match split sep rest with
        | [] => [String c EmptyString]
        | piece :: pieces => String c piece :: pieces
        end
  end.

(** [sep.join(items)] *)
Definition join (sep : string) (items : list string) : string :=
  String.concat sep items.

(** Whether the character occurs in the string. *)
Fixpoint has_char (c : Ascii.ascii) (s : string) : bool :=
  match s with
  | EmptyString => false
  | String c' rest => Ascii.eqb c' c || has_char c rest
  end.

(** The characters of a string, and [lstrip] on them. *)
Definition chars (s : string) : list Ascii.ascii := String.list_ascii_of_string s.

Fixpoint ltrim (l : list Ascii.ascii) : list Ascii.ascii :=
  match l with
  | c :: rest => if EventsClient.is_space c then ltrim rest else l
  | [] => []
  end.

(** No white space in front. *)
Definition trimmed_left (l : list Ascii.ascii) : Prop :=
  match l with
  | [] => True
  | c :: _ => EventsClient.is_space c = false
  end.

End PyStr.

(** ** [backend/detection_config.py]: reading the environment *)

Module EnvConfig.

(** [os.getenv(name, default)], given the value of the variable if it is
    set. *)
Definition getenv (value : option string) (dflt : string) : string :=
  default dflt value.

(** [WATCH_CLASSES], for a value of the variable that is ASCII text (what
    [strip] takes for white space is the ASCII white space). *)
Definition watch_classes (env : option string) : gset string :=
  list_to_set
    (omap (fun cls =>
             if negb (String.eqb (EventsClient.strip cls) "")
             then Some (EventsClient.strip cls) else None)
          (PyStr.split "," (getenv env "person,bottle"))).

(** A label as it can be written in the variable: ASCII text that is not
    empty, free of commas, and without white space at either end. *)
Definition clean_label (l : string) : Prop :=
  PyStr.isascii l = true /\
  l <> "" /\ PyStr.has_char "," l = false /\ EventsClient.strip l = l.

(** A value of the variable that names no class: commas and white space
    only. *)
Fixpoint blank (s : string) : bool :=
  match s with
  | EmptyString => true
  | String c rest => (Ascii.eqb c "," || EventsClient.is_space c) && blank rest
  end.

(** The default settings with another watch set. *)
Definition config_watching (classes : gset string) : detection_config :=
  {| WATCH_CLASSES := classes;
     CAPTURE_INTERVAL_SEC := CAPTURE_INTERVAL_SEC default_config;
     YOLO_SERVER_HOST := YOLO_SERVER_HOST default_config;
     YOLO_SERVER_PORT := YOLO_SERVER_PORT default_config;
     STOP_TO_REVERSE_DELAY := STOP_TO_REVERSE_DELAY default_config;
     REVERSE_DURATION := REVERSE_DURATION default_config;
     FORWARD_RESUME_DELAY := FORWARD_RESUME_DELAY default_config;
     RESUME_WITH_FORWARD := RESUME_WITH_FORWARD default_config;
     SSE_BACKOFF_SEC := SSE_BACKOFF_SEC default_config;
     MAX_EVENT_LOG_SIZE := MAX_EVENT_LOG_SIZE default_config |}.

End EnvConfig.

(** ** [backend/serial_discovery.py] *)

Module SerialDiscovery.

(** [iter_serial_ports()]: the device paths that pyserial lists, and nothing
    when pyserial is missing ([list_ports] is [None]). *)
Definition iter_serial_ports (list_ports : option (list string)) : list string :=
  default [] list_ports.

(** [substring.lower() in port.lower()], for a hint and a device path that
    are ASCII text. *)
Definition matches (substring port : string) : bool :=
  PyStr.contains (PyStr.lower substring) (PyStr.lower port).

(** The inner [for port in ports] loop. *)
Fixpoint first_match (substring : string) (ports : list string) : option string :=
  match ports with
  | [] => None
  | port :: rest =>
      if matches substring port then Some port else first_match substring rest
  end.

(** The outer [for substring in preferred_substrings] loop. *)
Fixpoint search (preferred_substrings ports : list string) : option string :=
  match preferred_substrings with
  | [] => None
  | substring :: rest =>
      match first_match substring ports with
      | Some port => Some port
      | None => search rest ports
      end
  end.

(** [find_default_serial_port(preferred_substrings=None)] *)
Definition find_default_serial_port (list_ports : option (list string))
    (preferred_substrings : option (list string)) : option string :=
  let ports := iter_serial_ports list_ports in
  match ports with
  | [] => None
  | first :: _ =>
      let preferred_substrings :=
        match preferred_substrings with
        | None | Some [] => ["usb"; "ttyacm"; "wch"; "ch340"]
        | Some hints => hints
        end in
      match search preferred_substrings ports with
      | Some port => Some port
      | None => Some first
      end
  end.

(** The hints that are used. *)
Definition effective_hints (preferred_substrings : option (list string)) : list string :=
  match preferred_substrings with
  | None | Some [] => ["usb"; "ttyacm"; "wch"; "ch340"]
  | Some hints => hints
  end.

End SerialDiscovery.

(** ** [backend/utils/zeroconf_register.py] *)

Module ZeroconfRegister.

(** [zeroconf.ServiceInfo], by the arguments it is built from. *)
Module ServiceInfo.
Record t : Type := {
  type_ : string;
  name : string;
  port : Z;
  addresses : list (list Byte.byte);
  properties : list (string * string)
}.
End ServiceInfo.

Inductive level : Type := DEBUG | INFO.

(** Calls into the socket and zeroconf libraries, each with what it raised,
    and log lines. *)
Inductive effect : Type :=
  | Socket (local_address : option string)
  | Log (lvl : level) (fmt : string) (args : list string)
  | NewZeroconf (raised : option exn)
  | RegisterService (info : ServiceInfo.t) (raised : option exn)
  | UnregisterService (info : ServiceInfo.t) (raised : option exn)
  | Close (raised : option exn).

(** The environment: the local address that the next UDP socket reports
    ([None] for an [OSError]), and what the next calls of the zeroconf library
    raise ([None] when they succeed). *)
Record world : Type := {
  socket_script : list (option string);
  zeroconf_script : list (option exn);
  trace : list effect
}.

(** The fields of the dataclass [ZeroconfHandle], and [_info]. *)
Record ZeroconfHandle : Type := {
  name : string;
  service_type : string;
  port : Z;
  properties : option (list (string * string));
  address : option string;
  _info : option ServiceInfo.t
}.

Definition state : Type := ZeroconfHandle * world.

Definition emit (e : effect) : M world unit :=
  modify (fun w =>
    {| socket_script := socket_script w; zeroconf_script := zeroconf_script w;
       trace := trace w ++ [e] |}).

(** A function of the module run by a method of the handle. *)
Definition lift {A} (m : M world A) : M state A :=
  fun '(h, w) => let '(r, w') := m w in (r, (h, w')).

(** [detect_local_ip(fallback="127.0.0.1")] *)
Definition detect_local_ip (fallback : string) : M world string :=
  w ← get;
  let '(r, rest) :=
    match socket_script w with
    | [] => (None, [])
    | r :: rest => (r, rest)
    end in
  modify (fun w =>
    {| socket_script := rest; zeroconf_script := zeroconf_script w;
       trace := trace w |});;
  emit (Socket r);;
  match r with
  | Some local_address => ret local_address
  | None =>
      emit (Log DEBUG "Falling back to %s for zeroconf registration" [fallback]);;
      ret fallback
  end.

(** A call of the zeroconf library. *)
Definition zeroconf_call (call : option exn -> effect) : M world unit :=
  w ← get;
  let '(r, rest) :=
    match zeroconf_script w with
    | [] => (None, [])
    | r :: rest => (r, rest)
    end in
  modify (fun w =>
    {| socket_script := socket_script w; zeroconf_script := rest;
       trace := trace w |});;
  emit (call r);;
  match r with
  | Some e => raise e
  | None => ret tt
  end.

Definition set_info (info : option ServiceInfo.t) : M state unit :=
  modify (fun '(h, w) =>
    ({| name := name h; service_type := service_type h; port := port h;
        properties := properties h; address := address h; _info := info |}, w)).

Section Handle.
(** [ipaddress.ip_address(host).packed]; [None] when [host] is not the text
    of an IP address. *)
Variable ip_address : string -> option (list Byte.byte).

(** [_get_address_bytes] *)
Definition _get_address_bytes (host : string) : M world (list Byte.byte) :=
  match ip_address host with
  | Some packed => ret packed
  | None =>
      raise (ValueError ("'" +:+ host +:+ "' does not appear to be an IPv4 or IPv6 address"))
  end.

(** [ZeroconfHandle.register] *)
Definition register : M state unit :=
  '(h, _) ← get;
  match _info h with
  | Some _ => lift (emit (Log DEBUG "Zeroconf service %s already registered" [name h]))
  | None =>
      address ←
        match address h with
        | Some a => if String.eqb a "" then lift (detect_local_ip "127.0.0.1") else ret a
        | None => lift (detect_local_ip "127.0.0.1")
        end;
      let properties := default [] (properties h) in
      packed ← lift (_get_address_bytes address);
      let info :=
        {| ServiceInfo.type_ := service_type h;
           ServiceInfo.name := name h +:+ "." +:+ service_type h;
           ServiceInfo.port := port h;
           ServiceInfo.addresses := [packed];
           ServiceInfo.properties := properties |} in
      set_info (Some info);;
      lift (emit (Log INFO "Registering zeroconf service %s on %s:%d"
                    [name h; address; str_of_int (port h)]));;
      lift (zeroconf_call (RegisterService info))
  end.

(** [ZeroconfHandle.unregister] *)
Definition unregister : M state unit :=
  '(h, _) ← get;
  match _info h with
  | None => ret tt
  | Some info =>
      lift (emit (Log INFO "Unregistering zeroconf service %s" [name h]));;
      lift (zeroconf_call (UnregisterService info));;
      set_info None
  end.

(** [ZeroconfHandle.close] *)
Definition close : M state unit :=
  '(h, _) ← get;
  lift (emit (Log DEBUG "Closing zeroconf handle for %s" [name h]));;
  try_finally unregister (lift (zeroconf_call Close)).

(** [register_service]: the handle is returned once it is registered. *)
Definition register_service (name service_type : string) (port : Z)
    (properties : option (list (string * string))) (address : option string)
  : M world ZeroconfHandle :=
  zeroconf_call NewZeroconf;;
  let handle :=
    {| name := name; service_type := service_type; port := port;
       properties := properties; address := address; _info := None |} in
  fun w =>
    match register (handle, w) with
    | (Ret _, (handle', w')) => (Ret handle', w')
    | (Raise e, (_, w')) => (Raise e, w')
    end.

(** The methods called on a handle by its owner, one after the other; the
    owner goes on after an exception. *)
Inductive handle_op : Type := Register | Unregister | CloseHandle.

Definition handle_step (o : handle_op) : M state unit :=
  match o with
  | Register => register
  | Unregister => unregister
  | CloseHandle => close
  end.

Fixpoint handle_run (ops : list handle_op) (s : state) : state :=
  match ops with
  | [] => s
  | o :: rest => handle_run rest (snd (handle_step o s))
  end.

End Handle.

(** The calls of [register_service] and of [Zeroconf.close] in a trace. *)
Definition registrations (tr : list effect) : nat :=
  length (filter (fun e => match e with RegisterService _ _ => true | _ => false end = true) tr).

Definition closes (tr : list effect) : nat :=
  length (filter (fun e => match e with Close _ => true | _ => false end = true) tr).

(** Whether the service is registered after the calls of a trace, given
    whether it was before; [None] when the trace registers a registered
    service or unregisters one that is not registered. *)
Fixpoint registered_after (registered : bool) (tr : list effect) : option bool :=
  match tr with
  | [] => Some registered
  | RegisterService _ _ :: rest =>
      if registered then None else registered_after true rest
  | UnregisterService _ _ :: rest =>
      if registered then registered_after false rest else None
  | _ :: rest => registered_after registered rest
  end.

Definition holds_info (h : ZeroconfHandle) : bool :=
  match _info h with Some _ => true | None => false end.

(** Dotted quads of the examples. *)
Definition toy_ip_address (host : string) : option (list Byte.byte) :=
  if String.eqb host "127.0.0.1" then Some [Byte.x7f; Byte.x00; Byte.x00; Byte.x01]
  else if String.eqb host "192.168.1.20"
  then Some [Byte.xc0; Byte.xa8; Byte.x01; Byte.x14]
  else None.

Definition orchestrator_handle : ZeroconfHandle :=
  {| name := "TrainShunting-Orchestrator"; service_type := "_robot._tcp.local.";
     port := 8000; properties := Some [("path", "/")];
     address := Some "192.168.1.20"; _info := None |}.

Definition quiet_world : world :=
  {| socket_script := []; zeroconf_script := []; trace := [] |}.

End ZeroconfRegister.

(** ** [orchestrator/events_client.py]: the thread of the client *)

Module ClientThread.

Record DetectionEventsClient : Type := {
  url : string;
  _stop_event : bool;
  _thread : option nat
}.

Inductive effect : Type :=
  | ThreadStart (thread : nat)
  | Join (thread : nat) (timeout : Q) (finished : bool).

(** The threads that run, the name of the next thread object, and whether
    the threads joined next end within the time given to [join]. *)
Record world : Type := {
  alive : gset nat;
  next_thread : nat;
  join_script : list bool;
  trace : list effect
}.

Definition state : Type := DetectionEventsClient * world.

(** [DetectionEventsClient.__init__] *)
Definition __init__ (url : string) : DetectionEventsClient :=
  {| url := url; _stop_event := false; _thread := None |}.

Definition emit (e : effect) : M state unit :=
  modify (fun '(c, w) =>
    (c, {| alive := alive w; next_thread := next_thread w;
           join_script := join_script w; trace := trace w ++ [e] |})).

Definition set_stop_event (b : bool) : M state unit :=
  modify (fun '(c, w) =>
    ({| url := url c; _stop_event := b; _thread := _thread c |}, w)).

(** [threading.Thread(target=self._run, ...)] followed by [start()] *)
Definition thread_start : M state unit :=
  '(_, w) ← get;
  let t := next_thread w in
  modify (fun '(c, w) =>
    ({| url := url c; _stop_event := _stop_event c; _thread := Some t |},
     {| alive := {[ t ]} ∪ alive w; next_thread := S t;
        join_script := join_script w; trace := trace w |}));;
  emit (ThreadStart t).

(** [thread.join(timeout)] *)
Definition thread_join (t : nat) (timeout : Q) : M state unit :=
  '(_, w) ← get;
  if bool_decide (t ∈ alive w) then
    let '(finished, rest) :=
      match join_script w with
      | [] => (true, [])
      | b :: rest => (b, rest)
      end in
    modify (fun '(c, w) =>
      (c, {| alive := if finished then alive w ∖ {[ t ]} else alive w;
             next_thread := next_thread w; join_script := rest;
             trace := trace w |}));;
    emit (Join t timeout finished)
  else emit (Join t timeout true).

(** [DetectionEventsClient.start] *)
Definition start : M state unit :=
  '(c, w) ← get;
  if match _thread c with
     | Some t => bool_decide (t ∈ alive w)
     | None => false
     end
  then ret tt
  else
    set_stop_event false;;
    thread_start.

(** [DetectionEventsClient.stop] *)
Definition stop : M state unit :=
  set_stop_event true;;
  '(c, _) ← get;
  match _thread c with
  | Some t => thread_join t 2.0
  | None => ret tt
  end.

(** What happens to a client: its owner starts or stops it, or a thread ends
    (because [_run] saw the stop event, or because an exception ended it). *)
Inductive client_op : Type := Start | Stop | ThreadEnds (thread : nat).

Definition client_step (o : client_op) : M state unit :=
  match o with
  | Start => start
  | Stop => stop
  | ThreadEnds t =>
      modify (fun '(c, w) =>
        (c, {| alive := alive w ∖ {[ t ]}; next_thread := next_thread w;
               join_script := join_script w; trace := trace w |}))
  end.

Fixpoint client_run (ops : list client_op) : M state unit :=
  match ops with
  | [] => ret tt
  | o :: rest => client_step o;; client_run rest
  end.

(** The threads of the client are under its control: a thread that runs is
    the one the client holds, and thread names are not reused. *)
Definition tracked (s : state) : Prop :=
  (forall t, t ∈ alive (snd s) -> _thread (fst s) = Some t) /\
  (forall t, _thread (fst s) = Some t -> (t < next_thread (snd s))%nat).

Definition no_threads : world :=
  {| alive := ∅; next_thread := 0; join_script := []; trace := [] |}.

End ClientThread.

(** ** [orchestrator/main.py]: the child process and start/stop *)

Module Lifecycle.

(** The settings that only the registration of the orchestrator uses. *)
Record network_config : Type := {
  ORCHESTRATOR_PORT : Z;
  MDNS_SERVICE_TYPE_ORCHESTRATOR : string;
  MDNS_ORCHESTRATOR_NAME : string
}.

Definition default_network : network_config :=
  {| ORCHESTRATOR_PORT := 8000;
     MDNS_SERVICE_TYPE_ORCHESTRATOR := "_robot._tcp.local.";
     MDNS_ORCHESTRATOR_NAME := "TrainShunting-Orchestrator" |}.

(** What is done to child processes. *)
Inductive effect : Type :=
  | Popen (command : list string) (pid : Z)
  | Terminate (pid : Z)
  | Wait (pid : Z) (timeout : Q) (exited : bool)
  | Kill (pid : Z).

(** The runtime with the objects it owns, and the environment of each: the
    attributes and the world of the sequencer and the health wait ([core]),
    the event client with the threads, the zeroconf handle with the zeroconf
    library, and for child processes the process ids of the next children and
    whether the next waits see the child exit in time. *)
Record state : Type := {
  events_client : option ClientThread.DetectionEventsClient;
  zeroconf_handle : option ZeroconfRegister.ZeroconfHandle;
  _shutdown : bool;
  core : Orchestrator.state;
  threads : ClientThread.world;
  zeroconf : ZeroconfRegister.world;
  popen_script : list Z;
  wait_script : list bool;
  trace : list effect
}.

Definition yolo_process (s : state) : option Z :=
  Orchestrator.yolo_process (fst (core s)).

Definition set_events_client (c : option ClientThread.DetectionEventsClient)
  : M state unit :=
  modify (fun s =>
    {| events_client := c; zeroconf_handle := zeroconf_handle s;
       _shutdown := _shutdown s; core := core s; threads := threads s;
       zeroconf := zeroconf s; popen_script := popen_script s;
       wait_script := wait_script s; trace := trace s |}).

Definition set_zeroconf_handle (h : option ZeroconfRegister.ZeroconfHandle)
  : M state unit :=
  modify (fun s =>
    {| events_client := events_client s; zeroconf_handle := h;
       _shutdown := _shutdown s; core := core s; threads := threads s;
       zeroconf := zeroconf s; popen_script := popen_script s;
       wait_script := wait_script s; trace := trace s |}).

Definition set_shutdown : M state unit :=
  modify (fun s =>
    {| events_client := events_client s; zeroconf_handle := zeroconf_handle s;
       _shutdown := true; core := core s; threads := threads s;
       zeroconf := zeroconf s; popen_script := popen_script s;
       wait_script := wait_script s; trace := trace s |}).

Definition emit (e : effect) : M state unit :=
  modify (fun s =>
    {| events_client := events_client s; zeroconf_handle := zeroconf_handle s;
       _shutdown := _shutdown s; core := core s; threads := threads s;
       zeroconf := zeroconf s; popen_script := popen_script s;
       wait_script := wait_script s; trace := trace s ++ [e] |}).

(** A method of the runtime that only uses the attributes of [core]. *)
Definition lift_core {A} (m : M Orchestrator.state A) : M state A :=
  fun s =>
    let '(r, c) := m (core s) in
    (r, {| events_client := events_client s; zeroconf_handle := zeroconf_handle s;
           _shutdown := _shutdown s; core := c; threads := threads s;
           zeroconf := zeroconf s; popen_script := popen_script s;
           wait_script := wait_script s; trace := trace s |}).

(** A function of the zeroconf module. *)
Definition lift_zeroconf {A} (m : M ZeroconfRegister.world A) : M state A :=
  fun s =>
    let '(r, z) := m (zeroconf s) in
    (r, {| events_client := events_client s; zeroconf_handle := zeroconf_handle s;
           _shutdown := _shutdown s; core := core s; threads := threads s;
           zeroconf := z; popen_script := popen_script s;
           wait_script := wait_script s; trace := trace s |}).

(** A method called on [self.events_client]: the object is mutated in
    place. *)
Definition on_events_client {A} (m : M ClientThread.state A) : M state A :=
  fun s =>
    match events_client s with
    | None => (Raise AttributeError, s)
    | Some c =>
        let '(r, (c', t)) := m (c, threads s) in
        (r, {| events_client := Some c'; zeroconf_handle := zeroconf_handle s;
               _shutdown := _shutdown s; core := core s; threads := t;
               zeroconf := zeroconf s; popen_script := popen_script s;
               wait_script := wait_script s; trace := trace s |})
    end.

(** A method called on [self.zeroconf_handle]. *)
Definition on_zeroconf_handle {A} (m : M ZeroconfRegister.state A) : M state A :=
  fun s =>
    match zeroconf_handle s with
    | None => (Raise AttributeError, s)
    | Some h =>
        let '(r, (h', z)) := m (h, zeroconf s) in
        (r, {| events_client := events_client s; zeroconf_handle := Some h';
               _shutdown := _shutdown s; core := core s; threads := threads s;
               zeroconf := z; popen_script := popen_script s;
               wait_script := wait_script s; trace := trace s |})
    end.

(** [self.yolo_process = process] *)
Definition set_yolo_process (process : option Z) : M state unit :=
  lift_core (modify (fun '(rt, w) =>
    ({| Orchestrator.yolo_process := process;
        Orchestrator.event_log := Orchestrator.event_log rt;
        Orchestrator.last_detection := Orchestrator.last_detection rt;
        Orchestrator._serial_cooldown := Orchestrator._serial_cooldown rt |}, w))).

(** [subprocess.Popen(command, env=env)] *)
Definition popen (command : list string) : M state Z :=
  s ← get;
  let '(pid, rest) :=
    match popen_script s with
    | [] => (1%Z, [])
    | pid :: rest => (pid, rest)
    end in
  modify (fun s =>
    {| events_client := events_client s; zeroconf_handle := zeroconf_handle s;
       _shutdown := _shutdown s; core := core s; threads := threads s;
       zeroconf := zeroconf s; popen_script := rest;
       wait_script := wait_script s; trace := trace s |});;
  emit (Popen command pid);;
  ret pid.

(** [process.wait(timeout=wait)]: [false] for [TimeoutExpired]. *)
Definition process_wait (process : Z) (timeout : Q) : M state bool :=
  s ← get;
  let '(exited, rest) :=
    match wait_script s with
    | [] => (true, [])
    | b :: rest => (b, rest)
    end in
  modify (fun s =>
    {| events_client := events_client s; zeroconf_handle := zeroconf_handle s;
       _shutdown := _shutdown s; core := core s; threads := threads s;
       zeroconf := zeroconf s; popen_script := popen_script s;
       wait_script := rest; trace := trace s |});;
  emit (Wait process timeout exited);;
  ret exited.

Section Runtime.
Variable cfg : detection_config.
Variable net : network_config.
(** [sys.executable] *)
Variable sys_executable : string.
Variable ip_address : string -> option (list Byte.byte).

(** [OrchestratorRuntime._launch_yolo_server]; the child inherits a copy of
    the environment, and [Popen] is taken to succeed. *)
Definition _launch_yolo_server : M state unit :=
  s ← get;
  running ←
    match yolo_process s with
    | Some _ =>
        returncode ← lift_core Orchestrator.process_poll;
        ret (match returncode with None => true | Some _ => false end)
    | None => ret false
    end;
  if running then
    lift_core (Orchestrator.logger Orchestrator.INFO "YOLO server already running" [])
  else
    let command :=
      [sys_executable; "-m"; "uvicorn"; "backend.yolo_server:app";
       "--host"; YOLO_SERVER_HOST cfg;
       "--port"; str_of_int (YOLO_SERVER_PORT cfg)] in
    lift_core (Orchestrator.logger Orchestrator.INFO "Launching YOLO server: %s"
                 [JStr (PyStr.join " " command)]);;
    process ← popen command;
    set_yolo_process (Some process).

(** [OrchestratorRuntime._terminate_process(process, wait=5.0)] *)
Definition _terminate_process (process : Z) (wait : Q) : M state unit :=
  returncode ← lift_core Orchestrator.process_poll;
  match returncode with
  | Some _ => ret tt
  | None =>
      emit (Terminate process);;
      exited ← process_wait process wait;
      if exited then ret tt
      else
        lift_core (Orchestrator.logger Orchestrator.WARNING
                     "Force killing subprocess %s" [JNum (inject_Z process)]);;
        emit (Kill process)
  end.

(** [OrchestratorRuntime.stop] *)
Definition stop : M state unit :=
  set_shutdown;;
  s ← get;
  match events_client s with
  | Some _ => on_events_client ClientThread.stop;; set_events_client None
  | None => ret tt
  end;;
  s ← get;
  match zeroconf_handle s with
  | Some _ => on_zeroconf_handle ZeroconfRegister.close;; set_zeroconf_handle None
  | None => ret tt
  end;;
  s ← get;
  match yolo_process s with
  | Some process =>
      lift_core (Orchestrator.logger Orchestrator.INFO
                   "Stopping YOLO server subprocess" []);;
      _terminate_process process 5.0;;
      set_yolo_process None
  | None => ret tt
  end.

(** [OrchestratorRuntime._start_event_client] *)
Definition _start_event_client : M state unit :=
  let url := "http://" +:+ YOLO_SERVER_HOST cfg +:+ ":"
             +:+ str_of_int (YOLO_SERVER_PORT cfg) +:+ "/events" in
  set_events_client (Some (ClientThread.__init__ url));;
  on_events_client ClientThread.start.

(** [OrchestratorRuntime._register_mdns] *)
Definition _register_mdns : M state unit :=
  address ← lift_zeroconf (ZeroconfRegister.detect_local_ip "127.0.0.1");
  handle ← lift_zeroconf
    (ZeroconfRegister.register_service ip_address
       (MDNS_ORCHESTRATOR_NAME net) (MDNS_SERVICE_TYPE_ORCHESTRATOR net)
       (ORCHESTRATOR_PORT net)
       (Some [("path", "/");
              ("detector", YOLO_SERVER_HOST cfg +:+ ":"
                           +:+ str_of_int (YOLO_SERVER_PORT cfg))])
       (Some address));
  set_zeroconf_handle (Some handle).

(** [OrchestratorRuntime.start], after [logging.basicConfig]; [None] when
    the health wait ran out of fuel. *)
Definition start (fuel : nat) : M state (option unit) :=
  _launch_yolo_server;;
  healthy ← lift_core (Orchestrator._wait_for_yolo_health cfg fuel 45.0);
  match healthy with
  | None => ret None
  | Some _ =>
      _start_event_client;;
      _register_mdns;;
      ret (Some tt)
  end.

End Runtime.

(** The runtime right after construction, in a quiet environment where the
    clock shows [t0]. *)
Definition fresh (t0 : Q) : state :=
  {| events_client := None; zeroconf_handle := None; _shutdown := false;
     core := (Scenario.fresh_runtime, Scenario.quiet_world t0);
     threads := ClientThread.no_threads;
     zeroconf := ZeroconfRegister.quiet_world;
     popen_script := [4242%Z]; wait_script := []; trace := [] |}.

(** A handle whose service is registered. *)
Definition registered_handle : ZeroconfRegister.ZeroconfHandle :=
  fst (snd (ZeroconfRegister.register ZeroconfRegister.toy_ip_address
              (ZeroconfRegister.orchestrator_handle, ZeroconfRegister.quiet_world))).

End Lifecycle.

(** * Properties *)

(** ** Comparisons of times *)

Section QltbFacts.
Lemma Qltb_lt (a b : Q) : Qltb a b = true <-> a < b.
Proof.
  unfold Qltb. rewrite negb_true_iff. split.
  - intros H. apply Qnot_le_lt. intros Hle. apply Qle_bool_iff in Hle. congruence.
  - intros H. destruct (Qle_bool b a) eqn:E; [|reflexivity].
    apply Qle_bool_iff in E. lra.
Qed.

Lemma Qltb_ge (a b : Q) : Qltb a b = false <-> b <= a.
Proof.
  unfold Qltb. rewrite negb_false_iff. apply Qle_bool_iff.
Qed.
End QltbFacts.

(** ** The bounded deque *)

Section DequeFacts.
Context {A : Type}.
Implicit Types (d xs : list A) (x : A) (N : nat).

Lemma appendleft_take N x d :
  (length d <= N)%nat -> Deque.appendleft N x d = take N (x :: d).
Proof.
  intros Hlen. unfold Deque.appendleft.
  destruct (N <? length (x :: d))%nat eqn:E.
  - apply Nat.ltb_lt in E. cbn [length] in E.
    assert (length d = N) as Hfull by lia.
    rewrite removelast_firstn_len. cbn [length Nat.pred]. now rewrite Hfull.
  - apply Nat.ltb_ge in E. symmetry. now apply firstn_all2.
Qed.

Lemma appendleft_length N x d :
  (length d <= N)%nat -> (length (Deque.appendleft N x d) <= N)%nat.
Proof.
  intros H. rewrite appendleft_take by exact H. rewrite length_take. lia.
Qed.

Lemma inserts_snoc N xs x :
  Deque.inserts N (xs ++ [x]) = Deque.appendleft N x (Deque.inserts N xs).
Proof. unfold Deque.inserts. now rewrite fold_left_app. Qed.

Lemma inserts_take N xs : Deque.inserts N xs = take N (rev xs).
Proof.
  induction xs as [|x xs IH] using rev_ind; [now destruct N|].
  rewrite inserts_snoc, rev_unit, IH.
  rewrite appendleft_take by (rewrite length_take; lia).
  destruct N as [|n]; [reflexivity|].
  cbn [take]. f_equal. rewrite take_take. f_equal. lia.
Qed.

Lemma inserts_length N xs : (length (Deque.inserts N xs) <= N)%nat.
Proof. rewrite inserts_take, length_take. lia. Qed.
End DequeFacts.

(** For every run of insertions into a deque of capacity [N]: the length
    never exceeds [N]; the deque holds the [N] most recent items, newest first;
    a further insertion keeps the bound, and it puts the new item first and,
    when the deque is full, drops exactly its oldest (last) entry, unless [N]
    is zero: then the deque stays empty. *)
Lemma deque_bounded_newest_first {A : Type} (N : nat) (xs : list A) (x : A) :
  let d := Deque.inserts N xs in
  (length d <= N)%nat /\
  d = take N (rev xs) /\
  (length (Deque.appendleft N x d) <= N)%nat /\
  Deque.appendleft N x d =
    match N with
    | O => []
    | S _ => x :: (if (length d =? N)%nat then removelast d else d)
    end.
Proof.
  intros d. pose proof (inserts_length N xs) as Hlen. fold d in Hlen.
  repeat split.
  - exact Hlen.
  - apply inserts_take.
  - now apply appendleft_length.
  - destruct N as [|n].
    + assert (d = []) as -> by (destruct d; [reflexivity | cbn in Hlen; lia]).
      reflexivity.
    + unfold Deque.appendleft. cbn [length].
      destruct (length d =? S n)%nat eqn:E.
      * apply Nat.eqb_eq in E. rewrite E.
        replace (S n <? S (S n))%nat with true by (symmetry; apply Nat.ltb_lt; lia).
        destruct d as [|y d']; [discriminate|]. reflexivity.
      * apply Nat.eqb_neq in E.
        replace (S n <? S (length d))%nat with false
          by (symmetry; apply Nat.ltb_ge; lia).
        reflexivity.
Qed.

(** ** The safety sequencer: [_execute_safety_sequence] and [_handle_event] *)

Section SequencerFacts.
Import Orchestrator.
Variable cfg : detection_config.

Ltac run_monad :=
  unfold _execute_safety_sequence, _handle_event, record_detection, set_cooldown,
    with_cooldown, with_detection,
    stop_send, reverse_send, forward_send, serial_send, time_time, time_sleep,
    advance, with_serial_lock, try_finally, logger, emit, dict_get, in_str_set,
    modify, raise, bind, get, ret;
  cbn -[Qltb Qplus Qminus Qmult Qle Qlt assoc_last bool_decide Deque.appendleft].

Lemma exec_skip fields rt w :
  Qltb (clock w - _serial_cooldown rt) (REVERSE_DURATION cfg) = true ->
  _execute_safety_sequence cfg (JObj fields) (rt, w)
  = (Ret tt, (rt, extend_trace w (skip_effects (clock w)))).
Proof.
  intros H. destruct w as [c ss ps hs tr], rt as [yp el ld cd].
  cbn [clock _serial_cooldown] in H.
  run_monad. rewrite H. run_monad.
  unfold extend_trace, skip_effects. cbn. now rewrite <- !app_assoc.
Qed.

Lemma exec_pass fields rt w :
  0 <= STOP_TO_REVERSE_DELAY cfg ->
  0 <= FORWARD_RESUME_DELAY cfg ->
  Qltb (clock w - _serial_cooldown rt) (REVERSE_DURATION cfg) = false ->
  exists ok1 ok2 ok3 t_rev w',
    _execute_safety_sequence cfg (JObj fields) (rt, w)
    = (Ret tt, (with_cooldown rt t_rev, w')) /\
    trace w' = trace w ++
      sequence_effects cfg (clock w) (default JNull (assoc_last "label" fields))
        ok1 ok2 ok3 t_rev /\
    (Forall (fun x => 0 <= snd x) (serial_script w) ->
     clock w + STOP_TO_REVERSE_DELAY cfg <= t_rev /\
     (if RESUME_WITH_FORWARD cfg
      then t_rev + FORWARD_RESUME_DELAY cfg <= clock w'
      else clock w' == t_rev)).
Proof.
  intros Hs Hf H. destruct w as [c ss ps hs tr], rt as [yp el ld cd].
  cbn [clock _serial_cooldown] in H.
  apply Qltb_ge in Hs as Hs'. apply Qltb_ge in Hf as Hf'.
  exists (fst (nth 0 ss (true, 0))), (fst (nth 1 ss (true, 0))),
    (fst (nth 2 ss (true, 0))).
  destruct ss as [|[ok1 d1] [|[ok2 d2] [|[ok3 d3] ss]]];
    run_monad; rewrite H; run_monad; rewrite Hs'; run_monad;
    unfold sequence_effects, with_cooldown;
    destruct (RESUME_WITH_FORWARD cfg); run_monad; try rewrite Hf'; run_monad.
  all: eexists _, _; split; [reflexivity|]; split;
    [cbn; rewrite <- ?app_assoc; reflexivity|].
  all: cbn; intros HF; repeat (apply Forall_cons in HF as [? HF]); cbn in *; split; lra.
Qed.


Lemma sequences_started_app tr1 tr2 :
  sequences_started (tr1 ++ tr2) = (sequences_started tr1 + sequences_started tr2)%nat.
Proof. unfold sequences_started. now rewrite filter_app, length_app. Qed.

Lemma sequences_started_sequence now lbl ok1 ok2 ok3 t :
  sequences_started (sequence_effects cfg now lbl ok1 ok2 ok3 t) = 1%nat.
Proof. unfold sequence_effects. now destruct (RESUME_WITH_FORWARD cfg). Qed.

Lemma sequences_started_skip now : sequences_started (skip_effects now) = 0%nat.
Proof. reflexivity. Qed.

Lemma serial_cmds_sequence now lbl ok1 ok2 ok3 t :
  serial_cmds (sequence_effects cfg now lbl ok1 ok2 ok3 t)
  = [STOP; REV 80 (REVERSE_DURATION cfg)]
    ++ (if RESUME_WITH_FORWARD cfg then [FWD 100] else []).
Proof. unfold sequence_effects. now destruct (RESUME_WITH_FORWARD cfg). Qed.

(** Whatever its outcome, the sequencer leaves the event log and the last
    detection alone. *)
Lemma exec_preserves_log fields rt w :
  exists r rt' w',
    _execute_safety_sequence cfg (JObj fields) (rt, w) = (r, (rt', w')) /\
    event_log rt' = event_log rt /\ last_detection rt' = last_detection rt.
Proof.
  destruct w as [c ss ps hs tr], rt as [yp el ld cd].
  run_monad.
  destruct (Qltb (c - cd) (REVERSE_DURATION cfg)); run_monad;
    [eexists _, _, _; split; [reflexivity|]; split; reflexivity|].
  destruct ss as [|[ok1 d1] [|[ok2 d2] [|[ok3 d3] ss]]]; run_monad;
    destruct (Qltb (STOP_TO_REVERSE_DELAY cfg) 0); run_monad;
    try (eexists _, _, _; split; [reflexivity|]; split; reflexivity);
    destruct (RESUME_WITH_FORWARD cfg); run_monad;
    try (eexists _, _, _; split; [reflexivity|]; split; reflexivity);
    destruct (Qltb (FORWARD_RESUME_DELAY cfg) 0); run_monad;
    eexists _, _, _; split; try reflexivity; split; reflexivity.
Qed.

Lemma labelled_truthy event payload l :
  labelled_detection event payload l -> truthy payload = true /\ truthy (JStr l) = true.
Proof.
  intros (ef & pf & -> & _ & _ & -> & Hl & Hne). split.
  - destruct pf; [discriminate | reflexivity].
  - cbn. apply negb_true_iff. now apply String.eqb_neq.
Qed.

(** Handling a labelled detection event: the payload is recorded, and the
    sequencer is called exactly when the label is watched. *)
Lemma handle_labelled event payload l rt w :
  labelled_detection event payload l ->
  _handle_event cfg event (rt, w) =
    let st := (with_detection cfg rt payload,
               extend_trace w [Log DEBUG "Received detection event: %s" [payload]]) in
    if bool_decide (l ∈ WATCH_CLASSES cfg)
    then _execute_safety_sequence cfg payload st
    else (Ret tt, st).
Proof.
  intros Hev. destruct (labelled_truthy _ _ _ Hev) as [Hp Hl].
  destruct Hev as (ef & pf & -> & Hty & Hpl & -> & Hlab & Hne).
  destruct w as [c ss ps hs tr], rt as [yp el ld cd].
  unfold _handle_event, dict_get, bind, ret.
  rewrite Hty, Hpl.
  cbn -[truthy assoc_last bool_decide _execute_safety_sequence with_detection logger
        record_detection in_str_set].
  rewrite Hp, Hlab.
  cbn -[truthy assoc_last bool_decide _execute_safety_sequence with_detection logger
        record_detection in_str_set].
  rewrite Hl.
  unfold logger, emit, record_detection, modify, in_str_set, ret, extend_trace.
  cbn -[Qltb Qplus Qminus bool_decide _execute_safety_sequence with_detection].
  now destruct (bool_decide (l ∈ WATCH_CLASSES cfg)).
Qed.


(** The exact times of a passing call: the trigger time is the entry time
    plus the time of the STOP exchange, the first delay and the time of the
    REVERSE exchange. *)
Lemma exec_pass_times fields rt w :
  0 <= STOP_TO_REVERSE_DELAY cfg ->
  0 <= FORWARD_RESUME_DELAY cfg ->
  Qltb (clock w - _serial_cooldown rt) (REVERSE_DURATION cfg) = false ->
  let exchange i := nth i (serial_script w) (true, 0) in
  exists t_rev w',
    _execute_safety_sequence cfg (JObj fields) (rt, w)
    = (Ret tt, (with_cooldown rt t_rev, w')) /\
    trace w' = trace w ++
      sequence_effects cfg (clock w) (default JNull (assoc_last "label" fields))
        (fst (exchange 0%nat)) (fst (exchange 1%nat)) (fst (exchange 2%nat)) t_rev /\
    t_rev == clock w + snd (exchange 0%nat) + STOP_TO_REVERSE_DELAY cfg
             + snd (exchange 1%nat) /\
    clock w' ==
      t_rev + (if RESUME_WITH_FORWARD cfg
               then FORWARD_RESUME_DELAY cfg + snd (exchange 2%nat) else 0).
Proof.
  intros Hs Hf H exchange. subst exchange.
  destruct w as [c ss ps hs tr], rt as [yp el ld cd].
  cbn [clock _serial_cooldown serial_script] in *.
  apply Qltb_ge in Hs as Hs'. apply Qltb_ge in Hf as Hf'.
  destruct ss as [|[ok1 d1] [|[ok2 d2] [|[ok3 d3] ss]]];
    run_monad; rewrite H; run_monad; rewrite Hs'; run_monad;
    unfold sequence_effects, with_cooldown;
    destruct (RESUME_WITH_FORWARD cfg); run_monad; try rewrite Hf'; run_monad.
  all: eexists _, _; split; [reflexivity|]; split;
    [cbn; rewrite <- ?app_assoc; reflexivity|].
  all: cbn; split; lra.
Qed.

(** C2 (as amended).  Whenever a call of the sequencer passes the cooldown
    check and the configured delays are not negative, it returns normally after
    doing, between acquiring and releasing the lock: STOP, wait
    [STOP_TO_REVERSE_DELAY], REVERSE with [REVERSE_DURATION], a clock reading
    that is stored as the trigger time, and then, exactly when
    [RESUME_WITH_FORWARD] is set, wait [FORWARD_RESUME_DELAY] and FORWARD.
    The stored trigger time is the clock right after REVERSE was sent (the
    entry time plus the first delay and the time of the two serial exchanges),
    not the time of completion; nothing else of the runtime changes. *)
Theorem safety_sequence_order fields rt w :
  0 <= STOP_TO_REVERSE_DELAY cfg ->
  0 <= FORWARD_RESUME_DELAY cfg ->
  REVERSE_DURATION cfg <= clock w - _serial_cooldown rt ->
  let exchange i := nth i (serial_script w) (true, 0) in
  exists t_rev rt' w',
    _execute_safety_sequence cfg (JObj fields) (rt, w) = (Ret tt, (rt', w')) /\
    _serial_cooldown rt' = t_rev /\
    yolo_process rt' = yolo_process rt /\
    event_log rt' = event_log rt /\
    last_detection rt' = last_detection rt /\
    trace w' = trace w ++
      [TimeRead (clock w); LockAcquire;
       Log INFO "Triggering safety sequence for label=%s"
         [default JNull (assoc_last "label" fields)];
       Serial STOP (fst (exchange 0%nat));
       Sleep (STOP_TO_REVERSE_DELAY cfg);
       Serial (REV 80 (REVERSE_DURATION cfg)) (fst (exchange 1%nat));
       TimeRead t_rev]
      ++ (if RESUME_WITH_FORWARD cfg
          then [Sleep (FORWARD_RESUME_DELAY cfg);
                Serial (FWD 100) (fst (exchange 2%nat))]
          else [])
      ++ [LockRelease] /\
    serial_cmds (trace w') =
      serial_cmds (trace w) ++ [STOP; REV 80 (REVERSE_DURATION cfg)]
      ++ (if RESUME_WITH_FORWARD cfg then [FWD 100] else []) /\
    t_rev == clock w + snd (exchange 0%nat) + STOP_TO_REVERSE_DELAY cfg
             + snd (exchange 1%nat) /\
    clock w' ==
      t_rev + (if RESUME_WITH_FORWARD cfg
               then FORWARD_RESUME_DELAY cfg + snd (exchange 2%nat) else 0).
Proof.
  intros Hs Hf Hpass exchange. apply Qltb_ge in Hpass.
  destruct (exec_pass_times fields rt w Hs Hf Hpass)
    as (t_rev & w' & Hrun & Htr & Hrev & Hend).
  exists t_rev, (with_cooldown rt t_rev), w'.
  split; [exact Hrun|]. repeat split; try assumption.
  rewrite Htr. unfold serial_cmds. rewrite omap_app. fold (serial_cmds (trace w)).
  f_equal. apply serial_cmds_sequence.
Qed.

(** C1 (as amended).  With cooldown [D = REVERSE_DURATION] and delays that
    are not negative: when a call of the sequencer at time [t0] passes the
    check, it executes one whole sequence (STOP, REVERSE and, when resuming is
    enabled, FORWARD); a second call whose entry time is less than [D] after
    [t0] sends nothing and changes nothing in the runtime (the event is
    dropped: there is nothing that would replay it later); and any later call
    whose entry time is at least [D] after the recorded trigger time executes
    a second whole sequence. *)
Theorem cooldown_debounce fields rt w :
  0 <= STOP_TO_REVERSE_DELAY cfg ->
  0 <= FORWARD_RESUME_DELAY cfg ->
  Forall (fun x => 0 <= snd x) (serial_script w) ->
  REVERSE_DURATION cfg <= clock w - _serial_cooldown rt ->
  let burst :=
    [STOP; REV 80 (REVERSE_DURATION cfg)]
    ++ (if RESUME_WITH_FORWARD cfg then [FWD 100] else []) in
  exists rt1 w1,
    _execute_safety_sequence cfg (JObj fields) (rt, w) = (Ret tt, (rt1, w1)) /\
    sequences_started (trace w1) = S (sequences_started (trace w)) /\
    serial_cmds (trace w1) = serial_cmds (trace w) ++ burst /\
    (forall fields2 w2,
        clock w2 - clock w < REVERSE_DURATION cfg ->
        _execute_safety_sequence cfg (JObj fields2) (rt1, w2)
        = (Ret tt, (rt1, extend_trace w2 (skip_effects (clock w2)))) /\
        sequences_started (trace (extend_trace w2 (skip_effects (clock w2))))
        = sequences_started (trace w2) /\
        serial_cmds (trace (extend_trace w2 (skip_effects (clock w2))))
        = serial_cmds (trace w2)) /\
    (forall fields3 w3,
        REVERSE_DURATION cfg <= clock w3 - _serial_cooldown rt1 ->
        exists rt3 w3',
          _execute_safety_sequence cfg (JObj fields3) (rt1, w3)
          = (Ret tt, (rt3, w3')) /\
          sequences_started (trace w3') = S (sequences_started (trace w3)) /\
          serial_cmds (trace w3') = serial_cmds (trace w3) ++ burst).
Proof.
  intros Hs Hf Hlat Hpass burst. apply Qltb_ge in Hpass.
  destruct (exec_pass fields rt w Hs Hf Hpass)
    as (ok1 & ok2 & ok3 & t_rev & w1 & Hrun & Htr & Htime).
  destruct (Htime Hlat) as [Hrev _].
  exists (with_cooldown rt t_rev), w1. split; [exact Hrun|].
  split; [|split; [|split]].
  - rewrite Htr, sequences_started_app, sequences_started_sequence. lia.
  - rewrite Htr. unfold serial_cmds. rewrite omap_app. fold (serial_cmds (trace w)).
    f_equal. apply serial_cmds_sequence.
  - intros fields2 w2 Hdelta. split; [|split].
    + apply exec_skip. apply Qltb_lt. cbn. lra.
    + cbn [trace extend_trace].
      rewrite sequences_started_app, sequences_started_skip. lia.
    + cbn [trace extend_trace]. unfold serial_cmds. rewrite omap_app. cbn.
      apply app_nil_r.
  - intros fields3 w3 Hlate. apply Qltb_ge in Hlate.
    destruct (exec_pass fields3 (with_cooldown rt t_rev) w3 Hs Hf Hlate)
      as (ok1' & ok2' & ok3' & t' & w3' & Hrun' & Htr' & _).
    eexists _, w3'. split; [exact Hrun'|]. split.
    + rewrite Htr', sequences_started_app, sequences_started_sequence. lia.
    + rewrite Htr'. unfold serial_cmds. rewrite omap_app. fold (serial_cmds (trace w3)).
      f_equal. apply serial_cmds_sequence.
Qed.

(** C9.  The trigger time starts at 0, so the first watched, labelled event
    handled while the trigger time still has its initial value starts a
    sequence whenever its handling time is at least [REVERSE_DURATION] (as any
    wall-clock time is). *)
Theorem first_trigger_passes w0 rt0 w0' rt w event payload l :
  __init__ cfg w0 = (Ret rt0, w0') ->
  _serial_cooldown rt = _serial_cooldown rt0 ->
  labelled_detection event payload l ->
  l ∈ WATCH_CLASSES cfg ->
  0 <= STOP_TO_REVERSE_DELAY cfg ->
  0 <= FORWARD_RESUME_DELAY cfg ->
  REVERSE_DURATION cfg <= clock w ->
  _serial_cooldown rt0 = 0 /\
  exists rt' w',
    _handle_event cfg event (rt, w) = (Ret tt, (rt', w')) /\
    sequences_started (trace w') = S (sequences_started (trace w)).
Proof.
  intros Hinit Hcd Hev Hin Hs Hf Hnow.
  assert (_serial_cooldown rt0 = 0) as H0.
  { unfold __init__, Deque.new, bind, ret, raise in Hinit.
    destruct (MAX_EVENT_LOG_SIZE cfg <? 0)%Z; [discriminate|].
    now inversion Hinit. }
  split; [exact H0|].
  rewrite (handle_labelled _ _ _ _ _ Hev). cbn zeta.
  rewrite bool_decide_eq_true_2 by exact Hin.
  destruct Hev as (ef & pf & -> & _ & _ & -> & _ & _).
  edestruct (exec_pass pf (with_detection cfg rt (JObj pf))
               (extend_trace w [Log DEBUG "Received detection event: %s" [JObj pf]])) as
    (ok1 & ok2 & ok3 & t_rev & w' & Hrun & Htr & _); [exact Hs|exact Hf| |].
  { apply Qltb_ge. cbn [_serial_cooldown with_detection extend_trace clock].
    rewrite Hcd, H0. lra. }
  eexists _, w'. split; [exact Hrun|].
  rewrite Htr. cbn [trace extend_trace].
  rewrite !sequences_started_app, sequences_started_sequence.
  change (sequences_started [Log _ _ _]) with 0%nat. lia.
Qed.

End SequencerFacts.

(** ** Events handled one after the other *)

Section StreamFacts.
Import Orchestrator.
Variable cfg : detection_config.
Hypothesis stop_delay_ok : 0 <= STOP_TO_REVERSE_DELAY cfg.
Hypothesis resume_delay_ok : 0 <= FORWARD_RESUME_DELAY cfg.

Lemma serial_cmds_app tr1 tr2 :
  serial_cmds (tr1 ++ tr2) = serial_cmds tr1 ++ serial_cmds tr2.
Proof. unfold serial_cmds. apply omap_app. Qed.

Lemma handle_unwatched event payload l rt w :
  labelled_detection event payload l ->
  l ∉ WATCH_CLASSES cfg ->
  serial_script w = [] ->
  exists rt' w',
    _handle_event cfg event (rt, w) = (Ret tt, (rt', w')) /\
    handled cfg rt w payload rt' w' 0 [] /\
    _serial_cooldown rt' = _serial_cooldown rt /\ clock w' = clock w.
Proof.
  intros Hev Hout Hq. rewrite (handle_labelled cfg _ _ _ _ _ Hev). cbn zeta.
  rewrite bool_decide_eq_false_2 by exact Hout.
  eexists _, _. split; [reflexivity|]. split; [|split; reflexivity].
  constructor; cbn [extend_trace serial_script trace with_detection event_log
                    last_detection]; try easy.
  - rewrite sequences_started_app. change (sequences_started [Log _ _ _]) with 0%nat. lia.
  - rewrite serial_cmds_app. cbn. now rewrite app_nil_r.
Qed.

Lemma handle_watched_skip event payload l rt w :
  labelled_detection event payload l ->
  l ∈ WATCH_CLASSES cfg ->
  serial_script w = [] ->
  clock w - _serial_cooldown rt < REVERSE_DURATION cfg ->
  exists rt' w',
    _handle_event cfg event (rt, w) = (Ret tt, (rt', w')) /\
    handled cfg rt w payload rt' w' 0 [] /\
    _serial_cooldown rt' = _serial_cooldown rt /\ clock w' = clock w.
Proof.
  intros Hev Hin Hq Hcd. rewrite (handle_labelled cfg _ _ _ _ _ Hev). cbn zeta.
  rewrite bool_decide_eq_true_2 by exact Hin.
  destruct Hev as (ef & pf & -> & _ & _ & -> & _ & _).
  rewrite exec_skip by (apply Qltb_lt; exact Hcd).
  eexists _, _. split; [reflexivity|]. split; [|split; reflexivity].
  constructor; cbn [extend_trace serial_script trace with_detection event_log
                    last_detection]; try easy.
  - rewrite !sequences_started_app, sequences_started_skip.
    change (sequences_started [Log _ _ _]) with 0%nat. lia.
  - rewrite !serial_cmds_app. cbn. now rewrite !app_nil_r.
Qed.

Lemma handle_watched_pass event payload l rt w :
  labelled_detection event payload l ->
  l ∈ WATCH_CLASSES cfg ->
  serial_script w = [] ->
  REVERSE_DURATION cfg <= clock w - _serial_cooldown rt ->
  exists rt' w',
    _handle_event cfg event (rt, w) = (Ret tt, (rt', w')) /\
    handled cfg rt w payload rt' w' 1
      ([STOP; REV 80 (REVERSE_DURATION cfg)]
       ++ (if RESUME_WITH_FORWARD cfg then [FWD 100] else [])) /\
    _serial_cooldown rt' == clock w + STOP_TO_REVERSE_DELAY cfg /\
    clock w' == clock w + STOP_TO_REVERSE_DELAY cfg
                + (if RESUME_WITH_FORWARD cfg then FORWARD_RESUME_DELAY cfg else 0).
Proof.
  intros Hev Hin Hq Hcd. rewrite (handle_labelled cfg _ _ _ _ _ Hev). cbn zeta.
  rewrite bool_decide_eq_true_2 by exact Hin.
  destruct Hev as (ef & pf & -> & _ & _ & -> & _ & _).
  destruct w as [c ss ps hs tr], rt as [yp el ld cd]. cbn in Hq, Hcd. subst ss.
  apply Qltb_ge in Hcd.
  pose proof stop_delay_ok as Hs. pose proof resume_delay_ok as Hf.
  apply Qltb_ge in Hs, Hf.
  unfold extend_trace, with_detection.
  cbn [clock serial_script poll_script http_script trace yolo_process event_log
       last_detection _serial_cooldown].
  unfold _execute_safety_sequence, set_cooldown, with_cooldown,
    stop_send, reverse_send, forward_send, serial_send, time_time, time_sleep,
    advance, with_serial_lock, try_finally, logger, emit, dict_get,
    modify, raise, bind, get, ret.
  cbn -[Qltb Qplus Qminus Qmult Qle Qlt assoc_last Deque.appendleft].
  rewrite Hcd. cbn -[Qltb Qplus Qminus Qmult Qle Qlt assoc_last Deque.appendleft].
  rewrite Hs. cbn -[Qltb Qplus Qminus Qmult Qle Qlt assoc_last Deque.appendleft].
  destruct (RESUME_WITH_FORWARD cfg);
    cbn -[Qltb Qplus Qminus Qmult Qle Qlt assoc_last Deque.appendleft];
    try rewrite Hf;
    cbn -[Qltb Qplus Qminus Qmult Qle Qlt assoc_last Deque.appendleft].
  all: eexists _, _; split; [reflexivity|]; split; [|cbn; split; lra].
  all: constructor; cbn [serial_script trace event_log last_detection]; try easy.
  all: rewrite <- ?app_assoc;
    rewrite ?sequences_started_app, ?serial_cmds_app; cbn; try lia;
    now rewrite ?app_nil_r.
Qed.

Lemma arrive_spec t rt w :
  exists w',
    arrive t (rt, w) = (Ret tt, (rt, w')) /\
    serial_script w' = serial_script w /\ trace w' = trace w /\
    ((clock w < t /\ clock w' == t) \/ (t <= clock w /\ clock w' = clock w)).
Proof.
  destruct w as [c ss ps hs tr]. unfold arrive, advance, modify, bind, get, ret.
  cbn -[Qltb Qplus Qminus].
  destruct (Qltb c t) eqn:E; eexists; (split; [reflexivity|]); cbn; repeat split.
  - left. apply Qltb_lt in E. split; [exact E | lra].
  - right. apply Qltb_ge in E. split; [exact E | reflexivity].
Qed.

Lemma handle_stream_cons t ev rest st rt1 w1 st2 :
  arrive t st = (Ret tt, (rt1, w1)) ->
  _handle_event cfg ev (rt1, w1) = (Ret tt, st2) ->
  handle_stream cfg ((t, ev) :: rest) st = handle_stream cfg rest st2.
Proof.
  intros Ha Hh. cbn [handle_stream]. unfold bind at 1. rewrite Ha.
  unfold bind at 1. now rewrite Hh.
Qed.

End StreamFacts.

(** ** The four-event scenario *)

Section ScenarioFacts.
Import Orchestrator.

Lemma detection_event_labelled (d : Detector.detection) :
  Detector.label d <> ""%string ->
  labelled_detection (Scenario.detection_event d) (Detector.detection_payload d)
    (Detector.label d).
Proof.
  intros Hne. eexists _, _. repeat split; try reflexivity. exact Hne.
Qed.

Lemma person_watched s f resume :
  "person"%string ∈ WATCH_CLASSES (Scenario.config s f resume).
Proof. cbn. set_solver. Qed.

Lemma bottle_unwatched s f resume :
  "bottle"%string ∉ WATCH_CLASSES (Scenario.config s f resume).
Proof. cbn. set_solver. Qed.

(** The scenario, for delays that leave the cooldown time to run out: the
    first and the fourth event each start a sequence, the second is dropped,
    the third is not watched; all four are logged, newest first. *)
Lemma scenario_two_sequences (t0 s f : Q) (resume : bool) :
  0 <= s -> s <= 0.5 -> 0 <= f -> f < 1.5 -> 1.5 <= t0 ->
  let cfg := Scenario.config s f resume in
  let burst := [STOP; REV 80 1.5] ++ (if resume then [FWD 100] else []) in
  exists rt' w',
    handle_stream cfg (Scenario.events t0)
      (Scenario.fresh_runtime, Scenario.quiet_world t0)
    = (Ret tt, (rt', w')) /\
    sequences_started (trace w') = 2%nat /\
    serial_cmds (trace w') = burst ++ burst /\
    event_log rt' = rev (Detector.detection_payload <$> Scenario.detections t0).
Proof.
  intros Hs0 Hs Hf0 Hf Ht cfg burst.
  assert (0 <= STOP_TO_REVERSE_DELAY cfg) as Hsd by exact Hs0.
  assert (0 <= FORWARD_RESUME_DELAY cfg) as Hfd by exact Hf0.
  unfold Scenario.events, Scenario.detections.
  cbn [fmap list_fmap Detector.timestamp Scenario.seen].
  (* person at t0 *)
  destruct (arrive_spec t0 Scenario.fresh_runtime (Scenario.quiet_world t0))
    as (wa & Ha & Hqa & Htra & Hca).
  destruct (handle_watched_pass cfg Hsd Hfd _ _ _ Scenario.fresh_runtime wa
              (detection_event_labelled (Scenario.seen "person" t0) ltac:(discriminate))
              (person_watched s f resume))
    as (rt1 & w1 & H1 & D1 & Hcd1 & Hck1);
    [now rewrite Hqa | cbn in *; destruct Hca as [[? ?]|[? ->]]; cbn; lra |].
  rewrite (handle_stream_cons cfg _ _ _ _ _ _ _ Ha H1). clear Ha H1.
  assert (clock wa == t0) as Hwa
    by (cbn in Hca; destruct Hca as [[? ?]|[? ->]]; [assumption | reflexivity]).
  cbn [STOP_TO_REVERSE_DELAY FORWARD_RESUME_DELAY RESUME_WITH_FORWARD
       REVERSE_DURATION cfg Scenario.config] in Hcd1, Hck1.
  (* person at t0 + 0.2 *)
  destruct (arrive_spec (t0 + 0.2) rt1 w1) as (wb & Hb & Hqb & Htrb & Hcb).
  destruct (handle_watched_skip cfg _ _ _ rt1 wb
              (detection_event_labelled (Scenario.seen "person" (t0 + 0.2))
                 ltac:(discriminate))
              (person_watched s f resume))
    as (rt2 & w2 & H2 & D2 & Hcd2 & Hck2);
    [rewrite Hqb; apply D1
    | cbn; destruct resume, Hcb as [[? ?]|[? Hcb]]; try rewrite Hcb; lra |].
  rewrite (handle_stream_cons cfg _ _ _ _ _ _ _ Hb H2). clear Hb H2.
  (* bottle at t0 + 0.3 *)
  destruct (arrive_spec (t0 + 0.3) rt2 w2) as (wc & Hc & Hqc & Htrc & Hcc).
  destruct (handle_unwatched cfg _ _ _ rt2 wc
              (detection_event_labelled (Scenario.seen "bottle" (t0 + 0.3))
                 ltac:(discriminate))
              (bottle_unwatched s f resume))
    as (rt3 & w3 & H3 & D3 & Hcd3 & Hck3);
    [rewrite Hqc; apply D2 |].
  rewrite (handle_stream_cons cfg _ _ _ _ _ _ _ Hc H3). clear Hc H3.
  (* person at t0 + 2.0 *)
  destruct (arrive_spec (t0 + 2.0) rt3 w3) as (wd & Hd & Hqd & Htrd & Hcd).
  assert (clock wd == t0 + 2.0) as Hwd.
  { destruct Hcd as [[? ?]|[Hl Hcd]]; [assumption|].
    rewrite Hck3 in Hl. rewrite Hck2 in Hcc.
    destruct resume, Hcb as [[? ?]|[? Hcb]], Hcc as [[? ?]|[? Hcc]];
      try rewrite Hcc in *; try rewrite Hcb in *; lra. }
  destruct (handle_watched_pass cfg Hsd Hfd _ _ _ rt3 wd
              (detection_event_labelled (Scenario.seen "person" (t0 + 2.0))
                 ltac:(discriminate))
              (person_watched s f resume))
    as (rt4 & w4 & H4 & D4 & Hcd4 & Hck4);
    [rewrite Hqd; apply D3 | rewrite Hcd3, Hcd2; cbn; lra |].
  rewrite (handle_stream_cons cfg _ _ _ _ _ _ _ Hd H4). clear Hd H4.
  exists rt4, w4. split; [reflexivity|].
  destruct D1 as [_ L1 _ S1 C1], D2 as [_ L2 _ S2 C2], D3 as [_ L3 _ S3 C3],
    D4 as [_ L4 _ S4 C4].
  rewrite Htra in S1, C1. rewrite Htrb in S2, C2. rewrite Htrc in S3, C3.
  rewrite Htrd in S4, C4.
  split; [|split].
  - rewrite S4, S3, S2, S1. reflexivity.
  - rewrite C4, C3, C2, C1. cbn. now rewrite !app_nil_r.
  - rewrite L4, L3, L2, L1. reflexivity.
Qed.

End ScenarioFacts.

(** ** Events that carry a label *)

Section LabelFacts.
Import Orchestrator.
Variable cfg : detection_config.

(** Handling an event that carries a label, of whatever type: the payload is
    recorded first; the sequencer runs only for a watched string. *)
Lemma handle_carries_label event payload label rt w :
  carries_label event payload label ->
  exists r rt' w',
    _handle_event cfg event (rt, w) = (r, (rt', w')) /\
    last_detection rt' = Some payload /\
    event_log rt' =
      Deque.appendleft (Z.to_nat (MAX_EVENT_LOG_SIZE cfg)) payload (event_log rt) /\
    ((forall l, label = JStr l -> l ∉ WATCH_CLASSES cfg) ->
     _serial_cooldown rt' = _serial_cooldown rt /\
     trace w' = trace w ++ [Log DEBUG "Received detection event: %s" [payload]]).
Proof.
  intros (ef & pf & -> & Hty & Hpl & -> & Hlab & Hl).
  assert (truthy (JObj pf) = true) as Hp by (destruct pf; [discriminate | reflexivity]).
  unfold _handle_event, dict_get, bind, ret.
  rewrite Hty, Hpl.
  cbn -[truthy assoc_last bool_decide _execute_safety_sequence with_detection logger
        record_detection in_str_set].
  rewrite Hp, Hlab.
  cbn -[truthy assoc_last bool_decide _execute_safety_sequence with_detection logger
        record_detection in_str_set].
  rewrite Hl.
  unfold logger, emit, record_detection, modify, in_str_set, ret, raise.
  cbn -[Qltb Qplus Qminus bool_decide _execute_safety_sequence with_detection].
  destruct label as [|b|q|l|items|fields];
    try (eexists _, _, _; split; [reflexivity|]; repeat split; reflexivity).
  destruct (bool_decide (l ∈ WATCH_CLASSES cfg)) eqn:Hw.
  - match goal with
    | |- context [_execute_safety_sequence cfg (JObj pf) (?rt1, ?w1)] =>
        destruct (exec_preserves_log cfg pf rt1 w1) as (r & rt' & w' & Hrun & Hlog & Hlast)
    end.
    exists r, rt', w'. rewrite Hlog, Hlast.
    split; [exact Hrun|]. split; [reflexivity|]. split; [reflexivity|].
    intros Hout. apply bool_decide_eq_true in Hw. now destruct (Hout l eq_refl).
  - eexists _, _, _. split; [reflexivity|]. repeat split; reflexivity.
Qed.

Lemma labelled_carries event payload l :
  labelled_detection event payload l -> carries_label event payload (JStr l).
Proof.
  intros Hev. destruct (labelled_truthy _ _ _ Hev) as [_ Hl].
  destruct Hev as (ef & pf & -> & Hty & Hpl & -> & Hlab & _).
  exists ef, pf. repeat split; assumption.
Qed.

End LabelFacts.

(** ** The event log of the runtime *)

Section EventLogInvariant.
Import Orchestrator.
Variable cfg : detection_config.

(** Whatever the event and the outcome, the handler either leaves the event
    log alone or puts one payload in front of it. *)
Lemma handle_event_log_step event rt w :
  exists r rt' w',
    _handle_event cfg event (rt, w) = (r, (rt', w')) /\
    (event_log rt' = event_log rt \/
     exists payload,
       event_log rt' =
       Deque.appendleft (Z.to_nat (MAX_EVENT_LOG_SIZE cfg)) payload (event_log rt)).
Proof.
  unfold _handle_event, dict_get, bind, ret, raise.
  destruct event as [| | | | |ef]; try (eexists _, _, _; split; [reflexivity | now left]).
  destruct (negb _); [eexists _, _, _; split; [reflexivity | now left]|].
  set (payload := if truthy _ then _ else _).
  destruct payload as [| | | | |pf] eqn:Hp;
    try (eexists _, _, _; split; [reflexivity | now left]).
  destruct (negb _); [eexists _, _, _; split; [reflexivity | now left]|].
  unfold logger, emit, record_detection, modify, in_str_set, ret, raise.
  cbn -[_execute_safety_sequence with_detection assoc_last bool_decide].
  destruct (default JNull (assoc_last "label" pf)) as [| | |l| |];
    try (eexists _, _, _; split; [reflexivity | right; now eexists]).
  destruct (bool_decide _);
    [|eexists _, _, _; split; [reflexivity | right; now eexists]].
  match goal with
  | |- context [_execute_safety_sequence cfg (JObj pf) (?rt1, ?w1)] =>
      destruct (exec_preserves_log cfg pf rt1 w1) as (r & rt' & w' & Hrun & Hlog & _)
  end.
  exists r, rt', w'. split; [exact Hrun|]. right. rewrite Hlog. now eexists.
Qed.

(** The event log of the runtime never grows beyond its capacity, whatever
    events the stream carries. *)
Lemma event_log_never_exceeds_capacity events : forall rt w,
  (length (event_log rt) <= Z.to_nat (MAX_EVENT_LOG_SIZE cfg))%nat ->
  exists r rt' w',
    handle_stream cfg events (rt, w) = (r, (rt', w')) /\
    (length (event_log rt') <= Z.to_nat (MAX_EVENT_LOG_SIZE cfg))%nat.
Proof.
  induction events as [|[t ev] events IH]; intros rt w Hlen.
  - exists (Ret tt), rt, w. split; [reflexivity | exact Hlen].
  - destruct (arrive_spec t rt w) as (wa & Ha & _).
    destruct (handle_event_log_step ev rt wa) as (r & rt1 & w1 & Hh & Hlog).
    assert (length (event_log rt1) <= Z.to_nat (MAX_EVENT_LOG_SIZE cfg))%nat as Hlen1.
    { destruct Hlog as [->|[p ->]]; [exact Hlen | now apply appendleft_length]. }
    cbn [handle_stream]. unfold bind at 1. rewrite Ha. unfold bind at 1. rewrite Hh.
    destruct r as [[]|e]; [apply IH, Hlen1|].
    exists (Raise e), rt1, w1. split; [reflexivity | exact Hlen1].
Qed.

(** A labelled detection event is recorded whatever the sequencer does
    afterwards: its payload becomes the last detection and the first entry of
    the event log. *)
Lemma handle_logs_payload event payload l rt w :
  labelled_detection event payload l ->
  exists r rt' w',
    _handle_event cfg event (rt, w) = (r, (rt', w')) /\
    last_detection rt' = Some payload /\
    event_log rt' =
      Deque.appendleft (Z.to_nat (MAX_EVENT_LOG_SIZE cfg)) payload (event_log rt).
Proof.
  intros Hev. rewrite (handle_labelled cfg _ _ _ _ _ Hev). cbn zeta.
  destruct (bool_decide _); [|eexists _, _, _; repeat split].
  destruct Hev as (ef & pf & _ & _ & _ & -> & _ & _).
  match goal with
  | |- context [_execute_safety_sequence cfg (JObj pf) (?rt1, ?w1)] =>
      destruct (exec_preserves_log cfg pf rt1 w1) as (r & rt' & w' & Hrun & Hlog & Hlast)
  end.
  exists r, rt', w'. split; [exact Hrun|]. now rewrite Hlog, Hlast.
Qed.

(** With delays that are not negative the handler returns normally. *)
Lemma handle_labelled_returns event payload l rt w :
  0 <= STOP_TO_REVERSE_DELAY cfg ->
  0 <= FORWARD_RESUME_DELAY cfg ->
  labelled_detection event payload l ->
  exists rt' w',
    _handle_event cfg event (rt, w) = (Ret tt, (rt', w')) /\
    event_log rt' =
      Deque.appendleft (Z.to_nat (MAX_EVENT_LOG_SIZE cfg)) payload (event_log rt).
Proof.
  intros Hs Hf Hev. rewrite (handle_labelled cfg _ _ _ _ _ Hev). cbn zeta.
  destruct (bool_decide _); [|eexists _, _; repeat split].
  destruct Hev as (ef & pf & _ & _ & _ & -> & _ & _).
  match goal with
  | |- context [_execute_safety_sequence cfg (JObj pf) (?rt1, ?w1)] =>
      destruct (Qltb (clock w1 - _serial_cooldown rt1) (REVERSE_DURATION cfg)) eqn:E;
      [rewrite (exec_skip cfg pf rt1 w1 E)
      |destruct (exec_pass cfg pf rt1 w1 Hs Hf E)
         as (ok1 & ok2 & ok3 & t_rev & w' & -> & _)]
  end; eexists _, _; repeat split.
Qed.

Lemma take_app_take {A} (N : nat) (l m : list A) :
  take N (l ++ take N m) = take N (l ++ m).
Proof.
  rewrite !take_app, take_take. do 2 f_equal. lia.
Qed.

(** After a stream of labelled detection events the log holds the most
    recent payloads, newest first, cut at the capacity. *)
Lemma event_log_after_stream events : forall payloads rt w,
  0 <= STOP_TO_REVERSE_DELAY cfg ->
  0 <= FORWARD_RESUME_DELAY cfg ->
  Forall2 (fun ev p => exists l, labelled_detection (snd ev) p l) events payloads ->
  (length (event_log rt) <= Z.to_nat (MAX_EVENT_LOG_SIZE cfg))%nat ->
  exists rt' w',
    handle_stream cfg events (rt, w) = (Ret tt, (rt', w')) /\
    event_log rt' =
      take (Z.to_nat (MAX_EVENT_LOG_SIZE cfg)) (rev payloads ++ event_log rt).
Proof.
  induction events as [|[t ev] events IH]; intros payloads rt w Hs Hf Hall Hlen.
  - apply Forall2_nil_inv_l in Hall as ->. exists rt, w. split; [reflexivity|].
    cbn. now rewrite take_ge.
  - apply Forall2_cons_inv_l in Hall as (p & ps & [l Hev] & Hall & ->).
    destruct (arrive_spec t rt w) as (wa & Ha & _).
    destruct (handle_labelled_returns ev p l rt wa Hs Hf Hev) as (rt1 & w1 & Hh & Hlog).
    rewrite (handle_stream_cons cfg _ _ _ _ _ _ _ Ha Hh).
    rewrite appendleft_take in Hlog by exact Hlen.
    destruct (IH ps rt1 w1 Hs Hf Hall) as (rt' & w' & Hrun & Hlog').
    { rewrite Hlog, length_take. lia. }
    exists rt', w'. split; [exact Hrun|].
    rewrite Hlog', Hlog, take_app_take. cbn [rev]. now rewrite <- app_assoc.
Qed.

End EventLogInvariant.

(** C5 (as amended).  For every run of insertions into an event log of
    capacity [N]: the length never exceeds [N]; the log holds the [N] most recent
    items, newest first; and, when [N] is at least one, a further insertion puts
    the new item first and, when the log is full, drops exactly its oldest (last)
    entry.  With capacity zero the log stays empty.  In the runtime, whose log
    has capacity [MAX_EVENT_LOG_SIZE]: the log is empty after construction; the
    bound holds after any stream of events; the handler puts the payload of
    every labelled detection event in front of the log, whatever the sequencer
    does afterwards; and after a stream of such events the log is the
    newest-first list of all payloads received, cut at the capacity. *)
Theorem event_log_bounded_newest_first :
  (forall (N : nat) (xs : list json) (x : json),
      let d := Deque.inserts N xs in
      (length d <= N)%nat /\
      d = take N (rev xs) /\
      (length (Deque.appendleft N x d) <= N)%nat /\
      Deque.appendleft N x d =
        match N with
        | O => []
        | S _ => x :: (if (length d =? N)%nat then removelast d else d)
        end) /\
  (forall cfg events rt w,
      (length (Orchestrator.event_log rt) <= Z.to_nat (MAX_EVENT_LOG_SIZE cfg))%nat ->
      exists r rt' w',
        Orchestrator.handle_stream cfg events (rt, w) = (r, (rt', w')) /\
        (length (Orchestrator.event_log rt') <= Z.to_nat (MAX_EVENT_LOG_SIZE cfg))%nat) /\
  (forall cfg w,
      (0 <= MAX_EVENT_LOG_SIZE cfg)%Z ->
      exists rt0,
        Orchestrator.__init__ cfg w = (Ret rt0, w) /\
        Orchestrator.event_log rt0 = []) /\
  (forall cfg event payload l rt w,
      Orchestrator.labelled_detection event payload l ->
      (length (Orchestrator.event_log rt) <= Z.to_nat (MAX_EVENT_LOG_SIZE cfg))%nat ->
      exists r rt' w',
        Orchestrator._handle_event cfg event (rt, w) = (r, (rt', w')) /\
        Orchestrator.last_detection rt' = Some payload /\
        Orchestrator.event_log rt' =
          take (Z.to_nat (MAX_EVENT_LOG_SIZE cfg))
            (payload :: Orchestrator.event_log rt)) /\
  (forall cfg events payloads rt w,
      0 <= STOP_TO_REVERSE_DELAY cfg ->
      0 <= FORWARD_RESUME_DELAY cfg ->
      Forall2 (fun ev p => exists l, Orchestrator.labelled_detection (snd ev) p l)
        events payloads ->
      (length (Orchestrator.event_log rt) <= Z.to_nat (MAX_EVENT_LOG_SIZE cfg))%nat ->
      exists rt' w',
        Orchestrator.handle_stream cfg events (rt, w) = (Ret tt, (rt', w')) /\
        Orchestrator.event_log rt' =
          take (Z.to_nat (MAX_EVENT_LOG_SIZE cfg))
            (rev payloads ++ Orchestrator.event_log rt)).
Proof.
  split; [|split; [|split; [|split]]].
  - intros N xs x. apply deque_bounded_newest_first.
  - intros cfg events rt w. apply event_log_never_exceeds_capacity.
  - intros cfg w Hcap. unfold Orchestrator.__init__, Deque.new, bind, ret.
    apply Z.ltb_ge in Hcap. rewrite Hcap. eexists. split; reflexivity.
  - intros cfg event payload l rt w Hev Hlen.
    destruct (handle_logs_payload cfg event payload l rt w Hev)
      as (r & rt' & w' & Hrun & Hlast & Hlog).
    exists r, rt', w'. split; [exact Hrun|]. split; [exact Hlast|].
    rewrite Hlog. now apply appendleft_take.
  - intros cfg events payloads rt w. apply event_log_after_stream.
Qed.

(** ** Closed instances for the sequencer and the event log *)

Section SequencerClaims.
Import Orchestrator.

(** C6 (as amended).  A labelled detection event is recorded as the last
    detection and put in front of the event log whatever its label and
    whatever the sequencer then does; an event whose label is not watched sends
    no command and leaves the trigger time alone.  In the scenario (watch set
    [{person}], cooldown 1.5 s, events person, person, bottle, person arriving
    at [t0], [t0+0.2], [t0+0.3], [t0+2.0] on one stream, serial exchanges taking
    no time), exactly two sequences are executed and all four events are
    logged, provided REVERSE of the first sequence is sent at most 0.5 s after
    the first event ([STOP_TO_REVERSE_DELAY <= 0.5]) and the resume wait is
    shorter than the cooldown. *)
Theorem labelled_events_logged_watched_trigger :
  (forall cfg event payload label rt w,
      carries_label event payload label ->
      exists r rt' w',
        _handle_event cfg event (rt, w) = (r, (rt', w')) /\
        last_detection rt' = Some payload /\
        event_log rt' =
          Deque.appendleft (Z.to_nat (MAX_EVENT_LOG_SIZE cfg)) payload (event_log rt) /\
        ((forall l, label = JStr l -> l ∉ WATCH_CLASSES cfg) ->
         _serial_cooldown rt' = _serial_cooldown rt /\
         trace w' = trace w ++ [Log DEBUG "Received detection event: %s" [payload]])) /\
  (forall t0 s f resume,
      0 <= s -> s <= 0.5 -> 0 <= f -> f < 1.5 -> 1.5 <= t0 ->
      let cfg := Scenario.config s f resume in
      let burst := [STOP; REV 80 1.5] ++ (if resume then [FWD 100] else []) in
      exists rt' w',
        handle_stream cfg (Scenario.events t0)
          (Scenario.fresh_runtime, Scenario.quiet_world t0)
        = (Ret tt, (rt', w')) /\
        sequences_started (trace w') = 2%nat /\
        serial_cmds (trace w') = burst ++ burst /\
        event_log rt' = rev (Detector.detection_payload <$> Scenario.detections t0)).
Proof.
  split.
  - intros cfg event payload label rt w. apply handle_carries_label.
  - intros. now apply scenario_two_sequences.
Qed.

Lemma labelled_events_logged_watched_trigger_witness :
  let bottle := Scenario.seen "bottle" 1700000000.3 in
  (carries_label (Scenario.detection_event bottle)
     (Detector.detection_payload bottle) (JStr "bottle") /\
   0 <= 0.5 /\ 0.5 <= 0.5 /\ 0 <= 1.0 /\ 1.0 < 1.5 /\ 1.5 <= 1700000000) /\
  (exists r rt' w',
    _handle_event (Scenario.config 0.5 1.0 true) (Scenario.detection_event bottle)
      (Scenario.fresh_runtime, Scenario.quiet_world 1700000000.3)
    = (r, (rt', w')) /\
    last_detection rt' = Some (Detector.detection_payload bottle) /\
    event_log rt' = [Detector.detection_payload bottle]) /\
  exists rt' w',
    handle_stream (Scenario.config 0.5 1.0 true) (Scenario.events 1700000000)
      (Scenario.fresh_runtime, Scenario.quiet_world 1700000000)
    = (Ret tt, (rt', w')) /\
    sequences_started (trace w') = 2%nat /\
    serial_cmds (trace w') =
      [STOP; REV 80 1.5; FWD 100; STOP; REV 80 1.5; FWD 100] /\
    event_log rt'
    = rev (Detector.detection_payload <$> Scenario.detections 1700000000).
Proof.
  intros bottle.
  assert (carries_label (Scenario.detection_event bottle)
            (Detector.detection_payload bottle) (JStr "bottle")) as H0
    by (apply labelled_carries, (detection_event_labelled bottle); discriminate).
  assert (0 <= 0.5) as H1 by lra. assert (0.5 <= 0.5) as H2 by lra.
  assert (0 <= 1.0) as H3 by lra. assert (1.0 < 1.5) as H4 by lra.
  assert (1.5 <= 1700000000) as H5 by lra.
  split; [repeat split; assumption|]. split.
  - destruct (proj1 labelled_events_logged_watched_trigger
                (Scenario.config 0.5 1.0 true) _ _ _ Scenario.fresh_runtime
                (Scenario.quiet_world 1700000000.3) H0)
      as (r & rt' & w' & Hrun & Hlast & Hlog & _).
    exists r, rt', w'. split; [exact Hrun|]. split; [exact Hlast | exact Hlog].
  - exact (proj2 labelled_events_logged_watched_trigger
             1700000000 0.5 1.0 true H1 H2 H3 H4 H5).
Defined.

(** C6, counterexample.  With the default delays (1 s before REVERSE, 1 s
    before FORWARD) the scenario runs a single sequence: the trigger time is
    recorded 1 s after the first event, and the fourth event, handled 1 s
    after that, is still inside the 1.5 s window. *)
Lemma scenario_default_delays_single_sequence :
  exists rt' w',
    handle_stream (Scenario.config 1.0 1.0 true) (Scenario.events 1700000000)
      (Scenario.fresh_runtime, Scenario.quiet_world 1700000000)
    = (Ret tt, (rt', w')) /\
    sequences_started (trace w') = 1%nat /\
    sequences_started (trace w') <> 2%nat /\
    serial_cmds (trace w') = [STOP; REV 80 1.5; FWD 100].
Proof.
  eexists _, _. split; [vm_compute; reflexivity|].
  repeat split. discriminate.
Qed.

(** C5, counterexample.  With [MAX_EVENT_LOG_SIZE=0] the runtime is
    constructed normally, and a handled event is recorded as the last
    detection but is not in the log: the log stays empty. *)
Lemma event_log_capacity_zero_drops_newest :
  let cfg := Scenario.zero_capacity_config in
  let d := Scenario.seen "person" 1700000000 in
  exists rt0 rt' w',
    __init__ cfg (Scenario.quiet_world 1700000000)
    = (Ret rt0, Scenario.quiet_world 1700000000) /\
    _handle_event cfg (Scenario.detection_event d) (rt0, Scenario.quiet_world 1700000000)
    = (Ret tt, (rt', w')) /\
    last_detection rt' = Some (Detector.detection_payload d) /\
    event_log rt' = [] /\
    head (event_log rt') <> Some (Detector.detection_payload d).
Proof.
  eexists _, _, _. split; [vm_compute; reflexivity|].
  split; [vm_compute; reflexivity|].
  repeat split. discriminate.
Qed.

Lemma event_log_bounded_newest_first_witness :
  let a := JStr "a" in let b := JStr "b" in let c := JStr "c" in
  let cfg := Scenario.config 0.5 1.0 true in
  let t0 := 1700000000 in
  (length (Orchestrator.event_log Scenario.fresh_runtime)
   <= Z.to_nat (MAX_EVENT_LOG_SIZE default_config))%nat /\
  (Deque.inserts 2 [a; b; c] = [c; b] /\
   Deque.appendleft 2 a (Deque.inserts 2 [a; b; c]) = [a; c]) /\
  (exists r rt' w',
    handle_stream default_config (Scenario.events 1700000000)
      (Scenario.fresh_runtime, Scenario.quiet_world 1700000000)
    = (r, (rt', w')) /\
    (length (event_log rt') <= Z.to_nat (MAX_EVENT_LOG_SIZE default_config))%nat) /\
  exists rt' w',
    handle_stream cfg (Scenario.events t0)
      (Scenario.fresh_runtime, Scenario.quiet_world t0)
    = (Ret tt, (rt', w')) /\
    event_log rt' =
      Detector.detection_payload <$>
        [Scenario.seen "person" (t0 + 2.0); Scenario.seen "bottle" (t0 + 0.3);
         Scenario.seen "person" (t0 + 0.2); Scenario.seen "person" t0].
Proof.
  intros a b c cfg t0.
  assert (length (Orchestrator.event_log Scenario.fresh_runtime)
          <= Z.to_nat (MAX_EVENT_LOG_SIZE default_config))%nat as H
    by (cbn; lia).
  split; [exact H|]. split; [|split].
  - destruct (proj1 event_log_bounded_newest_first 2%nat [a; b; c] a)
      as (_ & Hd & _ & Hins).
    split; [exact Hd | exact Hins].
  - exact (proj1 (proj2 event_log_bounded_newest_first) default_config
             (Scenario.events 1700000000) Scenario.fresh_runtime
             (Scenario.quiet_world 1700000000) H).
  - assert (0 <= STOP_TO_REVERSE_DELAY cfg) as Hs by (cbn; lra).
    assert (0 <= FORWARD_RESUME_DELAY cfg) as Hf by (cbn; lra).
    assert (Forall2 (fun ev p => exists l, labelled_detection (snd ev) p l)
              (Scenario.events t0)
              (Detector.detection_payload <$> Scenario.detections t0)) as Hall.
    { cbn [Scenario.events Scenario.detections fmap list_fmap].
      repeat (constructor 2;
              [eexists; apply detection_event_labelled; discriminate|]).
      constructor 1. }
    exact (proj2 (proj2 (proj2 (proj2 event_log_bounded_newest_first))) cfg
             (Scenario.events t0)
             (Detector.detection_payload <$> Scenario.detections t0)
             Scenario.fresh_runtime (Scenario.quiet_world t0) Hs Hf Hall H).
Defined.

Lemma safety_sequence_order_witness :
  let cfg := default_config in
  let rt := Scenario.fresh_runtime in
  let w := Scenario.quiet_world 1700000000 in
  (0 <= STOP_TO_REVERSE_DELAY cfg /\ 0 <= FORWARD_RESUME_DELAY cfg /\
   REVERSE_DURATION cfg <= clock w - _serial_cooldown rt) /\
  exists t_rev rt' w',
    _execute_safety_sequence cfg (JObj [("label", JStr "person")]%string) (rt, w)
    = (Ret tt, (rt', w')) /\
    _serial_cooldown rt' = t_rev /\
    t_rev == 1700000001 /\
    serial_cmds (trace w') = [STOP; REV 80 1.5; FWD 100].
Proof.
  intros cfg rt w.
  assert (0 <= STOP_TO_REVERSE_DELAY cfg) as H1 by (cbn; lra).
  assert (0 <= FORWARD_RESUME_DELAY cfg) as H2 by (cbn; lra).
  assert (REVERSE_DURATION cfg <= clock w - _serial_cooldown rt) as H3 by (cbn; lra).
  split; [repeat split; assumption|].
  destruct (safety_sequence_order cfg [("label", JStr "person")]%string rt w H1 H2 H3)
    as (t_rev & rt' & w' & Hrun & Hcd & _ & _ & _ & _ & Hcmds & Hrev & _).
  exists t_rev, rt', w'. split; [exact Hrun|]. split; [exact Hcd|].
  split; [|exact Hcmds].
  rewrite Hrev. cbn. lra.
Defined.

(** C2, counterexample.  With a negative [FORWARD_RESUME_DELAY] and resuming
    enabled, a call that passes the check sends STOP and REVERSE and stores the
    trigger time, but then [time.sleep] raises: FORWARD is never sent. *)
Lemma negative_resume_delay_omits_forward :
  let cfg := Scenario.config 0.5 (-1) true in
  let run :=
    _execute_safety_sequence cfg (JObj [("label", JStr "person")]%string)
      (Scenario.fresh_runtime, Scenario.quiet_world 1700000000) in
  RESUME_WITH_FORWARD cfg = true /\
  Qltb (1700000000 - _serial_cooldown Scenario.fresh_runtime) (REVERSE_DURATION cfg)
  = false /\
  fst run = Raise (ValueError "sleep length must be non-negative") /\
  serial_cmds (trace (snd (snd run))) = [STOP; REV 80 1.5] /\
  Qeq_bool (_serial_cooldown (fst (snd run))) 1700000000.5 = true.
Proof. vm_compute. repeat split. Qed.

Lemma cooldown_debounce_witness :
  let cfg := default_config in
  let rt := Scenario.fresh_runtime in
  let w := Scenario.quiet_world 1700000000 in
  (0 <= STOP_TO_REVERSE_DELAY cfg /\ 0 <= FORWARD_RESUME_DELAY cfg /\
   Forall (fun x => 0 <= snd x) (serial_script w) /\
   REVERSE_DURATION cfg <= clock w - _serial_cooldown rt) /\
  exists rt1 w1,
    _execute_safety_sequence cfg (JObj [("label", JStr "person")]%string) (rt, w)
    = (Ret tt, (rt1, w1)) /\
    sequences_started (trace w1) = S (sequences_started (trace w)) /\
    serial_cmds (trace w1) = [STOP; REV 80 1.5; FWD 100].
Proof.
  intros cfg rt w.
  assert (0 <= STOP_TO_REVERSE_DELAY cfg) as H1 by (cbn; lra).
  assert (0 <= FORWARD_RESUME_DELAY cfg) as H2 by (cbn; lra).
  assert (Forall (fun x => 0 <= snd x) (serial_script w)) as H3 by constructor.
  assert (REVERSE_DURATION cfg <= clock w - _serial_cooldown rt) as H4 by (cbn; lra).
  split; [repeat split; assumption|].
  destruct (cooldown_debounce cfg [("label", JStr "person")]%string rt w H1 H2 H3 H4)
    as (rt1 & w1 & Hrun & Hcount & Hcmds & _).
  exists rt1, w1. split; [exact Hrun|]. split; [exact Hcount | exact Hcmds].
Defined.

(** C1, counterexample.  With a negative [STOP_TO_REVERSE_DELAY] the
    cooldown is never armed: of two calls 0.2 s apart, well inside the window
    of 1.5 s, the second is not dropped.  Each of them sends STOP and then
    raises, and no sequence is completed. *)
Lemma negative_stop_delay_defeats_debounce :
  let cfg := Scenario.config (-1) 1 true in
  let payload := JObj [("label", JStr "person")]%string in
  let first :=
    _execute_safety_sequence cfg payload
      (Scenario.fresh_runtime, Scenario.quiet_world 1700000000) in
  let later := snd (advance 0.2 (snd first)) in
  let second := _execute_safety_sequence cfg payload later in
  fst first = Raise (ValueError "sleep length must be non-negative") /\
  serial_cmds (trace (snd (snd first))) = [STOP] /\
  Qltb (clock (snd later) - 1700000000) (REVERSE_DURATION cfg) = true /\
  fst second = Raise (ValueError "sleep length must be non-negative") /\
  serial_cmds (trace (snd (snd second))) = [STOP; STOP] /\
  sequences_started (trace (snd (snd second))) = 2%nat.
Proof. vm_compute. repeat split. Qed.

Lemma first_trigger_passes_witness :
  let cfg := default_config in
  let w := Scenario.quiet_world 1700000000 in
  let d := Scenario.seen "person" 1700000000 in
  (__init__ cfg w = (Ret Scenario.fresh_runtime, w) /\
   labelled_detection (Scenario.detection_event d) (Detector.detection_payload d)
     "person" /\
   "person"%string ∈ WATCH_CLASSES cfg /\
   0 <= STOP_TO_REVERSE_DELAY cfg /\ 0 <= FORWARD_RESUME_DELAY cfg /\
   REVERSE_DURATION cfg <= clock w) /\
  exists rt' w',
    _handle_event cfg (Scenario.detection_event d) (Scenario.fresh_runtime, w)
    = (Ret tt, (rt', w')) /\
    sequences_started (trace w') = S (sequences_started (trace w)).
Proof.
  intros cfg w d.
  assert (__init__ cfg w = (Ret Scenario.fresh_runtime, w)) as H1 by reflexivity.
  assert (labelled_detection (Scenario.detection_event d)
            (Detector.detection_payload d) "person") as H2
    by (apply (detection_event_labelled d); discriminate).
  assert ("person"%string ∈ WATCH_CLASSES cfg) as H3 by (cbn; set_solver).
  assert (0 <= STOP_TO_REVERSE_DELAY cfg) as H4 by (cbn; lra).
  assert (0 <= FORWARD_RESUME_DELAY cfg) as H5 by (cbn; lra).
  assert (REVERSE_DURATION cfg <= clock w) as H6 by (cbn; lra).
  split; [repeat split; assumption|].
  exact (proj2 (first_trigger_passes cfg w Scenario.fresh_runtime w
                  Scenario.fresh_runtime w _ _ _ H1 eq_refl H2 H3 H4 H5 H6)).
Defined.

End SequencerClaims.

(** ** The health wait: [_wait_for_yolo_health] *)

Section SupervisorFacts.
Import Orchestrator.
Variable cfg : detection_config.

Ltac run_health :=
  unfold health_iteration, process_poll, requests_get, time_time, time_sleep,
    advance, logger, emit, modify, raise, bind, get, ret;
  cbn -[Qltb Qplus Qminus Qmult Qle Qlt bool_decide].

Local Abbreviation pacing es := (filter (fun e => is_pacing e = true) es).

(** One pass through the loop. *)
Lemma health_iteration_spec url start timeout rt w :
  Forall (fun x => 0 <= snd x) (http_script w) ->
  exists r w' es,
    health_iteration url start timeout (rt, w) = (r, (rt, w')) /\
    trace w' = trace w ++ es /\
    Forall (fun x => 0 <= snd x) (http_script w') /\
    match r with
    | Ret Continue =>
        clock w - start < timeout /\ clock w + 1 <= clock w' /\
        exists resp, pacing es = [HttpGet url resp; Sleep 1]
    | Ret Return =>
        pacing es = [HttpGet url (Some 200%Z)] /\
        exists pre, es = pre ++ [HttpGet url (Some 200%Z);
                                 Log INFO "YOLO health endpoint reachable" []]
    | Ret Break =>
        timeout <= clock w - start /\ clock w' = clock w /\ es = [TimeRead (clock w)]
    | Raise e =>
        e = RuntimeError "YOLO server process terminated unexpectedly" /\
        pacing es = [] /\
        exists code pre,
          es = pre ++ [Poll (Some code);
                       Log ERROR "YOLO server exited early with code %s"
                         [JNum (inject_Z code)]]
    end.
Proof.
  intros Hlat. destruct w as [c ss ps hs tr], rt as [yp el ld cd].
  cbn [clock http_script trace] in *. run_health.
  destruct (Qltb (c - start) timeout) eqn:Hin; run_health.
  2:{ apply Qltb_ge in Hin. eexists _, _, [_].
      split; [reflexivity|]. split; [reflexivity|]. split; [exact Hlat|].
      repeat split. exact Hin. }
  apply Qltb_lt in Hin.
  replace (Qltb 1 0) with false by (symmetry; apply Qltb_ge; lra).
  destruct yp as [pid|]; [destruct ps as [|[code|] ps]|];
    destruct hs as [|[resp dt] hs]; run_health;
    try destruct (bool_decide (resp = Some 200%Z)) eqn:Hresp; run_health.
  all: try (apply bool_decide_eq_true in Hresp; subst resp).
  all: eexists _, _, _; (split; [reflexivity|]); split;
    [cbn [trace]; rewrite <- ?app_assoc; reflexivity|].
  all: split;
    [first [exact Hlat | now apply Forall_cons in Hlat as [_ Hlat] | constructor]|].
  all: try (apply Forall_cons in Hlat as [Hdt Hlat]; cbn in Hdt).
  all: cbn [clock]; repeat split; try lra; try reflexivity.
  all: try (eexists; reflexivity).
  all: try (eexists _, [_]; reflexivity).
  all: try (eexists [_; _]; reflexivity).
  all: try (eexists _, [_; _]; reflexivity).
  all: try (eexists [_]; reflexivity).
Qed.

Lemma inject_nat_succ (n : nat) :
  inject_Z (Z.of_nat (S n)) == inject_Z (Z.of_nat n) + 1.
Proof. rewrite Nat2Z.inj_succ, <- Z.add_1_r, inject_Z_plus. reflexivity. Qed.

Lemma pacing_app (es1 es2 : list effect) :
  pacing (es1 ++ es2) = pacing es1 ++ pacing es2.
Proof. apply filter_app. Qed.

(** The loop: every run with enough fuel ends in one of the three ways. *)
Lemma health_loop_spec url start timeout fuel : forall rt w,
  Forall (fun x => 0 <= snd x) (http_script w) ->
  (1 <= fuel)%nat ->
  timeout - (clock w - start) + 1 <= inject_Z (Z.of_nat fuel) ->
  exists r w' es,
    health_loop fuel url start timeout (rt, w) = (r, (rt, w')) /\
    trace w' = trace w ++ es /\
    wait_result url start timeout r es (clock w') /\
    polls_paced url (pacing es) = true.
Proof.
  induction fuel as [|fuel IH]; intros rt w Hlat Hfuel Hrem; [lia|].
  destruct (health_iteration_spec url start timeout rt w Hlat)
    as (r & w1 & es1 & Hit & Htr1 & Hlat1 & Hcase).
  cbn [health_loop]. unfold bind at 1. rewrite Hit.
  destruct r as [[| |]|e].
  - (* the body ran to its end: at least one second has passed *)
    destruct Hcase as (Hin & Hclock & resp & Hpace1).
    rewrite inject_nat_succ in Hrem.
    destruct (IH rt w1 Hlat1) as (r & w' & es & Hrun & Htr & Hres & Hpace).
    + destruct fuel; [change (inject_Z (Z.of_nat 0)) with 0 in Hrem; lra | lia].
    + lra.
    + exists r, w', (es1 ++ es). split; [exact Hrun|]. split; [|split].
      * rewrite Htr, Htr1. now rewrite app_assoc.
      * destruct Hres as [[-> [pre ->]] | [(code & pre & -> & ->) | (-> & Hto & pre & ->)]].
        -- left. split; [reflexivity|]. exists (es1 ++ pre). now rewrite app_assoc.
        -- right; left. exists code, (es1 ++ pre). split; [reflexivity|].
           now rewrite app_assoc.
        -- right; right. split; [reflexivity|]. split; [exact Hto|].
           exists (es1 ++ pre). now rewrite app_assoc.
      * rewrite pacing_app, Hpace1. cbn [app polls_paced].
        rewrite String.eqb_refl, Hpace. reflexivity.
  - (* the condition was false: timeout *)
    destruct Hcase as (Hto & Hclock & ->).
    eexists _, w1, _. split; [reflexivity|]. split; [exact Htr1|]. split.
    + right; right. split; [reflexivity|]. rewrite Hclock.
      split; [exact Hto|]. now exists [].
    + reflexivity.
  - (* the endpoint answered 200 *)
    destruct Hcase as (Hpace1 & pre & ->).
    eexists _, w1, _. split; [reflexivity|]. split; [exact Htr1|]. split.
    + left. split; [reflexivity|]. now exists pre.
    + rewrite Hpace1. cbn [polls_paced]. now rewrite String.eqb_refl.
  - (* the child has exited *)
    destruct Hcase as (-> & Hpace1 & code & pre & ->).
    eexists _, w1, _. split; [reflexivity|]. split; [exact Htr1|]. split.
    + right; left. now exists code, pre.
    + now rewrite Hpace1.
Qed.

(** One pass through the loop, by what it meets. *)
Lemma health_iteration_timeout url start timeout rt w :
  timeout <= clock w - start ->
  health_iteration url start timeout (rt, w)
  = (Ret Break, (rt, extend_trace w [TimeRead (clock w)])).
Proof.
  intros H. apply Qltb_ge in H. destruct w as [c ss ps hs tr], rt as [yp el ld cd].
  cbn [clock] in *. run_health. rewrite H. reflexivity.
Qed.

Lemma health_iteration_exited url start timeout rt w code :
  clock w - start < timeout ->
  exit_seen rt w 0 = Some code ->
  exists w1,
    health_iteration url start timeout (rt, w)
    = (Raise (RuntimeError "YOLO server process terminated unexpectedly"), (rt, w1)) /\
    last (trace w1)
    = Some (Log ERROR "YOLO server exited early with code %s" [JNum (inject_Z code)]).
Proof.
  intros H Hexit. apply Qltb_lt in H.
  destruct w as [c ss ps hs tr], rt as [yp el ld cd].
  unfold exit_seen in Hexit. cbn [clock yolo_process poll_script] in *.
  destruct yp as [pid|]; [|discriminate].
  destruct ps as [|[code'|] ps]; try discriminate. cbn in Hexit.
  injection Hexit as ->.
  run_health. rewrite H. run_health.
  eexists. split; [reflexivity|]. cbn [trace]. now rewrite last_snoc.
Qed.

Lemma health_iteration_healthy url start timeout rt w :
  clock w - start < timeout ->
  exit_seen rt w 0 = None ->
  fst (answer w 0) = Some 200%Z ->
  exists w1,
    health_iteration url start timeout (rt, w) = (Ret Return, (rt, w1)) /\
    last (trace w1) = Some (Log INFO "YOLO health endpoint reachable" []).
Proof.
  intros H Hexit Hok. apply Qltb_lt in H.
  destruct w as [c ss ps hs tr], rt as [yp el ld cd].
  unfold exit_seen in Hexit. unfold answer in Hok.
  cbn [clock yolo_process poll_script http_script] in *.
  destruct hs as [|[resp dt] hs]; [discriminate|]. cbn in Hok. subst resp.
  destruct yp as [pid|]; [destruct ps as [|[code'|] ps]; try discriminate|];
    run_health; rewrite H; run_health;
    (eexists; split; [reflexivity|]; cbn [trace]; now rewrite last_snoc).
Qed.

Lemma health_iteration_undecided url start timeout rt w :
  clock w - start < timeout ->
  exit_seen rt w 0 = None ->
  fst (answer w 0) <> Some 200%Z ->
  exists w1,
    health_iteration url start timeout (rt, w) = (Ret Continue, (rt, w1)) /\
    clock w1 == clock w + snd (answer w 0) + 1 /\
    (forall j, exit_seen rt w1 j = exit_seen rt w (S j)) /\
    (forall j, answer w1 j = answer w (S j)).
Proof.
  intros H Hexit Hno. apply Qltb_lt in H.
  assert (Qltb 1 0 = false) as H1 by (apply Qltb_ge; lra).
  destruct w as [c ss ps hs tr], rt as [yp el ld cd].
  unfold exit_seen in *. unfold answer in *.
  cbn [clock yolo_process poll_script http_script] in *.
  destruct hs as [|[resp dt] hs]; cbn in Hno;
    (destruct yp as [pid|]; [destruct ps as [|[code'|] ps]; try discriminate|]);
    run_health; rewrite H; run_health;
    try (rewrite bool_decide_eq_false_2 by exact Hno); run_health;
    rewrite H1; run_health;
    (eexists; split; [reflexivity|]; cbn [clock poll_script http_script];
     split; [cbn; lra|]; split; intros j; try reflexivity; now destruct j).
Qed.

Lemma elapsed_shift w w1 :
  (forall j, answer w1 j = answer w (S j)) ->
  forall j, elapsed w (S j) == snd (answer w 0) + 1 + elapsed w1 j.
Proof.
  intros Hans. induction j as [|j IH].
  - cbn. lra.
  - change (elapsed w (S (S j))) with (elapsed w (S j) + snd (answer w (S j)) + 1).
    rewrite IH, <- Hans. cbn [elapsed]. lra.
Qed.

Lemma health_loop_step fuel url start timeout (s : state) :
  health_loop (S fuel) url start timeout s =
  match health_iteration url start timeout s with
  | (Ret Continue, s1) => health_loop fuel url start timeout s1
  | (Ret Break, s1) =>
      (Raise (TimeoutError
                ("Timed out waiting for YOLO health endpoint at " +:+ url)), s1)
  | (Ret Return, s1) => (Ret (Some tt), s1)
  | (Raise e, s1) => (Raise e, s1)
  end.
Proof.
  cbn [health_loop]. unfold bind.
  destruct (health_iteration url start timeout s) as [[[| |]|e] s1]; reflexivity.
Qed.

(** The loop is decided by the first round that is not undecided: when
    rounds [0 .. k-1] neither saw an exit nor a 200 answer before the timeout,
    round [k] ends the wait with a timeout when the time is up, otherwise with
    the error when the child has exited, otherwise with success when the
    endpoint answers 200. *)
Lemma health_loop_decides url start timeout k : forall fuel rt w,
  (k < fuel)%nat ->
  (forall j, (j < k)%nat ->
     clock w - start + elapsed w j < timeout /\ exit_seen rt w j = None /\
     fst (answer w j) <> Some 200%Z) ->
  let run := health_loop fuel url start timeout (rt, w) in
  (timeout <= clock w - start + elapsed w k ->
   fst run = Raise (TimeoutError
                      ("Timed out waiting for YOLO health endpoint at " +:+ url))) /\
  (clock w - start + elapsed w k < timeout ->
   forall code, exit_seen rt w k = Some code ->
   fst run = Raise (RuntimeError "YOLO server process terminated unexpectedly") /\
   last (trace (snd (snd run)))
   = Some (Log ERROR "YOLO server exited early with code %s" [JNum (inject_Z code)])) /\
  (clock w - start + elapsed w k < timeout ->
   exit_seen rt w k = None ->
   fst (answer w k) = Some 200%Z ->
   fst run = Ret (Some tt) /\
   last (trace (snd (snd run)))
   = Some (Log INFO "YOLO health endpoint reachable" [])).
Proof.
  induction k as [|k IH]; intros fuel rt w Hfuel Hund run; subst run;
    (destruct fuel as [|fuel]; [lia|]); rewrite !health_loop_step.
  - cbn [elapsed]. split; [|split].
    + intros H. rewrite health_iteration_timeout by lra. reflexivity.
    + intros H code Hexit.
      destruct (health_iteration_exited url start timeout rt w code)
        as (w1 & -> & Hlast); [lra | exact Hexit |]. split; [reflexivity | exact Hlast].
    + intros H Hexit Hok.
      destruct (health_iteration_healthy url start timeout rt w)
        as (w1 & -> & Hlast); [lra | exact Hexit | exact Hok |].
      split; [reflexivity | exact Hlast].
  - destruct (Hund 0%nat) as (H0 & Hexit0 & Hans0); [lia|]. cbn [elapsed] in H0.
    destruct (health_iteration_undecided url start timeout rt w)
      as (w1 & -> & Hclock & Hpoll & Hans); [lra | exact Hexit0 | exact Hans0 |].
    pose proof (elapsed_shift w w1 Hans) as Hshift.
    destruct (IH fuel rt w1) as (Hto & Hex & Hok); [lia| |].
    { intros j Hj. destruct (Hund (S j)) as (Hj1 & Hj2 & Hj3); [lia|].
      rewrite Hpoll, Hans. split; [|split; assumption].
      rewrite Hshift in Hj1. lra. }
    rewrite <- Hpoll, <- Hans.
    split; [|split].
    + intros H. apply Hto. rewrite Hshift in H. lra.
    + intros H. apply Hex. rewrite Hshift in H. lra.
    + intros H. apply Hok. rewrite Hshift in H. lra.
Qed.

Lemma elapsed_ext w w0 :
  http_script w0 = http_script w -> forall i, elapsed w0 i = elapsed w i.
Proof.
  intros H. induction i as [|i IH]; [reflexivity|].
  cbn [elapsed]. unfold answer. now rewrite H, IH.
Qed.

(** Every request takes some time, so round [i] begins at least [i] seconds
    after the start. *)
Lemma elapsed_lower_bound w :
  Forall (fun x => 0 <= snd x) (http_script w) ->
  forall i, inject_Z (Z.of_nat i) <= elapsed w i.
Proof.
  intros Hlat. induction i as [|i IH]; [apply Qle_refl|].
  rewrite inject_nat_succ. cbn [elapsed].
  assert (0 <= snd (answer w i)) as Hi.
  { unfold answer. destruct (nth_in_or_default i (http_script w) (None, 0)) as [Hin | ->].
    - rewrite List.Forall_forall in Hlat. apply Hlat, Hin.
    - cbn. lra. }
  lra.
Qed.

(** C7 (as amended).  With enough fuel for [timeout] seconds of polling, the
    health wait always ends, in exactly one of three ways: it returns after the
    endpoint answered 200; it raises a [RuntimeError] with a fixed message right
    after logging an error that carries the child's exit code; or it raises a
    [TimeoutError] whose message ends with the polled URL, at a time when at
    least [timeout] seconds have passed since the start.  Health requests all
    go to that URL and are separated by sleeps of one second.  Which of the
    three it is, is decided by the first round [k] that is not undecided: the
    timeout when [timeout] seconds have passed at its beginning; otherwise the
    error when the child is seen to have exited, with that exit code as the
    last thing logged; otherwise success when the endpoint answers 200. *)
Theorem health_wait_three_outcomes (timeout : Q) (fuel : nat) rt w :
  Forall (fun x => 0 <= snd x) (http_script w) ->
  (Z.to_nat (Qceiling timeout) + 1 <= fuel)%nat ->
  exists r w' es,
    _wait_for_yolo_health cfg fuel timeout (rt, w) = (r, (rt, w')) /\
    trace w' = trace w ++ TimeRead (clock w) :: es /\
    wait_result (health_url cfg) (clock w) timeout r es (clock w') /\
    polls_paced (health_url cfg) (pacing es) = true /\
    (forall k,
        (forall j, (j < k)%nat -> undecided rt w timeout j) ->
        (timeout <= elapsed w k ->
         r = Raise (TimeoutError
                      ("Timed out waiting for YOLO health endpoint at "
                       +:+ health_url cfg))) /\
        (elapsed w k < timeout ->
         forall code, exit_seen rt w k = Some code ->
         r = Raise (RuntimeError "YOLO server process terminated unexpectedly") /\
         last (trace w')
         = Some (Log ERROR "YOLO server exited early with code %s"
                   [JNum (inject_Z code)])) /\
        (elapsed w k < timeout ->
         exit_seen rt w k = None ->
         fst (answer w k) = Some 200%Z ->
         r = Ret (Some tt) /\
         last (trace w') = Some (Log INFO "YOLO health endpoint reachable" []))).
Proof.
  intros Hlat Hfuel.
  pose proof (elapsed_lower_bound w Hlat) as Hlow.
  destruct w as [c ss ps hs tr].
  unfold _wait_for_yolo_health, time_time, emit, modify, bind, get, ret.
  cbn -[health_loop Qle].
  set (w0 := {| clock := c; serial_script := ss; poll_script := ps;
                http_script := hs; trace := tr ++ [TimeRead c] |}).
  destruct (health_loop_spec (health_url cfg) c timeout fuel rt w0)
    as (r & w' & es & Hrun & Htr & Hres & Hpace); cbn [clock http_script trace] in *.
  - exact Hlat.
  - lia.
  - pose proof (Qle_ceiling timeout) as Hceil.
    assert (Qceiling timeout + 1 <= Z.of_nat fuel)%Z as Hz by lia.
    rewrite Zle_Qle, inject_Z_plus in Hz. change (inject_Z 1) with 1 in Hz.
    subst w0. cbn [clock]. lra.
  - exists r, w', es. split; [exact Hrun|]. split; [|split; [|split]]; try assumption.
    { rewrite Htr. subst w0. cbn [trace]. rewrite <- app_assoc. reflexivity. }
    intros k Hund.
    set (w1 := {| clock := c; serial_script := ss; poll_script := ps;
                  http_script := hs; trace := tr |}) in *.
    assert (forall i, elapsed w0 i = elapsed w1 i) as Hsame
      by (apply elapsed_ext; reflexivity).
    assert (k < fuel)%nat as Hk.
    { destruct k as [|k]; [lia|].
      destruct (Hund k) as (Hin & _); [lia|].
      pose proof (Hlow k) as Hk.
      pose proof (Qle_ceiling timeout) as Hceil.
      assert (inject_Z (Z.of_nat k) < inject_Z (Qceiling timeout)) as Hlt by lra.
      rewrite <- Zlt_Qlt in Hlt. lia. }
    destruct (health_loop_decides (health_url cfg) c timeout k fuel rt w0 Hk)
      as (Hto & Hex & Hok).
    { intros j Hj. destruct (Hund j Hj) as (H1 & H2 & H3).
      split; [|split; assumption].
      rewrite Hsame. subst w0. cbn [clock]. lra. }
    rewrite Hrun, Hsame in Hto, Hex, Hok.
    subst w0. cbn [fst snd clock] in Hto, Hex, Hok.
    split; [|split].
    + intros H. apply Hto. lra.
    + intros H. apply Hex. lra.
    + intros H. apply Hok. lra.
Qed.

End SupervisorFacts.

(** ** Closed instances for the health wait *)

Section SupervisorClaims.
Import Orchestrator.

Lemma health_wait_three_outcomes_witness :
  let w := Scenario.child_comes_up 1700000000 in
  (Forall (fun x => 0 <= snd x) (http_script w) /\
   (Z.to_nat (Qceiling 45) + 1 <= 46)%nat) /\
  exists w' es,
    _wait_for_yolo_health default_config 46 45 (Scenario.supervising_runtime, w)
    = (Ret (Some tt), (Scenario.supervising_runtime, w')) /\
    trace w' = trace w ++ TimeRead (clock w) :: es /\
    wait_result (health_url default_config) (clock w) 45 (Ret (Some tt)) es (clock w') /\
    last (trace w') = Some (Log INFO "YOLO health endpoint reachable" []).
Proof.
  intros w.
  assert (Forall (fun x => 0 <= snd x) (http_script w)) as H1
    by (repeat constructor; cbn; lra).
  assert (Z.to_nat (Qceiling 45) + 1 <= 46)%nat as H2 by (vm_compute; lia).
  split; [split; assumption|].
  destruct (health_wait_three_outcomes default_config 45 46
              Scenario.supervising_runtime w H1 H2)
    as (r & w' & es & Hrun & Htr & Hres & _ & Hdec).
  destruct (Hdec 2%nat) as (_ & _ & Hok).
  { intros j Hj. destruct j as [|[|j]]; [| |lia];
      (split; [cbn; lra | split; [reflexivity | discriminate]]). }
  destruct Hok as [-> Hlast]; [cbn; lra | reflexivity | reflexivity |].
  exists w', es. split; [exact Hrun|]. split; [exact Htr|].
  split; [exact Hres | exact Hlast].
Defined.

(** C7, counterexample.  When the child is seen to have exited, the raised
    error is the same whatever the exit code (3 or 7 here): the code is in the
    error log only, not in the error. *)
Lemma health_wait_error_omits_exit_code :
  let run code :=
    _wait_for_yolo_health default_config 46 45
      (Scenario.supervising_runtime, Scenario.child_exits 1700000000 code) in
  fst (run 3%Z) = Raise (RuntimeError "YOLO server process terminated unexpectedly") /\
  fst (run 7%Z) = fst (run 3%Z) /\
  last (trace (snd (snd (run 3%Z))))
  = Some (Log ERROR "YOLO server exited early with code %s" [JNum 3]) /\
  last (trace (snd (snd (run 7%Z))))
  = Some (Log ERROR "YOLO server exited early with code %s" [JNum 7]).
Proof. vm_compute. repeat split. Qed.

End SupervisorClaims.

(** ** The event client: backoff of [_run] *)

Section BackoffFacts.
Import EventsClient.
Variable cfg : detection_config.
Variable url : string.
Variable json_loads : string -> option json.
Variable on_event : json -> M world unit.

(** The callback returns normally and adds no sleep to the client's trace:
    what the callback does belongs to its owner, the sequencer. *)
Hypothesis on_event_quiet : forall payload w,
  exists w', on_event payload w = (Ret tt, w') /\ sleeps (trace w') = sleeps (trace w).

Local Abbreviation B := (SSE_BACKOFF_SEC cfg).

Lemma sleeps_app tr1 tr2 : sleeps (tr1 ++ tr2) = sleeps tr1 ++ sleeps tr2.
Proof. apply omap_app. Qed.

Lemma dispatch_quiet raw w :
  exists w', _dispatch json_loads on_event raw w = (Ret tt, w') /\
             sleeps (trace w') = sleeps (trace w).
Proof.
  unfold _dispatch.
  destruct (omap _ raw) as [|d ds]; [now exists w|].
  destruct (json_loads _) as [payload|]; [apply on_event_quiet|].
  eexists. split; [reflexivity|]. cbn. rewrite sleeps_app. cbn. apply app_nil_r.
Qed.

Lemma read_lines_quiet lines : forall event_lines w,
  exists w', read_lines json_loads on_event lines event_lines w = (Ret tt, w') /\
             sleeps (trace w') = sleeps (trace w).
Proof.
  induction lines as [|line lines IH]; intros acc w; [now exists w|].
  cbn [read_lines]. destruct (String.eqb line ""); [|apply IH].
  destruct acc as [|a acc]; [apply IH|].
  destruct (dispatch_quiet (a :: acc) w) as (w1 & Hd & Hs1).
  destruct (IH [] w1) as (w2 & Hr & Hs2).
  exists w2. unfold bind. rewrite Hd, Hr. split; [reflexivity | congruence].
Qed.

Lemma pow2_succ k : pow2 (S k) == 2 * pow2 k.
Proof.
  unfold pow2. rewrite Nat2Z.inj_succ, Z.pow_succ_r by lia.
  rewrite inject_Z_mult. reflexivity.
Qed.

Lemma pow2_0 : pow2 0 == 1.
Proof. reflexivity. Qed.

Lemma py_min_Qmin a b : py_min a b == Qmin a b.
Proof.
  unfold py_min. destruct (Qltb b a) eqn:E.
  - apply Qltb_lt in E. destruct (Q.min_spec a b) as [[? ->]|[? ->]]; lra.
  - apply Qltb_ge in E. destruct (Q.min_spec a b) as [[? ->]|[? ->]]; lra.
Qed.

Lemma next_backoff k b :
  b == nth_backoff B 30 k ->
  py_min (b * 2) 30 == nth_backoff B 30 (S k).
Proof.
  intros Hb. rewrite py_min_Qmin. cbn [nth_backoff].
  pose proof (pow2_succ k) as Hp.
  destruct k as [|k]; cbn [nth_backoff] in Hb.
  - change (pow2 0) with 1 in Hp.
    destruct (Q.min_spec (b * 2) 30) as [[? ->]|[? ->]];
      destruct (Q.min_spec (pow2 1 * B) 30) as [[? ->]|[? ->]]; nra.
  - destruct (Q.min_spec (pow2 (S k) * B) 30) as [[? Hm]|[? Hm]];
      destruct (Q.min_spec (b * 2) 30) as [[? ->]|[? ->]];
      destruct (Q.min_spec (pow2 (S (S k)) * B) 30) as [[? ->]|[? ->]];
      rewrite Hm in Hb; nra.
Qed.

(** The loop, started at the [k]-th consecutive failure with the backoff
    that the schedule gives for it. *)
Lemma run_from_schedule attempts : forall k b w,
  0 <= B ->
  b == nth_backoff B 30 k ->
  exists w' ds,
    run_from cfg url json_loads on_event attempts b w = (Ret tt, w') /\
    sleeps (trace w') = sleeps (trace w) ++ ds /\
    Forall2 Qeq ds (schedule B 30 k attempts).
Proof.
  induction attempts as [|a attempts IH]; intros k b w HB0 Hb.
  { exists w, []. cbn. rewrite app_nil_r. repeat split. constructor. }
  assert (0 <= b) as Hb0.
  { destruct k as [|k]; cbn [nth_backoff] in Hb; [lra|].
    assert (0 <= pow2 (S k)) as Hp.
    { unfold pow2. rewrite <- (Zle_Qle 0). apply Z.pow_nonneg. lia. }
    destruct (Q.min_spec (pow2 (S k) * B) 30) as [[? Hm]|[? Hm]]; rewrite Hm in Hb; nra. }
  assert (forall w0, sleeps (trace w0) = sleeps (trace w) ->
    exists w' ds,
      (emit (Log WARNING "SSE connection error: %s");;
       time_sleep b;;
       run_from cfg url json_loads on_event attempts (py_min (b * 2) 30))%py w0
      = (Ret tt, w') /\
      sleeps (trace w') = sleeps (trace w) ++ ds /\
      Forall2 Qeq ds (nth_backoff B 30 k :: schedule B 30 (S k) attempts)) as Hfail.
  { intros w0 Hw0.
    unfold time_sleep. replace (Qltb b 0) with false by (symmetry; now apply Qltb_ge).
    unfold emit, modify, bind. cbn [trace clock].
    match goal with
    | |- context [run_from _ _ _ _ _ _ ?w1] =>
        destruct (IH (S k) (py_min (b * 2) 30) w1 HB0 (next_backoff k b Hb))
          as (w' & ds & Hrun & Hs & Hds)
    end.
    exists w', (b :: ds). split; [exact Hrun|]. split.
    - rewrite Hs. cbn [trace]. rewrite !sleeps_app, Hw0. cbn.
      rewrite app_nil_r, <- app_assoc. reflexivity.
    - constructor; assumption. }
  cbn [run_from]. unfold bind at 1. unfold emit at 1, modify.
  unfold bind at 1. unfold emit at 1, modify.
  destruct a as [|lines broken].
  - cbn [schedule]. apply Hfail. cbn. rewrite !sleeps_app. cbn. now rewrite !app_nil_r.
  - unfold bind at 1.
    match goal with
    | |- context [read_lines _ _ _ _ ?w1] =>
        destruct (read_lines_quiet lines [] w1) as (w2 & Hr & Hs2)
    end.
    rewrite Hr.
    assert (sleeps (trace w2) = sleeps (trace w)) as Hw2.
    { rewrite Hs2. cbn. rewrite !sleeps_app. cbn. now rewrite !app_nil_r. }
    destruct broken.
    + cbn [schedule]. now apply Hfail.
    + cbn [schedule].
      destruct (IH 0%nat B w2 HB0) as (w' & ds & Hrun & Hs & Hds); [reflexivity|].
      exists w', ds. split; [exact Hrun|]. split; [|exact Hds].
      now rewrite Hs, Hw2.
Qed.

(** C3 (as amended).  With a base backoff [B = SSE_BACKOFF_SEC] that is not
    negative, and the fixed cap 30: whatever the connection attempts, the client
    sleeps after each failed one, for [B], [min(2B, 30)], [min(4B, 30)], ...
    along a run of consecutive failures (for [B <= 30] these are [min(B, 30)],
    [min(2B, 30)], ...), and the next failure after a stream that ended without
    error is followed by a sleep of [B] again. *)
Theorem backoff_doubles_capped_resets attempts w :
  0 <= B ->
  exists w' ds,
    _run cfg url json_loads on_event attempts w = (Ret tt, w') /\
    sleeps (trace w') = sleeps (trace w) ++ ds /\
    Forall2 Qeq ds (schedule B 30 0 attempts) /\
    (B <= 30 -> forall k, nth_backoff B 30 k == Qmin (pow2 k * B) 30).
Proof.
  intros HB0. unfold _run.
  destruct (run_from_schedule attempts 0%nat B w HB0) as (w' & ds & Hrun & Hs & Hds);
    [reflexivity|].
  exists w', ds. repeat split; try assumption.
  intros HB30 [|k]; cbn [nth_backoff]; [|reflexivity].
  change (pow2 0) with 1. destruct (Q.min_spec (1 * B) 30) as [[? ->]|[? ->]]; lra.
Qed.

End BackoffFacts.

(** ** Closed instances for the backoff *)

Section BackoffClaims.
Import EventsClient.

Lemma backoff_doubles_capped_resets_witness :
  let attempts := [ConnectFailed; ConnectFailed; Streamed [":ping"; ""]%string false;
                   ConnectFailed] in
  ((forall payload w, exists w',
       (fun _ : json => ret tt) payload w = (Ret tt, w') /\
       sleeps (trace w') = sleeps (trace w)) /\
   0 <= SSE_BACKOFF_SEC default_config) /\
  exists w' ds,
    _run default_config "http://127.0.0.1:8001/events" (fun _ => None)
      (fun _ => ret tt) attempts idle_start = (Ret tt, w') /\
    sleeps (trace w') = sleeps (trace idle_start) ++ ds /\
    Forall2 Qeq ds [2.0; Qmin (2 * 2.0) 30; 2.0].
Proof.
  intros attempts.
  assert (forall (payload : json) (w : world), exists w',
             (fun _ : json => ret tt) payload w = (Ret tt, w') /\
             sleeps (trace w') = sleeps (trace w)) as H0
    by (intros payload w; exists w; split; reflexivity).
  assert (0 <= SSE_BACKOFF_SEC default_config) as H1 by (cbn; lra).
  split; [split; assumption|].
  destruct (backoff_doubles_capped_resets default_config "http://127.0.0.1:8001/events"
              (fun _ => None) (fun _ => ret tt) H0 attempts idle_start H1)
    as (w' & ds & Hrun & Hs & Hds & _).
  exists w', ds. split; [exact Hrun|]. split; [exact Hs | exact Hds].
Defined.

(** C3, counterexample.  With [SSE_BACKOFF_SEC=40] three failures in a row
    are followed by sleeps of 40, 30 and 30 seconds: the first sleep is not
    capped, and no cap [C] makes these [min(B, C)], [min(2B, C)], [min(4B, C)].
    And with base 2, a connection that succeeds after one failure and whose
    stream then breaks is followed by a sleep of 4, and the next failure by 8:
    the backoff was not reset by the successful connection. *)
Lemma backoff_first_sleep_uncapped_no_reset_on_connect :
  let failures := [ConnectFailed; ConnectFailed; ConnectFailed] in
  let flaky := [ConnectFailed; Streamed [] true; ConnectFailed] in
  sleeps (trace (snd (run_idle 40 failures))) = [40; 30; 30] /\
  (forall C, ~ Forall2 Qeq (sleeps (trace (snd (run_idle 40 failures))))
                 (claimed_schedule 40 C 0 failures)) /\
  sleeps (trace (snd (run_idle 2 flaky))) = [2; 4; 8] /\
  ~ Forall2 Qeq (sleeps (trace (snd (run_idle 2 flaky))))
      (claimed_schedule 2 30 0 flaky).
Proof.
  intros failures flaky.
  assert (sleeps (trace (snd (run_idle 40 failures))) = [40; 30; 30]) as H1
    by (vm_compute; reflexivity).
  assert (sleeps (trace (snd (run_idle 2 flaky))) = [2; 4; 8]) as H2
    by (vm_compute; reflexivity).
  rewrite H1, H2. repeat split.
  - intros C HC. cbn [failures claimed_schedule] in HC.
    apply Forall2_cons in HC as [Ha HC]. apply Forall2_cons in HC as [Hb _].
    change (pow2 0) with 1 in Ha. change (pow2 1) with 2 in Hb.
    destruct (Q.min_spec (1 * 40) C) as [[? Hm]|[? Hm]]; rewrite Hm in Ha;
      destruct (Q.min_spec (2 * 40) C) as [[? Hn]|[? Hn]]; rewrite Hn in Hb; lra.
  - intros HC. cbn [flaky claimed_schedule] in HC.
    apply Forall2_cons in HC as [_ HC]. apply Forall2_cons in HC as [Hb _].
    destruct (Q.min_spec 2 30) as [[? Hm]|[? Hm]]; rewrite Hm in Hb; lra.
Qed.

End BackoffClaims.

(** ** The broadcast hub: [DetectionState] *)

Section HubFacts.
Import Detector.

Ltac run_hub :=
  unfold hub_step, _event_publisher, _event_publisher_step, register_queue, new_queue,
    unregister_queue, set_event_queues, set_event_loop, loop_step, emit, modify,
    raise, bind, get, ret;
  cbn -[bool_decide lookup insert].

Lemma received_app q tr1 tr2 :
  received q (tr1 ++ tr2) = received q tr1 ++ received q tr2.
Proof. apply omap_app. Qed.

Lemma received_put q q0 p0 :
  received q [Put q0 p0] = if Nat.eqb q0 q then [p0] else [].
Proof. unfold received. cbn. now destruct (Nat.eqb q0 q). Qed.

Lemma addressed_cons q q0 p0 (rd : list (nat * json)) :
  omap (addressed_to q) ((q0, p0) :: rd)
  = (if Nat.eqb q0 q then [p0] else []) ++ omap (addressed_to q) rd.
Proof. cbn. unfold addressed_to at 1. cbn. now destruct (Nat.eqb q0 q). Qed.

Lemma list_remove_subset x l y : y ∈ list_remove x l -> y ∈ l.
Proof.
  induction l as [|z l IH]; cbn; [easy|].
  destruct (Nat.eqb x z); rewrite ?elem_of_cons; intuition.
Qed.

Lemma list_remove_NoDup x l : NoDup l -> NoDup (list_remove x l).
Proof.
  induction 1 as [|z l Hz Hl IH]; cbn; [constructor|].
  destruct (Nat.eqb x z); [exact Hl|].
  constructor; [|exact IH]. intros Hin. apply Hz. eapply list_remove_subset, Hin.
Qed.

Lemma list_remove_Forall (P : nat -> Prop) x l : Forall P l -> Forall P (list_remove x l).
Proof.
  induction 1 as [|z l Hz Hl IH]; cbn; [constructor|].
  destruct (Nat.eqb x z); [exact Hl | now constructor].
Qed.

(** What [broadcast] schedules. *)
Lemma broadcast_to_attached snapshot p st w :
  loop st <> None ->
  broadcast_to snapshot p (st, w)
  = (Ret tt,
     (st, {| clock := clock w; camera_script := camera_script w;
             next_queue := next_queue w; queues := queues w;
             ready := ready w ++ ((fun q => (q, p)) <$> snapshot);
             trace := trace w |})).
Proof.
  intros Hloop. revert w.
  induction snapshot as [|q0 snapshot IH]; intros w.
  - cbn. rewrite app_nil_r. now destruct w.
  - cbn [broadcast_to]. unfold bind, get.
    destruct (loop st) eqn:E; [|contradiction].
    unfold run_coroutine_threadsafe, modify. rewrite IH. cbn.
    now rewrite <- app_assoc.
Qed.

Lemma broadcast_to_detached snapshot p st w :
  loop st = None -> broadcast_to snapshot p (st, w) = (Ret tt, (st, w)).
Proof.
  intros Hloop. induction snapshot as [|q0 snapshot IH]; [reflexivity|].
  cbn [broadcast_to]. unfold bind, get. now rewrite Hloop.
Qed.

Lemma scheduled_for q p snapshot :
  NoDup snapshot ->
  omap (addressed_to q) ((fun q' => (q', p)) <$> snapshot)
  = if bool_decide (q ∈ snapshot) then [p] else [].
Proof.
  induction 1 as [|q0 l Hq0 Hl IH]; [reflexivity|].
  rewrite fmap_cons, addressed_cons, IH.
  destruct (Nat.eqb q0 q) eqn:E.
  - apply Nat.eqb_eq in E. subst q0.
    rewrite (bool_decide_eq_false_2 (q ∈ l)) by exact Hq0.
    rewrite bool_decide_eq_true_2 by (left). reflexivity.
  - apply Nat.eqb_neq in E.
    destruct (bool_decide (q ∈ l)) eqn:El.
    + apply bool_decide_eq_true in El.
      rewrite bool_decide_eq_true_2 by (now right). reflexivity.
    + apply bool_decide_eq_false in El.
      rewrite bool_decide_eq_false_2; [reflexivity|].
      rewrite elem_of_cons. intros [->|?]; contradiction.
Qed.

(** One operation on a hub in service: it completes; the hub stays in
    service; and what the queue has received or is about to receive grows by
    exactly the payload published to it. *)
Lemma hub_step_spec q o s :
  in_service s ->
  exists s',
    hub_step o s = (Ret tt, s') /\
    in_service s' /\
    (next_queue (snd s) <= next_queue (snd s'))%nat /\
    received q (trace (snd s')) ++ pending_for q s'
    = (received q (trace (snd s)) ++ pending_for q s)
      ++ published_to q [o] s.
Proof.
  destruct s as [[ld lf eq se lp] [c cs nq qs rd tr]].
  intros (Hloop & Hnd & Hlt). cbn [fst snd loop event_queues next_queue] in *.
  unfold published_to, pending_for. cbn [fst snd event_queues ready trace].
  destruct o as [l| |x|p| |x].
  - (* set_event_loop *)
    eexists. split; [reflexivity|]. cbn. rewrite !app_nil_r.
    repeat split; try assumption; try lia. discriminate.
  - (* register_queue *)
    eexists. split; [reflexivity|]. cbn. rewrite !app_nil_r.
    repeat split; try assumption; try lia.
    + apply NoDup_app. repeat split; [assumption| |apply NoDup_singleton].
      intros y Hy Hy'. apply list_elem_of_singleton in Hy'. subst y.
      rewrite Forall_forall in Hlt. specialize (Hlt _ Hy). lia.
    + apply Forall_app. split.
      * eapply Forall_impl; [exact Hlt|]. cbn. intros; lia.
      * repeat constructor.
  - (* unregister_queue *)
    run_hub. destruct (bool_decide (x ∈ eq)); cbn; rewrite !app_nil_r;
      eexists; (split; [reflexivity|]); cbn;
      repeat split; try assumption; try lia.
    + now apply list_remove_NoDup.
    + now apply list_remove_Forall.
  - (* broadcast *)
    unfold hub_step, broadcast, bind, get. cbn [fst snd].
    rewrite broadcast_to_attached by exact Hloop.
    eexists. split; [reflexivity|]. cbn [fst snd loop event_queues next_queue ready trace].
    repeat split; try assumption; try lia.
    rewrite omap_app, scheduled_for by exact Hnd.
    rewrite app_nil_r. now rewrite app_assoc.
  - (* a turn of the event loop *)
    run_hub. destruct rd as [|[q0 p0] rd].
    + eexists. split; [reflexivity|]. cbn. rewrite !app_nil_r.
      repeat split; try assumption; lia.
    + eexists. split; [reflexivity|].
      cbn [fst snd loop event_queues next_queue ready trace].
      repeat split; try assumption; try lia.
      rewrite received_app, app_nil_r.
      rewrite received_put, addressed_cons. now rewrite <- app_assoc.
  - (* a turn of a subscriber's generator *)
    run_hub.
    destruct (default [] (qs !! x)) as [|payload rest]; cbn -[lookup insert bool_decide].
    + eexists. split; [reflexivity|]. cbn. rewrite !app_nil_r.
      repeat split; try assumption; lia.
    + destruct payload; cbn -[lookup insert bool_decide];
        try destruct (bool_decide (x ∈ eq)); cbn -[lookup insert bool_decide].
      all: eexists; (split; [reflexivity|]).
      all: unfold in_service; cbn [fst snd loop event_queues next_queue ready trace].
      all: rewrite ?received_app; cbn [received omap app]; rewrite ?app_nil_r.
      all: repeat split; try assumption; try lia.
      all: first [now apply list_remove_NoDup | now apply list_remove_Forall].
Qed.


Lemma hub_run_spec q ops : forall s,
  in_service s ->
  exists s',
    hub_run ops s = (Ret tt, s') /\
    in_service s' /\
    (next_queue (snd s) <= next_queue (snd s'))%nat /\
    received q (trace (snd s')) ++ pending_for q s'
    = (received q (trace (snd s)) ++ pending_for q s) ++ published_to q ops s.
Proof.
  induction ops as [|o ops IH]; intros s Hs.
  - exists s. split; [reflexivity|]. split; [exact Hs|]. split; [lia|].
    cbn [published_to]. now rewrite app_nil_r.
  - destruct (hub_step_spec q o s Hs) as (s1 & Hstep & Hs1 & Hnq1 & Hdel1).
    destruct (IH s1 Hs1) as (s2 & Hrun & Hs2 & Hnq2 & Hdel2).
    exists s2. cbn [hub_run]. unfold bind at 1. rewrite Hstep.
    split; [exact Hrun|]. split; [exact Hs2|]. split; [lia|].
    rewrite Hdel2, Hdel1. cbn [published_to]. rewrite Hstep. cbn [snd].
    now rewrite !app_nil_r, <- !app_assoc.
Qed.

Lemma loop_step_idle st w : ready w = [] -> loop_step (st, w) = (Ret tt, (st, w)).
Proof.
  intros H. unfold loop_step, bind, get, ret. now rewrite H.
Qed.

Lemma loop_step_put st w q0 p0 rd :
  ready w = (q0, p0) :: rd ->
  loop_step (st, w)
  = (Ret tt,
     (st, {| clock := clock w; camera_script := camera_script w;
             next_queue := next_queue w;
             queues := <[q0 := default [] (queues w !! q0) ++ [p0]]> (queues w);
             ready := rd; trace := trace w ++ [Put q0 p0] |})).
Proof.
  intros H. unfold loop_step, emit, modify, bind, get, ret. now rewrite H.
Qed.

(** The loop runs its scheduled callbacks: every pending payload is put on
    its queue, in the order of scheduling. *)
Lemma loop_drain_spec q n : forall s,
  (length (ready (snd s)) <= n)%nat ->
  exists s',
    loop_drain n s = (Ret tt, s') /\
    ready (snd s') = [] /\
    fst s' = fst s /\
    received q (trace (snd s')) = received q (trace (snd s)) ++ pending_for q s.
Proof.
  induction n as [|n IH]; intros [st w] Hlen; cbn [snd] in Hlen.
  - destruct (ready w) eqn:Hrd; [|cbn in Hlen; lia]. eexists. split; [reflexivity|].
    unfold pending_for. cbn [fst snd]. rewrite Hrd. cbn. now rewrite app_nil_r.
  - cbn [loop_drain]. unfold bind at 1.
    destruct (ready w) as [|[q0 p0] rd] eqn:Hrd.
    + rewrite (loop_step_idle st w Hrd).
      destruct (IH (st, w)) as (s' & Hrun & Hrd' & Hst & Hrec);
        [cbn [snd]; rewrite Hrd; cbn; lia|].
      exists s'. repeat split; assumption.
    + rewrite (loop_step_put st w q0 p0 rd Hrd).
      match goal with
      | |- context [loop_drain n ?s1] =>
          destruct (IH s1) as (s' & Hrun & Hrd' & Hst & Hrec); [cbn in *; lia|]
      end.
      exists s'. split; [exact Hrun|]. split; [exact Hrd'|]. split; [exact Hst|].
      unfold pending_for in *. cbn [fst snd ready trace] in *.
      rewrite Hrec, Hrd, received_app, received_put, addressed_cons.
      now rewrite <- app_assoc.
Qed.

(** Before a queue exists, nothing is published to it. *)
Lemma published_before_allocation q pre : forall s s1,
  in_service s ->
  hub_run pre s = (Ret tt, s1) ->
  (next_queue (snd s1) <= q)%nat ->
  published_to q pre s = [].
Proof.
  induction pre as [|o pre IH]; intros s s1 Hs Hrun Hq; [reflexivity|].
  destruct (hub_step_spec q o s Hs) as (s' & Hstep & Hs' & Hnq & _).
  cbn [hub_run] in Hrun. unfold bind at 1 in Hrun. rewrite Hstep in Hrun.
  destruct (hub_run_spec q pre s' Hs') as (s1' & Hrun' & _ & Hnq' & _).
  assert (s1' = s1) as -> by congruence.
  cbn [published_to]. rewrite Hstep. cbn [snd]. rewrite (IH s' s1 Hs' Hrun Hq).
  rewrite app_nil_r. destruct o; try reflexivity.
  rewrite bool_decide_eq_false_2; [reflexivity|].
  intros Hin. destruct Hs as (_ & _ & Hlt). rewrite Forall_forall in Hlt.
  specialize (Hlt _ Hin). lia.
Qed.

Lemma published_to_app q pre post s s1 :
  hub_run pre s = (Ret tt, s1) ->
  in_service s ->
  published_to q (pre ++ post) s = published_to q pre s ++ published_to q post s1.
Proof.
  revert s. induction pre as [|o pre IH]; intros s Hrun Hs.
  - cbn in Hrun. now inversion Hrun.
  - destruct (hub_step_spec q o s Hs) as (s' & Hstep & Hs' & _).
    cbn [hub_run] in Hrun. unfold bind at 1 in Hrun. rewrite Hstep in Hrun.
    cbn [app published_to]. rewrite Hstep. cbn [snd].
    rewrite (IH s' Hrun Hs'). now rewrite app_assoc.
Qed.

(** C4 (as amended).  On a hub in service (the event loop attached), every
    sequence of operations completes without an exception, whatever the
    subscribers have or have not consumed; once the loop has run its callbacks,
    each queue has received, after what it had and what was already scheduled
    for it, exactly the payloads published while it was registered, in publish
    order; and a queue registered after some publishes receives none of
    them. *)
Theorem hub_delivers_in_order_to_registered ops s :
  in_service s ->
  exists s1 s2,
    hub_run ops s = (Ret tt, s1) /\
    run_until_idle s1 = (Ret tt, s2) /\
    ready (snd s2) = [] /\
    (forall q,
        received q (trace (snd s2))
        = (received q (trace (snd s)) ++ pending_for q s) ++ published_to q ops s) /\
    (forall pre post s' q s'',
        ops = pre ++ Register :: post ->
        hub_run pre s = (Ret tt, s') ->
        register_queue s' = (Ret q, s'') ->
        published_to q ops s = published_to q post s'').
Proof.
  intros Hs.
  destruct (hub_run_spec 0 ops s Hs) as (s1 & Hrun & Hs1 & _).
  destruct (loop_drain_spec 0 (length (ready (snd s1))) s1 (le_n _))
    as (s2 & Hdrain & Hrd & _).
  exists s1, s2. split; [exact Hrun|]. split; [|split; [exact Hrd|split]].
  - unfold run_until_idle, bind, get. now destruct s1.
  - intros q.
    destruct (hub_run_spec q ops s Hs) as (s1' & Hrun' & _ & _ & Hdel).
    assert (s1' = s1) as -> by congruence.
    destruct (loop_drain_spec q (length (ready (snd s1))) s1 (le_n _))
      as (s2' & Hdrain' & _ & _ & Hrec).
    assert (s2' = s2) as -> by congruence.
    now rewrite Hrec, Hdel.
  - intros pre post s' q s'' -> Hpre Hreg.
    rewrite (published_to_app q pre _ s s' Hpre Hs).
    assert (q = next_queue (snd s') /\ hub_step Register s' = (Ret tt, s'')) as [Hq Hstep].
    { destruct s' as [st' w']. unfold hub_step, bind.
      unfold register_queue, new_queue, set_event_queues, modify, bind, get, ret in *.
      cbn -[insert] in *. inversion Hreg. split; reflexivity. }
    rewrite (published_before_allocation q pre s s' Hs Hpre) by lia.
    cbn [published_to app]. now rewrite Hstep.
Qed.

End HubFacts.

(** ** Closed instances for the hub *)

Section HubClaims.
Import Detector.

Lemma hub_delivers_in_order_to_registered_witness :
  let a := sample_event "person" 0.93 in
  let b := sample_event "bottle" 0.71 in
  let ops := [Register; Broadcast a; Register; Broadcast b; Consume 0; LoopStep;
              Unregister 0; Broadcast a] in
  in_service started_hub /\
  exists s1 s2,
    hub_run ops started_hub = (Ret tt, s1) /\
    run_until_idle s1 = (Ret tt, s2) /\
    received 0 (trace (snd s2)) = [a; b] /\
    received 1 (trace (snd s2)) = [b; a].
Proof.
  intros a b ops.
  assert (in_service started_hub) as H
    by (repeat split; [discriminate | constructor | constructor]).
  split; [exact H|].
  destruct (hub_delivers_in_order_to_registered ops started_hub H)
    as (s1 & s2 & Hrun & Hidle & _ & Hdel & _).
  exists s1, s2. split; [exact Hrun|]. split; [exact Hidle|].
  rewrite !Hdel. split; vm_compute; reflexivity.
Defined.

(** C4, counterexample.  On a hub whose event loop has not been attached
    ([loop] is [None], as right after [DetectionState()]), a publish made while
    a queue is registered delivers nothing to it. *)
Lemma hub_without_loop_delivers_nothing :
  let a := sample_event "person" 0.93 in
  let ops := [Register; Broadcast a] in
  exists s1 s2,
    hub_run ops (__init__, fresh_world) = (Ret tt, s1) /\
    run_until_idle s1 = (Ret tt, s2) /\
    event_queues (fst s2) = [0%nat] /\
    published_to 0 ops (__init__, fresh_world) = [a] /\
    received 0 (trace (snd s2)) = [].
Proof.
  eexists _, _. split; [vm_compute; reflexivity|].
  split; [vm_compute; reflexivity|]. repeat split.
Qed.

End HubClaims.

(** ** The capture/inference loop: [_detection_loop] *)

Section DetectionLoopFacts.
Import Detector.
Variable cfg : detection_config.

Lemma collect_boxes_spec r now bs : forall acc (s : state),
  collect_boxes cfg r now bs acc s
  = (Ret (acc ++ (bs ≫= watched_box cfg r now)), s) \/
  collect_boxes cfg r now bs acc s = (Raise IndexError, s).
Proof.
  induction bs as [|b bs IH]; intros acc s.
  - left. cbn. now rewrite app_nil_r.
  - cbn [collect_boxes]. rewrite bind_cons. unfold watched_box at 1, box_label.
    destruct (bool_decide _); cbn [negb].
    + destruct (xyxy b) as [|row rows]; [now right|].
      destruct (IH (acc ++ [{| label := box_label r b; confidence := conf b;
                               bbox := row; timestamp := now |}]) s) as [H|H];
        unfold box_label in H; rewrite H; [left | now right].
      now rewrite <- app_assoc.
    + apply IH.
Qed.

Lemma collect_results_spec now results : forall acc (s : state),
  collect_results cfg results now acc s
  = (Ret (acc ++ watched_detections cfg now results), s) \/
  collect_results cfg results now acc s = (Raise IndexError, s).
Proof.
  unfold watched_detections.
  induction results as [|r results IH]; intros acc s.
  - left. cbn. now rewrite app_nil_r.
  - cbn [collect_results]. rewrite bind_cons.
    destruct (boxes r) as [bs|]; cbn [default].
    + unfold bind.
      destruct (collect_boxes_spec r now bs acc s) as [H|H]; rewrite H; [|now right].
      destruct (IH (acc ++ (bs ≫= watched_box cfg r now)) s) as [H'|H'];
        rewrite H'; [left | now right].
      now rewrite <- app_assoc.
    + apply IH.
Qed.







End DetectionLoopFacts.

(** ** Closed instances for the capture/inference loop *)

Section DetectionLoopClaims.
Import Detector.


(** On a frame with a person (0.62), a dog (0.99), a person (0.93) and a
    bottle (0.71), with the default watch set, the person at 0.93 is published
    to both subscribers; the dog, although more confident, is not watched. *)
Example busy_frame_publishes_top_person :
  let top := {| label := "person"; confidence := 0.93;
                bbox := [200; 20; 300; 220]; timestamp := 1700000000 |} in
  exists st' w',
    detection_iteration default_config 0 (watching busy_frame)
    = (Ret 1700000000, (st', w')) /\
    last_detection st' = Some (detection_payload top) /\
    ready w' = [(0%nat, detection_event top); (1%nat, detection_event top)].
Proof. eexists _, _. split; [vm_compute; reflexivity|]. split; reflexivity. Qed.

End DetectionLoopClaims.

(** ** Discovery: [discover_first] *)

Section DiscoveryFacts.
Import MdnsDiscover.

Lemma wait_for_event_none ty start timeout pending : forall w,
  Forall (fun n => ~ resolves n) pending ->
  Forall (fun n => 0 <= after n) pending ->
  0 <= timeout ->
  start <= clock w -> clock w <= start + timeout ->
  exists w' mid,
    wait_for_event ty start timeout pending w = (Ret None, w') /\
    clock w' == start + timeout /\
    trace w' = trace w ++ mid /\ ZeroconfClose ∉ mid.
Proof.
  induction pending as [|n pending IH]; intros w Hno Hpos Hto Hlo Hhi.
  - destruct w as [c ns tr]. cbn -[Qltb Qplus Qle] in *.
    unfold wait_until, emit, modify, bind, ret. cbn -[Qltb Qplus Qle].
    eexists _, [_]. split; [reflexivity|]. cbn -[Qltb Qplus Qle].
    split; [|split; [reflexivity|]].
    + destruct (Qltb c (start + timeout)) eqn:E; [reflexivity|].
      apply Qltb_ge in E. lra.
    + intros Hin. apply list_elem_of_singleton in Hin. discriminate.
  - apply Forall_cons in Hno as [Hn Hno]. apply Forall_cons in Hpos as [Hp Hpos].
    destruct w as [c ns tr]. cbn [clock trace] in *.
    cbn [wait_for_event].
    destruct (Qltb (after n) timeout) eqn:Ein.
    + apply Qltb_lt in Ein.
      unfold wait_until at 1, bind at 1, modify. cbn [clock notifications trace].
      set (c1 := if Qltb c (start + after n) then start + after n else c).
      assert (start <= c1 /\ c1 <= start + timeout) as [Hlo1 Hhi1].
      { unfold c1. destruct (Qltb c (start + after n)) eqn:E; split; lra. }
      destruct (state_change n) eqn:Esc.
      * destruct (info n) eqn:Einfo.
        { exfalso. apply Hn. split; [exact Esc|]. now rewrite Einfo. }
        unfold bind at 1, emit at 1, modify. cbn [clock notifications trace].
        destruct (IH {| clock := c1; notifications := ns;
                        trace := tr ++ [GetServiceInfo ty (name n)] |})
          as (w' & mid & Hrun & Hclock & Htr & Hmid); try assumption.
        exists w', (GetServiceInfo ty (name n) :: mid).
        split; [exact Hrun|]. split; [exact Hclock|]. split.
        -- rewrite Htr. cbn. now rewrite <- app_assoc.
        -- rewrite elem_of_cons. intros [?|?]; [discriminate | contradiction].
      * destruct (IH {| clock := c1; notifications := ns; trace := tr |})
          as (w' & mid & Hrun & Hclock & Htr & Hmid); try assumption.
        exists w', mid. repeat split; assumption.
      * destruct (IH {| clock := c1; notifications := ns; trace := tr |})
          as (w' & mid & Hrun & Hclock & Htr & Hmid); try assumption.
        exists w', mid. repeat split; assumption.
    + unfold wait_until, emit, modify, bind, ret. cbn -[Qltb Qplus Qle].
      eexists _, [_]. split; [reflexivity|]. cbn -[Qltb Qplus Qle].
      split; [|split; [reflexivity|]].
      * destruct (Qltb c (start + timeout)) eqn:E; [reflexivity|].
        apply Qltb_ge in E. lra.
      * intros Hin. apply list_elem_of_singleton in Hin. discriminate.
Qed.

(** The body of [discover_first], lines 14 to 40: with no resolvable service
    reported, it returns [None] when exactly [timeout] has elapsed, after
    closing the Zeroconf instance. *)
Lemma discover_first_body_none ty timeout w :
  Forall (fun n => ~ resolves n) (notifications w) ->
  Forall (fun n => 0 <= after n) (notifications w) ->
  0 <= timeout ->
  exists w' mid,
    discover_first ty timeout w = (Ret None, w') /\
    clock w' == clock w + timeout /\
    trace w' = trace w ++ [ZeroconfOpen; BrowserStart ty] ++ mid ++ [ZeroconfClose] /\
    ZeroconfClose ∉ mid.
Proof.
  intros Hno Hpos Hto. destruct w as [c ns tr]. cbn [notifications clock trace] in *.
  unfold discover_first, bind at 1, emit at 1, modify.
  unfold bind at 1, emit at 1, modify. unfold bind at 1, get.
  cbn [clock notifications trace]. unfold bind at 1.
  destruct (wait_for_event_none ty c timeout ns
              {| clock := c; notifications := ns;
                 trace := (tr ++ [ZeroconfOpen]) ++ [BrowserStart ty] |})
    as (w' & mid & Hrun & Hclock & Htr & Hmid); try assumption; cbn [clock]; try lra.
  rewrite Hrun. destruct w' as [c' ns' tr']. cbn [clock trace] in *.
  eexists _, mid. unfold emit, modify, bind, ret. split; [reflexivity|].
  cbn [clock trace]. split; [exact Hclock|]. split; [|exact Hmid].
  rewrite Htr. now rewrite <- !app_assoc.
Qed.

(** The body of [discover_first]: when the first resolvable service is
    reported before the timeout (the notifications before it coming earlier
    still), its name, port and addresses are returned, and the Zeroconf
    instance has been closed by then. *)
Lemma discover_first_body_found ty timeout w before n i later :
  notifications w = before ++ n :: later ->
  Forall (fun m => ~ resolves m /\ after m < timeout) before ->
  after n < timeout -> state_change n = Added -> info n = Some i ->
  exists w' mid,
    discover_first ty timeout w = (Ret (Some (found_dict (name n) i)), w') /\
    trace w' = trace w ++ [ZeroconfOpen; BrowserStart ty] ++ mid
               ++ [ZeroconfClose; LogInfo "Discovered service %s"] /\
    ZeroconfClose ∉ mid.
Proof.
  intros Hns Hbefore Hin Hadd Hinfo. destruct w as [c ns tr].
  cbn [notifications clock trace] in *. subst ns.
  assert (forall w0, exists w1 mid,
    wait_for_event ty c timeout (before ++ n :: later) w0
    = (Ret (Some (found_dict (name n) i)), w1) /\
    trace w1 = trace w0 ++ mid /\ ZeroconfClose ∉ mid) as Hwait.
  { induction before as [|m before IH]; intros w0.
    - cbn [app wait_for_event].
      replace (Qltb (after n) timeout) with true by (symmetry; now apply Qltb_lt).
      rewrite Hadd, Hinfo. unfold wait_until, emit, modify, bind, ret.
      cbn [trace]. eexists _, [_; _]. split; [reflexivity|]. cbn [trace].
      split; [now rewrite <- app_assoc|].
      intros Hmid. repeat (apply elem_of_cons in Hmid as [Hmid|Hmid]; [discriminate|]).
      inversion Hmid.
    - apply Forall_cons in Hbefore as [[Hm Hlt] Hbefore].
      cbn [app wait_for_event].
      replace (Qltb (after m) timeout) with true by (symmetry; now apply Qltb_lt).
      unfold bind at 1, wait_until at 1, modify.
      destruct (state_change m) eqn:Esc.
      + destruct (info m) eqn:Einfo.
        { exfalso. apply Hm. split; [exact Esc|]. now rewrite Einfo. }
        unfold bind at 1, emit at 1, modify.
        match goal with
        | |- context [wait_for_event _ _ _ _ ?w1] =>
            destruct (IH Hbefore w1) as (w2 & mid & Hrun & Htr & Hmid)
        end.
        exists w2, (GetServiceInfo ty (name m) :: mid).
        split; [exact Hrun|]. split.
        * rewrite Htr. cbn [trace]. now rewrite <- app_assoc.
        * rewrite elem_of_cons. intros [?|?]; [discriminate | contradiction].
      + match goal with
        | |- context [wait_for_event _ _ _ _ ?w1] =>
            destruct (IH Hbefore w1) as (w2 & mid & Hrun & Htr & Hmid)
        end.
        exists w2, mid. repeat split; assumption.
      + match goal with
        | |- context [wait_for_event _ _ _ _ ?w1] =>
            destruct (IH Hbefore w1) as (w2 & mid & Hrun & Htr & Hmid)
        end.
        exists w2, mid. repeat split; assumption. }
  unfold discover_first, bind at 1, emit at 1, modify.
  unfold bind at 1, emit at 1, modify. unfold bind at 1, get.
  cbn [clock notifications trace]. unfold bind at 1.
  match goal with
  | |- context [wait_for_event _ _ _ _ ?w1] =>
      destruct (Hwait w1) as (w2 & mid & Hrun & Htr & Hmid)
  end.
  rewrite Hrun. destruct w2 as [c2 ns2 tr2]. cbn [trace] in *.
  eexists _, mid. unfold emit, modify, bind, ret. split; [reflexivity|].
  cbn [trace]. split; [|exact Hmid]. rewrite Htr. now rewrite <- !app_assoc.
Qed.

(** Without the stray header on line 4 the module compiles, and a call runs
    the body. *)
Lemma repaired_module_runs_body ty timeout w :
  let repaired := take 3 source ++ drop 4 source in
  compile_module repaired = None /\
  import_and_call repaired ty timeout w = discover_first ty timeout w.
Proof. split; reflexivity. Qed.

(** C8.  The module as it stands does not compile: the function header on
    line 4 is followed by an import at the same indentation, so the block
    that the header announces is missing.  Importing the module raises an
    [IndentationError] at line 5, and no call of [discover_first] ever reaches
    the body: nothing is browsed, nothing is waited for, nothing is
    returned. *)
Theorem discover_first_module_does_not_compile ty timeout w :
  compile_module source = Some (ExpectedIndentedBlock 5) /\
  import_and_call source ty timeout w
  = (Raise (IndentationError "expected an indented block" 5), w).
Proof. split; reflexivity. Qed.

End DiscoveryFacts.

(** ** The sequencer: the lock, and what a negative delay does *)

Section SequencerEdges.
Import Orchestrator.
Variable cfg : detection_config.

Ltac run_sequencer :=
  unfold _execute_safety_sequence, _handle_event, record_detection, set_cooldown,
    with_cooldown, with_detection,
    stop_send, reverse_send, forward_send, serial_send, time_time, time_sleep,
    advance, with_serial_lock, try_finally, logger, emit, dict_get, in_str_set,
    modify, raise, bind, get, ret;
  cbn -[Qltb Qplus Qminus Qmult Qle Qlt assoc_last bool_decide Deque.appendleft].

Local Tactic Notation "bracket" open_constr(body) :=
  eexists _, _, _, body; split; [reflexivity|]; split;
  [cbn; rewrite <- ?app_assoc; reflexivity
  |repeat constructor; discriminate].

(** X1.  Whatever the payload, the configuration and the answers of the serial
    port, and whether the call returns or raises, [_execute_safety_sequence]
    acquires the serial lock once and releases it once, as its last action;
    everything else it does lies between the two. *)
Theorem serial_lock_always_released payload rt w :
  exists r rt' w' body,
    _execute_safety_sequence cfg payload (rt, w) = (r, (rt', w')) /\
    trace w' = trace w ++ [TimeRead (clock w); LockAcquire] ++ body ++ [LockRelease] /\
    Forall (fun e => e <> LockAcquire /\ e <> LockRelease) body.
Proof.
  destruct w as [c ss ps hs tr], rt as [yp el ld cd].
  run_sequencer.
  destruct (Qltb (c - cd) (REVERSE_DURATION cfg)); run_sequencer;
    [bracket [Log DEBUG "Skipping serial actions due to cooldown" []]|].
  destruct payload as [| | | | |fields]; run_sequencer;
    try (eexists _, _, _, []; split; [reflexivity|]; split;
         [cbn; rewrite <- ?app_assoc; reflexivity | constructor]).
  destruct ss as [|[ok1 d1] [|[ok2 d2] [|[ok3 d3] ss]]]; run_sequencer.
  all: destruct (Qltb (STOP_TO_REVERSE_DELAY cfg) 0); run_sequencer;
    [bracket [_; _] |].
  all: destruct (RESUME_WITH_FORWARD cfg); run_sequencer;
    [|bracket [_; _; _; _; _]].
  all: destruct (Qltb (FORWARD_RESUME_DELAY cfg) 0); run_sequencer;
    [bracket [_; _; _; _; _] | bracket [_; _; _; _; _; _; _]].
Qed.

(** X2.  With a negative [STOP_TO_REVERSE_DELAY], a call that passes the
    cooldown check sends STOP and nothing else: [time.sleep] raises
    [ValueError], the lock is released, and the cooldown is not armed, so the
    runtime is left exactly as it was. *)
Theorem negative_stop_delay_sends_stop_only fields rt w :
  STOP_TO_REVERSE_DELAY cfg < 0 ->
  REVERSE_DURATION cfg <= clock w - _serial_cooldown rt ->
  exists ok w',
    _execute_safety_sequence cfg (JObj fields) (rt, w)
    = (Raise (ValueError "sleep length must be non-negative"), (rt, w')) /\
    trace w' = trace w ++
      [TimeRead (clock w); LockAcquire;
       Log INFO "Triggering safety sequence for label=%s"
         [default JNull (assoc_last "label" fields)];
       Serial STOP ok; LockRelease].
Proof.
  intros Hneg Hpass. destruct w as [c ss ps hs tr], rt as [yp el ld cd].
  cbn [clock _serial_cooldown] in Hpass.
  apply Qltb_ge in Hpass. apply Qltb_lt in Hneg.
  destruct ss as [|[ok1 d1] ss]; run_sequencer; rewrite Hpass; run_sequencer;
    rewrite Hneg; run_sequencer.
  all: eexists _, _; split; [reflexivity|]; cbn; rewrite <- ?app_assoc; reflexivity.
Qed.

(** X3.  Events without a usable label are ignored without a trace: a dict
    whose type is not "detection", or whose payload is missing or false
    ([None], an empty dict, ...), or whose payload is a dict with no label or
    a false one, leaves the runtime and its environment exactly as they
    were. *)
Theorem unlabelled_events_are_ignored efields s :
  assoc_last "type" efields <> Some (JStr "detection")
  \/ truthy (default JNull (assoc_last "payload" efields)) = false
  \/ (exists pfields,
        assoc_last "payload" efields = Some (JObj pfields) /\
        truthy (default JNull (assoc_last "label" pfields)) = false) ->
  _handle_event cfg (JObj efields) s = (Ret tt, s).
Proof.
  intros H. destruct s as [rt w].
  unfold _handle_event, dict_get, bind, ret.
  destruct (assoc_last "type" efields) as [ty|] eqn:Ety;
    cbn -[truthy assoc_last logger record_detection in_str_set
          _execute_safety_sequence]; [|reflexivity].
  destruct ty as [| | |t| |]; try reflexivity.
  destruct (String.eqb t "detection") eqn:Et; cbn [negb]; [|reflexivity].
  apply String.eqb_eq in Et. subst t.
  destruct H as [H|[H|(pf & Hp & Hl)]]; [congruence| |].
  - rewrite H. reflexivity.
  - rewrite Hp.
    cbn -[assoc_last logger record_detection in_str_set _execute_safety_sequence].
    destruct pf as [|x pf];
      cbn -[assoc_last logger record_detection in_str_set _execute_safety_sequence truthy]
        in *; [reflexivity|].
    rewrite Hl. reflexivity.
Qed.

End SequencerEdges.

Section SequencerEdgesInstances.
Import Orchestrator.

Lemma negative_stop_delay_sends_stop_only_witness :
  exists ok w',
    _execute_safety_sequence (Scenario.config (-1) 1 true)
      (JObj [("label", JStr "person")]%string)
      (Scenario.fresh_runtime, Scenario.quiet_world 1700000000)
    = (Raise (ValueError "sleep length must be non-negative"),
       (Scenario.fresh_runtime, w')) /\
    trace w' =
      [TimeRead 1700000000; LockAcquire;
       Log INFO "Triggering safety sequence for label=%s" [JStr "person"];
       Serial STOP ok; LockRelease].
Proof.
  assert (H1 : STOP_TO_REVERSE_DELAY (Scenario.config (-1) 1 true) < 0)
    by (vm_compute; reflexivity).
  assert (H2 : REVERSE_DURATION (Scenario.config (-1) 1 true)
               <= clock (Scenario.quiet_world 1700000000)
                  - _serial_cooldown Scenario.fresh_runtime)
    by (vm_compute; discriminate).
  exact (negative_stop_delay_sends_stop_only (Scenario.config (-1) 1 true)
           [("label", JStr "person")]%string
           Scenario.fresh_runtime (Scenario.quiet_world 1700000000) H1 H2).
Defined.

Lemma unlabelled_events_are_ignored_witness :
  _handle_event default_config
    (JObj [("type", JStr "detection"); ("payload", JObj [("confidence", JNum 0.9)])]%string)
    (Scenario.fresh_runtime, Scenario.quiet_world 1700000000)
  = (Ret tt, (Scenario.fresh_runtime, Scenario.quiet_world 1700000000)).
Proof.
  apply (unlabelled_events_are_ignored default_config).
  right. right. eexists. split; reflexivity.
Defined.

End SequencerEdgesInstances.

(** ** The health wait: what it does before the first request *)

Section HealthWaitEdges.
Import Orchestrator.
Variable cfg : detection_config.

Ltac run_wait :=
  unfold _wait_for_yolo_health, health_iteration, process_poll, requests_get,
    time_time, time_sleep, advance, logger, emit, modify, raise, bind, get, ret;
  cbn -[Qltb Qplus Qminus Qmult Qle Qlt bool_decide health_url].

(** X4.  With a timeout that is not positive, the health wait gives up at
    once: it reads the clock twice and raises the [TimeoutError], without
    polling the child and without a single request. *)
Theorem health_wait_without_time_never_polls (timeout : Q) (fuel : nat) rt w :
  timeout <= 0 ->
  (1 <= fuel)%nat ->
  _wait_for_yolo_health cfg fuel timeout (rt, w)
  = (Raise (TimeoutError ("Timed out waiting for YOLO health endpoint at "
                          +:+ health_url cfg)),
     (rt, extend_trace w [TimeRead (clock w); TimeRead (clock w)])).
Proof.
  intros Hto Hfuel. destruct fuel as [|fuel]; [lia|].
  destruct w as [c ss ps hs tr], rt as [yp el ld cd].
  unfold _wait_for_yolo_health. cbn [health_loop]. run_wait.
  replace (Qltb (c - c) timeout) with false by (symmetry; apply Qltb_ge; lra).
  unfold extend_trace. cbn. rewrite <- ?app_assoc. reflexivity.
Qed.

(** X5.  The exit check comes first: when the tracked child has already
    exited at the first poll, the wait raises the [RuntimeError] after logging
    the exit code, and no request is made at all, whatever the endpoint would
    have answered. *)
Theorem exited_child_is_reported_before_any_request
    (timeout : Q) (fuel : nat) rt w pid code polls :
  0 < timeout ->
  (1 <= fuel)%nat ->
  yolo_process rt = Some pid ->
  poll_script w = Some code :: polls ->
  exists w',
    _wait_for_yolo_health cfg fuel timeout (rt, w)
    = (Raise (RuntimeError "YOLO server process terminated unexpectedly"), (rt, w')) /\
    trace w' = trace w ++
      [TimeRead (clock w); TimeRead (clock w); Poll (Some code);
       Log ERROR "YOLO server exited early with code %s" [JNum (inject_Z code)]] /\
    http_script w' = http_script w /\
    clock w' = clock w.
Proof.
  intros Hto Hfuel Hproc Hpoll. destruct fuel as [|fuel]; [lia|].
  destruct w as [c ss ps hs tr], rt as [yp el ld cd].
  cbn [yolo_process poll_script] in *. subst yp ps.
  unfold _wait_for_yolo_health. cbn [health_loop]. run_wait.
  replace (Qltb (c - c) timeout) with true by (symmetry; apply Qltb_lt; lra).
  run_wait. eexists. split; [reflexivity|].
  cbn. rewrite <- !app_assoc. repeat split.
Qed.

End HealthWaitEdges.

Section HealthWaitEdgesInstances.
Import Orchestrator.

Lemma health_wait_without_time_never_polls_witness :
  _wait_for_yolo_health default_config 1 0
    (Scenario.supervising_runtime, Scenario.child_comes_up 1700000000)
  = (Raise (TimeoutError ("Timed out waiting for YOLO health endpoint at "
                          +:+ health_url default_config)),
     (Scenario.supervising_runtime,
      extend_trace (Scenario.child_comes_up 1700000000)
        [TimeRead 1700000000; TimeRead 1700000000])).
Proof.
  assert (H1 : 0 <= 0) by lra.
  assert (H2 : (1 <= 1)%nat) by lia.
  exact (health_wait_without_time_never_polls default_config 0 1
           Scenario.supervising_runtime (Scenario.child_comes_up 1700000000) H1 H2).
Defined.

(** The child has exited with code 3 while a server still answers 200 on the
    port. *)
Lemma exited_child_is_reported_before_any_request_witness :
  let w := {| clock := 1700000000; serial_script := [];
              poll_script := [Some 3%Z]; http_script := [(Some 200%Z, 0.05)];
              trace := [] |} in
  exists w',
    _wait_for_yolo_health default_config 46 45 (Scenario.supervising_runtime, w)
    = (Raise (RuntimeError "YOLO server process terminated unexpectedly"),
       (Scenario.supervising_runtime, w')) /\
    trace w' = trace w ++
      [TimeRead (clock w); TimeRead (clock w); Poll (Some 3%Z);
       Log ERROR "YOLO server exited early with code %s" [JNum (inject_Z 3)]] /\
    http_script w' = http_script w /\
    clock w' = clock w.
Proof.
  intros w.
  assert (H1 : 0 < 45) by lra.
  assert (H2 : (1 <= 46)%nat) by lia.
  exact (exited_child_is_reported_before_any_request default_config 45 46
           Scenario.supervising_runtime w 4242%Z 3%Z [] H1 H2 eq_refl eq_refl).
Defined.

End HealthWaitEdgesInstances.

(** ** The event client: framing and decoding of the stream *)

Section StreamReading.
Import EventsClient.
Variable cfg : detection_config.
Variable url : string.
Variable json_loads : string -> option json.
Variable on_event : json -> M world unit.

Lemma read_lines_app (ev : list string) : forall rest acc,
  Forall (fun line => line <> "") ev ->
  read_lines json_loads on_event (ev ++ rest) acc
  = read_lines json_loads on_event rest (acc ++ ev).
Proof.
  induction ev as [|line ev IH]; intros rest acc Hev.
  - now rewrite app_nil_r.
  - apply Forall_cons in Hev as [Hline Hev]. cbn [app read_lines].
    apply String.eqb_neq in Hline. rewrite Hline.
    rewrite IH by exact Hev. now rewrite <- app_assoc.
Qed.

(** X7.  The stream is cut into events at empty lines: the lines read since
    the last empty line are dispatched together when the next empty line
    arrives, and reading goes on with nothing pending.  Lines that are not
    followed by an empty line before the stream ends are never dispatched. *)
Theorem stream_is_framed_by_empty_lines (ev rest : list string) (w : world) :
  ev <> [] ->
  Forall (fun line => line <> "") ev ->
  read_lines json_loads on_event (ev ++ "" :: rest) [] w
  = bind (_dispatch json_loads on_event ev)
      (fun _ => read_lines json_loads on_event rest []) w
  /\ read_lines json_loads on_event ev [] w = (Ret tt, w).
Proof.
  intros Hne Hev. split.
  - rewrite read_lines_app by exact Hev. cbn [app read_lines String.eqb].
    destruct ev; [congruence | reflexivity].
  - rewrite <- (app_nil_r ev) at 1. rewrite read_lines_app by exact Hev. reflexivity.
Qed.

(** X8.  [_run] catches connection errors only.  When the callback raises
    while the lines of a stream are read, the exception ends the loop where it
    was raised: no backoff sleep follows, and none of the remaining connection
    attempts is made. *)
Theorem callback_exception_ends_the_loop
    (lines : list string) (broken : bool) (rest : list attempt) (w w' : world) e :
  read_lines json_loads on_event lines []
    {| clock := clock w;
       trace := trace w ++ [Log INFO "Connecting to YOLO SSE stream at %s"; Connect url] |}
  = (Raise e, w') ->
  _run cfg url json_loads on_event (Streamed lines broken :: rest) w = (Raise e, w').
Proof.
  intros Hraise. unfold _run. cbn [run_from].
  unfold bind at 1. unfold emit at 1, modify. cbn [clock trace].
  unfold bind at 1. unfold emit at 1, modify. cbn [clock trace].
  unfold bind at 1. rewrite <- app_assoc. cbn [app].
  rewrite Hraise. reflexivity.
Qed.

(** X9.  The same holds for the sleep itself: with a negative
    [SSE_BACKOFF_SEC], the first failed connection makes [time.sleep] raise a
    [ValueError], which ends the loop after a single attempt. *)
Theorem negative_backoff_ends_the_loop (rest : list attempt) (w : world) :
  SSE_BACKOFF_SEC cfg < 0 ->
  _run cfg url json_loads on_event (ConnectFailed :: rest) w
  = (Raise (ValueError "sleep length must be non-negative"),
     {| clock := clock w;
        trace := trace w ++ [Log INFO "Connecting to YOLO SSE stream at %s";
                             Connect url;
                             Log WARNING "SSE connection error: %s"] |}).
Proof.
  intros Hneg. apply Qltb_lt in Hneg.
  unfold _run. cbn [run_from]. unfold time_sleep. rewrite Hneg.
  unfold bind, emit, modify, raise. cbn [clock trace].
  rewrite <- !app_assoc. reflexivity.
Qed.

End StreamReading.

Section StreamReadingInstances.
Import EventsClient.

Lemma stream_is_framed_by_empty_lines_witness :
  read_lines Sse.toy_loads Sse.dict_callback
    (["event: detection"; "data: {}"] ++ "" :: ["data: {}"]) [] idle_start
  = bind (_dispatch Sse.toy_loads Sse.dict_callback ["event: detection"; "data: {}"])
      (fun _ => read_lines Sse.toy_loads Sse.dict_callback ["data: {}"] [])
      idle_start
  /\ read_lines Sse.toy_loads Sse.dict_callback
       ["event: detection"; "data: {}"] [] idle_start
     = (Ret tt, idle_start).
Proof.
  assert (H1 : ["event: detection"; "data: {}"] <> []) by discriminate.
  assert (H2 : Forall (fun line => line <> "")
                 ["event: detection"; "data: {}"])
    by (repeat constructor; discriminate).
  exact (stream_is_framed_by_empty_lines Sse.toy_loads Sse.dict_callback
           _ ["data: {}"] idle_start H1 H2).
Defined.

(** A payload that is valid JSON but not an object. *)
Lemma callback_exception_ends_the_loop_witness :
  exists w',
    _run default_config "http://127.0.0.1:8001/events" Sse.toy_loads Sse.dict_callback
      [Streamed ["data: [1]"; ""] false; ConnectFailed; ConnectFailed] idle_start
    = (Raise AttributeError, w') /\
    sleeps (trace w') = [] /\
    length (filter (fun e => match e with Connect _ => true | _ => false end = true) (trace w'))
    = 1%nat.
Proof.
  eexists. split.
  - apply (callback_exception_ends_the_loop default_config
             "http://127.0.0.1:8001/events" Sse.toy_loads Sse.dict_callback
             ["data: [1]"; ""] false [ConnectFailed; ConnectFailed] idle_start).
    vm_compute. reflexivity.
  - split; reflexivity.
Defined.

Lemma negative_backoff_ends_the_loop_witness :
  fst (_run (config_with_backoff (-1)) "http://127.0.0.1:8001/events"
         Sse.toy_loads Sse.dict_callback [ConnectFailed; ConnectFailed] idle_start)
  = Raise (ValueError "sleep length must be non-negative").
Proof.
  assert (H : SSE_BACKOFF_SEC (config_with_backoff (-1)) < 0) by (vm_compute; reflexivity).
  rewrite (negative_backoff_ends_the_loop (config_with_backoff (-1))
             "http://127.0.0.1:8001/events" Sse.toy_loads Sse.dict_callback
             [ConnectFailed] idle_start H).
  reflexivity.
Defined.

End StreamReadingInstances.

(** ** The capture/inference loop: throttling, ties, and the endpoints *)

Section DetectionLoopEdges.
Import Detector DetectorApi.
Variable cfg : detection_config.

Ltac run_iteration :=
  unfold detection_iteration, capture_read, update_frame, time_time, time_sleep,
    logger, emit, modify, raise, bind, get, ret;
  cbn -[Qltb Qplus Qminus Qle collect_results max_by broadcast update_detection].




(** X10.  A frame that arrives less than [CAPTURE_INTERVAL_SEC] after the
    last inference is only shown: it becomes the last frame when it can be
    encoded, the loop sleeps for 10 ms, and there is no inference: nothing is
    scheduled for the subscribers, the last detection and the time of the last
    inference stay as they were. *)
Theorem early_frame_is_shown_but_not_analysed last_emit st w f rest :
  camera_script w = Some f :: rest ->
  clock w - last_emit < CAPTURE_INTERVAL_SEC cfg ->
  detection_iteration cfg last_emit (st, w)
  = (Ret last_emit,
     (with_frame st f,
      {| clock := clock w + 0.01; camera_script := rest;
         next_queue := next_queue w; queues := queues w; ready := ready w;
         trace := trace w ++ frame_effects f (clock w) ++ [Sleep 0.01] |})).
Proof.
  intros Hcam Hearly. apply Qltb_lt in Hearly.
  destruct w as [c cs nq qs rd tr], st as [ld lf eq se lp].
  cbn [camera_script clock] in *. subst cs.
  unfold with_frame, frame_effects. run_iteration.
  destruct (imencode f) as [b64|]; run_iteration; rewrite Hearly; run_iteration.
  all: replace (Qltb 0.01 0) with false by (symmetry; apply Qltb_ge; lra).
  all: cbn; rewrite <- ?app_assoc; reflexivity.
Qed.


(** X12.  [/last_frame] follows the camera, not the inference: after any
    pass of the loop that read a frame which could be encoded, whether the pass
    was throttled, found nothing, published or raised, the endpoint answers
    with that frame; its last detection is never [None], an empty dict stands
    for no detection. *)
Theorem last_frame_follows_the_camera last_emit st w f rest b64 :
  camera_script w = Some f :: rest ->
  imencode f = Some b64 ->
  exists r st' w' d,
    detection_iteration cfg last_emit (st, w) = (r, (st', w')) /\
    last_frame (st', w')
    = (Ret (Ok (JObj [("image_b64", JStr b64); ("last_detection", d)])), (st', w')) /\
    d <> JNull.
Proof.
  intros Hcam Henc.
  destruct w as [c cs nq qs rd tr], st as [ld lf eq se lp].
  cbn [camera_script] in *. subst cs.
  assert (forall (r : outcome Q) ld' w',
    exists r0 st' w0 d,
      (r, ({| last_detection := ld'; last_frame_b64 := Some b64; event_queues := eq;
              stop_event := se; loop := lp |}, w')) = (r0, (st', w0)) /\
      last_frame (st', w0)
      = (Ret (Ok (JObj [("image_b64", JStr b64); ("last_detection", d)])), (st', w0)) /\
      d <> JNull) as Hserved.
  { intros r ld' w'. eexists r, _, w', _. split; [reflexivity|].
    unfold last_frame, bind, get, ret. cbn [last_frame_b64 last_detection].
    split; [reflexivity|].
    destruct ld' as [[| | | | |]|]; cbn; try discriminate;
      repeat match goal with |- context [if ?b then _ else _] => destruct b end;
      discriminate. }
  run_iteration. rewrite Henc. run_iteration.
  destruct (Qltb (c - last_emit) (CAPTURE_INTERVAL_SEC cfg)); run_iteration.
  { replace (Qltb 0.01 0) with false by (symmetry; apply Qltb_ge; lra).
    cbn. apply Hserved. }
  match goal with
  | |- context [collect_results cfg ?rs ?now [] ?s] =>
      destruct (collect_results_spec cfg now rs [] s) as [H|H]; rewrite H
  end; [|apply Hserved].
  cbn [app]. destruct (watched_detections cfg _ _) as [|d0 others]; [apply Hserved|].
  unfold update_detection, broadcast, modify, bind, get, ret;
    cbn [fst snd event_queues loop].
  destruct lp as [l|];
    [rewrite broadcast_to_attached by discriminate
    |rewrite broadcast_to_detached by reflexivity]; apply Hserved.
Qed.





End DetectionLoopEdges.

Section CameraSource.
Import DetectorApi.




End CameraSource.

Section DetectionLoopEdgesInstances.
Import Detector DetectorApi.

Lemma early_frame_is_shown_but_not_analysed_witness :
  let s := watching busy_frame in
  detection_iteration default_config 1699999999.8 s
  = (Ret 1699999999.8,
     (with_frame (fst s) busy_frame,
      {| clock := clock (snd s) + 0.01; camera_script := [];
         next_queue := 2; queues := queues (snd s); ready := [];
         trace := frame_effects busy_frame (clock (snd s)) ++ [Sleep 0.01] |})).
Proof.
  intros s.
  assert (H1 : camera_script (snd s) = Some busy_frame :: []) by reflexivity.
  assert (H2 : clock (snd s) - 1699999999.8 < CAPTURE_INTERVAL_SEC default_config)
    by (vm_compute; reflexivity).
  exact (early_frame_is_shown_but_not_analysed default_config 1699999999.8
           (fst s) (snd s) busy_frame [] H1 H2).
Defined.


Lemma last_frame_follows_the_camera_witness :
  exists r st' w' d,
    detection_iteration default_config 0 (watching busy_frame) = (r, (st', w')) /\
    last_frame (st', w')
    = (Ret (Ok (JObj [("image_b64", JStr "iVBORw0KGgo="); ("last_detection", d)])),
       (st', w')) /\
    d <> JNull.
Proof.
  exact (last_frame_follows_the_camera default_config 0
           (fst (watching busy_frame)) (snd (watching busy_frame))
           busy_frame [] "iVBORw0KGgo=" eq_refl eq_refl).
Defined.


End DetectionLoopEdgesInstances.

(** ** The hub as its subscribers see it *)

Section SubscriberFacts.
Import Detector DetectorApi.

Ltac run_hub_op :=
  unfold hub_step, _event_publisher, _event_publisher_step, register_queue, new_queue,
    unregister_queue, set_event_queues, set_event_loop, loop_step, emit, modify,
    raise, bind, get, ret;
  cbn -[bool_decide lookup insert].

Lemma yielded_app q tr1 tr2 :
  yielded q (tr1 ++ tr2) = yielded q tr1 ++ yielded q tr2.
Proof. apply omap_app. Qed.

Lemma yielded_yield q q0 ev d :
  yielded q [Yield q0 ev d] = if Nat.eqb q0 q then [d] else [].
Proof. unfold yielded. cbn. now destruct (Nat.eqb q0 q). Qed.

Lemma yielded_put q q0 p : yielded q [Put q0 p] = [].
Proof. reflexivity. Qed.

Lemma received_yield q q0 ev d : received q [Yield q0 ev d] = [].
Proof. reflexivity. Qed.

Lemma list_remove_last (q : nat) (l : list nat) :
  q ∉ l -> list_remove q (l ++ [q]) = l.
Proof.
  induction l as [|y l IH]; intros Hq; cbn.
  - now rewrite Nat.eqb_refl.
  - rewrite not_elem_of_cons in Hq. destruct Hq as [Hne Hq].
    apply Nat.eqb_neq in Hne. rewrite Hne. now rewrite IH.
Qed.

(** X15.  Subscribing and unsubscribing undo each other: on a hub in
    service, [register_queue] hands out a queue that was not registered
    before, and unregistering it gives back the list of subscribers as it was,
    in the same order.  Unregistering a queue that is not registered changes
    nothing at all. *)
Theorem register_then_unregister_restores_subscribers (s : state) :
  in_service s ->
  (exists q s1 s2,
     register_queue s = (Ret q, s1) /\
     (q ∉ event_queues (fst s)) /\
     event_queues (fst s1) = event_queues (fst s) ++ [q] /\
     unregister_queue q s1 = (Ret tt, s2) /\
     event_queues (fst s2) = event_queues (fst s))
  /\ (forall x, x ∉ event_queues (fst s) -> unregister_queue x s = (Ret tt, s)).
Proof.
  destruct s as [[ld lf eq se lp] [c cs nq qs rd tr]].
  intros (Hloop & Hnd & Hlt). cbn [fst snd loop event_queues next_queue] in *.
  assert (nq ∉ eq) as Hfresh.
  { intros Hin. rewrite Forall_forall in Hlt. specialize (Hlt _ Hin). lia. }
  split.
  - eexists nq, _, _. split; [reflexivity|]. split; [exact Hfresh|].
    split; [reflexivity|]. run_hub_op.
    rewrite bool_decide_eq_true_2 by (apply elem_of_app; right; left).
    split; [reflexivity|]. cbn. now apply list_remove_last.
  - intros x Hx. run_hub_op. now rewrite bool_decide_eq_false_2 by exact Hx.
Qed.

Lemma hub_consistent_step (o : hub_op) (s : state) :
  hub_consistent s ->
  publishes_dict o ->
  exists s', hub_step o s = (Ret tt, s') /\ hub_consistent s'.
Proof.
  intros (Hserv & Hsum & Hnone & Hrd & Hdict) Hop.
  destruct (hub_step_spec 0 o s Hserv) as (s' & Hstep & Hserv' & _).
  exists s'. split; [exact Hstep|]. split; [exact Hserv'|]. clear Hserv'.
  destruct s as [[ld lf eq se lp] [c cs nq qs rd tr]].
  destruct Hserv as (Hloop & Hnd & Hlt).
  unfold waiting in *. cbn [fst snd loop event_queues next_queue ready trace queues] in *.
  destruct o as [l| |x|p| |x].
  - (* set_event_loop *)
    inversion Hstep; subst s'. cbn [fst snd next_queue ready trace queues].
    repeat split; assumption.
  - (* register_queue *)
    inversion Hstep; subst s'. cbn [fst snd next_queue ready trace queues].
    assert (yielded nq tr = [] /\ default [] (qs !! nq) = []) as [Hy Hw].
    { specialize (Hsum nq). rewrite (Hnone nq) in Hsum by lia.
      now apply app_eq_nil in Hsum. }
    repeat split.
    + intros q. destruct (decide (q = nq)) as [->|Hne].
      * rewrite lookup_insert_eq. cbn. rewrite Hy, (Hnone nq) by lia. reflexivity.
      * rewrite lookup_insert_ne by congruence. apply Hsum.
    + intros q Hq. apply Hnone. lia.
    + eapply Forall_impl; [exact Hrd|]. cbn. intros x [? ?]. split; [lia|assumption].
    + intros q. destruct (decide (q = nq)) as [->|Hne].
      * rewrite lookup_insert_eq. constructor.
      * rewrite lookup_insert_ne by congruence. apply Hdict.
  - (* unregister_queue *)
    revert Hstep. run_hub_op. destruct (bool_decide (x ∈ eq)); cbn;
      intros Hstep; inversion Hstep; subst s';
      cbn [fst snd next_queue ready trace queues]; repeat split; assumption.
  - (* broadcast *)
    revert Hstep. unfold hub_step, broadcast, bind, get. cbn [fst snd].
    rewrite broadcast_to_attached by exact Hloop.
    intros Hstep; inversion Hstep; subst s'.
    cbn [fst snd next_queue ready trace queues event_queues].
    repeat split; try assumption.
    apply Forall_app. split; [exact Hrd|].
    apply Forall_fmap. eapply Forall_impl; [exact Hlt|].
    cbn. intros q Hq. split; [exact Hq | exact Hop].
  - (* a turn of the event loop *)
    revert Hstep. run_hub_op. destruct rd as [|[q0 p0] rd].
    + intros Hstep; inversion Hstep; subst s'.
      cbn [fst snd next_queue ready trace queues]. repeat split; assumption.
    + intros Hstep; inversion Hstep; subst s'.
      cbn [fst snd next_queue ready trace queues].
      apply Forall_cons in Hrd as [[Hq0 Hp0] Hrd]. cbn [fst snd] in Hq0, Hp0.
      repeat split.
      * intros q. rewrite yielded_app, received_app, received_put, yielded_put.
        rewrite app_nil_r.
        destruct (Nat.eqb q0 q) eqn:E.
        -- apply Nat.eqb_eq in E. subst q0. rewrite lookup_insert_eq. cbn [default from_option id].
           now rewrite app_assoc, Hsum.
        -- apply Nat.eqb_neq in E. rewrite lookup_insert_ne by exact E.
           rewrite app_nil_r. apply Hsum.
      * intros q Hq. rewrite received_app, received_put.
        replace (Nat.eqb q0 q) with false by (symmetry; apply Nat.eqb_neq; lia).
        rewrite app_nil_r. now apply Hnone.
      * exact Hrd.
      * intros q. destruct (decide (q = q0)) as [->|Hne].
        -- rewrite lookup_insert_eq. cbn [default from_option id]. apply Forall_app. split;
             [apply Hdict | now repeat constructor].
        -- rewrite lookup_insert_ne by congruence. apply Hdict.
  - (* a turn of a subscriber's generator *)
    revert Hstep. run_hub_op.
    pose proof (Hsum x) as Hx. pose proof (Hdict x) as Hdx.
    destruct (default [] (qs !! x)) as [|payload rest] eqn:Hwait;
      cbn -[lookup insert bool_decide].
    + intros Hstep; inversion Hstep; subst s'.
      cbn [fst snd next_queue ready trace queues]. repeat split; assumption.
    + apply Forall_cons in Hdx as [Hp Hrest].
      destruct payload as [| | | | |fields]; try contradiction.
      cbn -[lookup insert bool_decide].
      intros Hstep; inversion Hstep; subst s'.
      cbn [fst snd next_queue ready trace queues].
      repeat split.
      * intros q. rewrite yielded_app, received_app, received_yield, yielded_yield.
        rewrite app_nil_r.
        destruct (Nat.eqb x q) eqn:E.
        -- apply Nat.eqb_eq in E. subst q. rewrite lookup_insert_eq. cbn [default from_option id].
           rewrite <- Hx. now rewrite <- app_assoc.
        -- apply Nat.eqb_neq in E. rewrite lookup_insert_ne by exact E.
           rewrite app_nil_r. apply Hsum.
      * intros q Hq. rewrite received_app, received_yield.
        rewrite app_nil_r. now apply Hnone.
      * exact Hrd.
      * intros q. destruct (decide (q = x)) as [->|Hne].
        -- rewrite lookup_insert_eq. exact Hrest.
        -- rewrite lookup_insert_ne by congruence. apply Hdict.
Qed.

(** X16.  Nothing is lost or repeated between a queue and its subscriber:
    whatever the hub is asked to do, in whatever order the event loop and the
    generators take their turns, the payloads that a subscriber's generator has
    yielded, followed by those that wait on its queue, are exactly the
    payloads that were put on the queue, in the order they were put. *)
Theorem subscribers_get_their_queue_in_order (ops : list hub_op) (s : state) :
  hub_consistent s ->
  Forall publishes_dict ops ->
  exists s',
    hub_run ops s = (Ret tt, s') /\
    forall q, yielded q (trace (snd s')) ++ waiting q s' = received q (trace (snd s')).
Proof.
  intros Hs Hops.
  enough (exists s', hub_run ops s = (Ret tt, s') /\ hub_consistent s') as (s' & Hrun & Hs').
  { exists s'. split; [exact Hrun|]. apply Hs'. }
  revert s Hs. induction Hops as [|o ops Ho _ IH]; intros s Hs.
  - now exists s.
  - destruct (hub_consistent_step o s Hs Ho) as (s1 & Hstep & Hs1).
    destruct (IH s1 Hs1) as (s2 & Hrun & Hs2).
    exists s2. cbn [hub_run]. unfold bind at 1. rewrite Hstep. now split.
Qed.

End SubscriberFacts.

Section SubscriberInstances.
Import Detector DetectorApi.

Lemma started_hub_consistent : hub_consistent started_hub.
Proof.
  split; [repeat split; [discriminate | constructor | constructor]|].
  repeat split; intros; try reflexivity; constructor.
Qed.

Lemma register_then_unregister_restores_subscribers_witness :
  exists q s1 s2,
    register_queue (watching busy_frame) = (Ret q, s1) /\
    unregister_queue q s1 = (Ret tt, s2) /\
    event_queues (fst s2) = [0; 1]%nat.
Proof.
  assert (H : in_service (watching busy_frame)).
  { repeat split; [discriminate | | repeat constructor].
    apply NoDup_cons. split; [|apply NoDup_singleton].
    intros Hin. apply list_elem_of_singleton in Hin. discriminate. }
  destruct (register_then_unregister_restores_subscribers (watching busy_frame) H)
    as [(q & s1 & s2 & Hreg & _ & _ & Hun & Heq) _].
  exists q, s1, s2. split; [exact Hreg|]. split; [exact Hun | exact Heq].
Defined.

Lemma subscribers_get_their_queue_in_order_witness :
  let a := sample_event "person" 0.93 in
  let b := sample_event "bottle" 0.71 in
  let ops := [Register; Broadcast a; Broadcast b; LoopStep; LoopStep; Consume 0] in
  exists s',
    hub_run ops started_hub = (Ret tt, s') /\
    yielded 0 (trace (snd s')) = [a] /\ waiting 0 s' = [b] /\
    received 0 (trace (snd s')) = [a; b].
Proof.
  intros a b ops.
  assert (H : Forall publishes_dict ops) by (repeat constructor).
  destruct (subscribers_get_their_queue_in_order ops started_hub
              started_hub_consistent H) as (s' & Hrun & Hsum).
  exists s'. split; [exact Hrun|].
  assert (s' = snd (hub_run ops started_hub)) as -> by now rewrite Hrun.
  vm_compute. repeat split.
Defined.

End SubscriberInstances.

(** ** Discovery of the serial port *)

Section SerialDiscoveryFacts.
Import SerialDiscovery.

Lemma first_match_spec (h : string) (ports : list string) :
  match first_match h ports with
  | Some p =>
      exists before after,
        ports = before ++ p :: after /\ matches h p = true /\
        Forall (fun q => matches h q = false) before
  | None => Forall (fun q => matches h q = false) ports
  end.
Proof.
  induction ports as [|q ports IH]; cbn [first_match]; [constructor|].
  destruct (matches h q) eqn:E.
  - exists [], ports. repeat split; [exact E | constructor].
  - destruct (first_match h ports) as [p|].
    + destruct IH as (before & after & -> & Hp & Hb).
      exists (q :: before), after. repeat split; [exact Hp | now constructor].
    + now constructor.
Qed.

Lemma search_member (hints ports : list string) (p : string) :
  search hints ports = Some p -> p ∈ ports.
Proof.
  induction hints as [|h hints IH]; cbn [search]; [discriminate|].
  pose proof (first_match_spec h ports) as Hm.
  destruct (first_match h ports) as [q|]; [|exact IH].
  intros [= ->]. destruct Hm as (before & after & -> & _).
  apply elem_of_app. right. left.
Qed.

Lemma first_match_none (h : string) (ports : list string) :
  Forall (fun q => matches h q = false) ports -> first_match h ports = None.
Proof.
  induction 1 as [|q ports Hq _ IH]; [reflexivity|].
  cbn [first_match]. now rewrite Hq.
Qed.

Lemma first_match_found (h : string) (before after : list string) (p : string) :
  matches h p = true ->
  Forall (fun q => matches h q = false) before ->
  first_match h (before ++ p :: after) = Some p.
Proof.
  intros Hp. induction 1 as [|q before Hq _ IH]; cbn [app first_match].
  - now rewrite Hp.
  - now rewrite Hq.
Qed.

Lemma search_none (hints ports : list string) :
  (forall h q, h ∈ hints -> q ∈ ports -> matches h q = false) ->
  search hints ports = None.
Proof.
  induction hints as [|h hints IH]; intros Hno; [reflexivity|].
  cbn [search]. rewrite first_match_none.
  - apply IH. intros h' q Hh' Hq. apply Hno; [now right | exact Hq].
  - apply Forall_forall. intros q Hq. apply Hno; [left | exact Hq].
Qed.

(** X17.  The port that [find_default_serial_port] returns is always one of
    the listed ports: it returns [None] exactly when no port is listed (or
    pyserial is missing), and, for hints and device paths that are ASCII text,
    when no listed port matches any hint it falls back to the first listed
    port. *)
Theorem chosen_port_is_a_listed_port
    (list_ports preferred_substrings : option (list string)) :
  let ports := iter_serial_ports list_ports in
  let chosen := find_default_serial_port list_ports preferred_substrings in
  (chosen = None <-> ports = []) /\
  (forall p, chosen = Some p -> p ∈ ports) /\
  (Forall (fun h => PyStr.isascii h = true) (effective_hints preferred_substrings) ->
   Forall (fun q => PyStr.isascii q = true) ports ->
   (forall h q, h ∈ effective_hints preferred_substrings -> q ∈ ports ->
                matches h q = false) ->
   chosen = head ports).
Proof.
  intros ports chosen. subst chosen. unfold find_default_serial_port.
  fold ports. fold (effective_hints preferred_substrings).
  destruct ports as [|first rest] eqn:Hports; [repeat split; congruence|].
  split; [|split].
  - split; [|discriminate].
    now destruct (search (effective_hints preferred_substrings) (first :: rest)).
  - intros p. destruct (search _ _) as [q|] eqn:Hs.
    + intros [= ->]. eapply search_member, Hs.
    + intros [= ->]. left.
  - intros _ _ Hno. now rewrite (search_none _ _ Hno).
Qed.

(** X18.  The order of the hints decides, not the order of the ports.  For
    hints and device paths that are ASCII text: when no port matches any of the
    hints before [h], and [p] is the first listed port that matches [h], then
    [p] is chosen, also when ports listed before [p] match later hints.
    Matching ignores the case of the letters [A]-[Z]. *)
Theorem earlier_hint_wins
    (list_ports preferred_substrings : option (list string))
    (pre post before after : list string) (h p : string) :
  Forall (fun h => PyStr.isascii h = true) (effective_hints preferred_substrings) ->
  Forall (fun q => PyStr.isascii q = true) (iter_serial_ports list_ports) ->
  effective_hints preferred_substrings = pre ++ h :: post ->
  iter_serial_ports list_ports = before ++ p :: after ->
  (forall h' q, h' ∈ pre -> q ∈ before ++ p :: after -> matches h' q = false) ->
  matches h p = true ->
  Forall (fun q => matches h q = false) before ->
  find_default_serial_port list_ports preferred_substrings = Some p.
Proof.
  intros _ _ Hhints Hports Hpre Hp Hbefore. unfold find_default_serial_port.
  fold (effective_hints preferred_substrings). rewrite Hhints, Hports.
  assert (search (pre ++ h :: post) (before ++ p :: after) = Some p) as ->.
  { clear Hhints. induction pre as [|h' pre IH]; cbn [app search].
    - now rewrite first_match_found.
    - rewrite first_match_none.
      + apply IH. intros h0 q Hh0 Hq. apply Hpre; [now right | exact Hq].
      + apply Forall_forall. intros q Hq. apply Hpre; [left | exact Hq]. }
  now destruct before.
Qed.

End SerialDiscoveryFacts.

Section SerialDiscoveryInstances.
Import SerialDiscovery.

(** With the default hints, an adapter on USB is preferred to the ACM device
    listed before it, because "usb" comes before "ttyacm". *)
Lemma earlier_hint_wins_witness :
  find_default_serial_port
    (Some ["/dev/ttyS0"; "/dev/ttyACM0"; "/dev/ttyUSB0"]) None
  = Some "/dev/ttyUSB0".
Proof.
  apply (earlier_hint_wins _ None [] ["ttyacm"; "wch"; "ch340"]
           ["/dev/ttyS0"; "/dev/ttyACM0"] [] "usb" "/dev/ttyUSB0").
  - repeat constructor.
  - repeat constructor.
  - reflexivity.
  - reflexivity.
  - intros h' q Hh'. now apply elem_of_nil in Hh'.
  - vm_compute. reflexivity.
  - repeat constructor.
Defined.

End SerialDiscoveryInstances.

(** ** The watch set read from the environment *)

Section StripFacts.
Import EventsClient PyStr.

Lemma chars_inj (s t : string) : chars s = chars t -> s = t.
Proof.
  intros H. rewrite <- (String.string_of_list_ascii_of_string s),
    <- (String.string_of_list_ascii_of_string t).
  unfold chars in H. now rewrite H.
Qed.

Lemma chars_rev_app (s1 s2 : string) :
  chars (String.rev_app s1 s2) = rev (chars s1) ++ chars s2.
Proof.
  revert s2. induction s1 as [|c s1 IH]; intros s2; [reflexivity|].
  cbn [String.rev_app]. rewrite IH. cbn. now rewrite <- app_assoc.
Qed.

Lemma chars_rev (s : string) : chars (String.rev s) = rev (chars s).
Proof. unfold String.rev. rewrite chars_rev_app. cbn. apply app_nil_r. Qed.

Lemma chars_lstrip (s : string) : chars (lstrip s) = ltrim (chars s).
Proof.
  induction s as [|c s IH]; [reflexivity|].
  cbn [lstrip chars String.list_ascii_of_string ltrim].
  destruct (is_space c); [exact IH | reflexivity].
Qed.

Lemma chars_strip (s : string) :
  chars (strip s) = rev (ltrim (rev (ltrim (chars s)))).
Proof. unfold strip. now rewrite chars_rev, chars_lstrip, chars_rev, chars_lstrip. Qed.

Lemma ltrim_trimmed (l : list Ascii.ascii) : trimmed_left (ltrim l).
Proof.
  induction l as [|c l IH]; cbn; [exact I|].
  destruct (is_space c) eqn:E; [exact IH | exact E].
Qed.

Lemma ltrim_id (l : list Ascii.ascii) : trimmed_left l -> ltrim l = l.
Proof. destruct l as [|c l]; cbn; [reflexivity|]. now intros ->. Qed.

Lemma ltrim_suffix (l : list Ascii.ascii) : exists pre, l = pre ++ ltrim l.
Proof.
  induction l as [|c l [pre IH]]; [now exists []|].
  cbn [ltrim]. destruct (is_space c).
  - exists (c :: pre). cbn. now rewrite <- IH.
  - now exists [].
Qed.

Lemma rtrim_keeps_trimmed_left (a : list Ascii.ascii) :
  trimmed_left a -> trimmed_left (rev (ltrim (rev a))).
Proof.
  intros Ha. destruct (ltrim_suffix (rev a)) as [pre Hpre].
  assert (a = rev (ltrim (rev a)) ++ rev pre) as Ha'.
  { rewrite <- rev_app_distr, <- Hpre. now rewrite rev_involutive. }
  destruct (rev (ltrim (rev a))) as [|c r]; [exact I|].
  rewrite Ha' in Ha. exact Ha.
Qed.

(** What [strip] returns has no white space at either end: stripping it
    again changes nothing. *)
Lemma strip_idempotent (s : string) : strip (strip s) = strip s.
Proof.
  apply chars_inj. rewrite (chars_strip (strip s)), (chars_strip s).
  set (a := ltrim (chars s)). set (b := ltrim (rev a)).
  assert (trimmed_left a) as Ha by apply ltrim_trimmed.
  assert (trimmed_left b) as Hb by apply ltrim_trimmed.
  rewrite (ltrim_id (rev b)) by now apply rtrim_keeps_trimmed_left.
  rewrite rev_involutive. now rewrite (ltrim_id b).
Qed.

Lemma strip_blank (s : string) :
  forallb is_space (chars s) = true -> strip s = "".
Proof.
  intros H. apply chars_inj. rewrite chars_strip.
  assert (ltrim (chars s) = []) as ->; [|reflexivity].
  induction (chars s) as [|c l IH]; [reflexivity|].
  cbn in *. apply andb_true_iff in H as [-> H]. now apply IH.
Qed.

End StripFacts.

Section WatchClassFacts.
Import EventsClient PyStr EnvConfig.

Lemma kept_classes_spec (pieces : list string) (l : string) :
  l ∈ omap (fun cls => if negb (String.eqb (strip cls) "")
                       then Some (strip cls) else None) pieces ->
  l <> "" /\ exists cls, cls ∈ pieces /\ l = strip cls.
Proof.
  rewrite list_elem_of_omap. intros (cls & Hin & Hl).
  destruct (String.eqb (strip cls) "") eqn:E; cbn in Hl; [discriminate|].
  injection Hl as <-. apply String.eqb_neq in E. split; [exact E|]. now exists cls.
Qed.

(** X19.  Whatever ASCII text the environment variable holds, the watch set
    holds no empty label and no label with white space around it: every
    member is a trimmed, non-empty piece of the comma-separated text. *)
Theorem watch_classes_are_trimmed_and_non_empty (env : option string) (l : string) :
  PyStr.isascii (getenv env "person,bottle") = true ->
  l ∈ watch_classes env ->
  l <> "" /\ strip l = l /\
  exists piece, piece ∈ split "," (getenv env "person,bottle") /\ l = strip piece.
Proof.
  intros _. unfold watch_classes. rewrite elem_of_list_to_set. intros Hl.
  apply kept_classes_spec in Hl as (Hne & cls & Hin & ->).
  split; [exact Hne|]. split; [apply strip_idempotent|]. now exists cls.
Qed.

Lemma split_clean (l : string) :
  has_char "," l = false -> split "," l = [l].
Proof.
  induction l as [|c l IH]; [reflexivity|].
  cbn [has_char split]. intros H. apply orb_false_iff in H as [-> H].
  now rewrite IH.
Qed.

Lemma split_cons (l rest : string) :
  has_char "," l = false ->
  split "," (l +:+ String "," rest) = l :: split "," rest.
Proof.
  induction l as [|c l IH]; intros H; [reflexivity|].
  cbn [has_char] in H. apply orb_false_iff in H as [Hc H].
  change (String c l +:+ String "," rest) with (String c (l +:+ String "," rest)).
  cbn [split]. rewrite Hc. now rewrite IH.
Qed.

Lemma split_join (ls : list string) :
  ls <> [] ->
  Forall (fun l => has_char "," l = false) ls ->
  split "," (join "," ls) = ls.
Proof.
  intros Hne Hls. induction Hls as [|l ls Hl Hls IH]; [congruence|].
  unfold join in *. cbn [String.concat]. destruct ls as [|l' ls].
  - now apply split_clean.
  - change (l +:+ "," +:+ String.concat "," (l' :: ls))
      with (l +:+ String "," (String.concat "," (l' :: ls))).
    rewrite split_cons by exact Hl. f_equal. now apply IH.
Qed.

(** X20.  Writing a watch set and reading it back: for labels that are
    ASCII text, are not empty, hold no comma and have no white space at their
    ends, the watch set read from the labels joined with commas is exactly the
    set of these labels. *)
Theorem watch_classes_round_trip (labels : list string) :
  Forall clean_label labels ->
  watch_classes (Some (join "," labels)) = list_to_set labels.
Proof.
  intros Hclean. unfold watch_classes, getenv. cbn [default from_option id].
  destruct labels as [|l0 ls]; [reflexivity|].
  rewrite split_join; [|discriminate|].
  - f_equal. induction Hclean as [|l ls' (_ & Hne & _ & Hstrip) _ IH]; [reflexivity|].
    cbn [omap list_omap]. rewrite Hstrip.
    apply String.eqb_neq in Hne. rewrite Hne. cbn [negb]. now rewrite IH.
  - eapply Forall_impl; [exact Hclean|]. now intros l (_ & _ & H & _).
Qed.

Lemma blank_pieces (s : string) :
  blank s = true -> Forall (fun piece => forallb is_space (chars piece) = true) (split "," s).
Proof.
  induction s as [|c s IH]; [repeat constructor|].
  cbn [blank split]. intros H. apply andb_true_iff in H as [Hc Hs].
  specialize (IH Hs). destruct (Ascii.eqb c ",") eqn:E.
  - now constructor.
  - cbn in Hc. destruct (split "," s) as [|piece pieces]; [repeat constructor; cbn; now rewrite Hc|].
    apply Forall_cons in IH as [Hp Hps]. constructor; [|exact Hps].
    cbn. now rewrite Hc.
Qed.

Lemma blank_watch_classes (s : string) : blank s = true -> watch_classes (Some s) = ∅.
Proof.
  intros H. unfold watch_classes, getenv. cbn [default from_option id].
  pose proof (blank_pieces s H) as Hp.
  induction Hp as [|piece pieces Hpiece _ IH]; [reflexivity|].
  cbn [omap list_omap]. rewrite (strip_blank piece Hpiece). cbn. exact IH.
Qed.

End WatchClassFacts.

Section BlankWatchSet.
Import Orchestrator EnvConfig.

(** X21.  A [WATCH_CLASSES] variable that is set but names no class (empty,
    or commas and white space only) gives an empty watch set, not the default
    one; the runtime then never writes to the serial port, whatever event it
    is given. *)
Theorem blank_watch_classes_disable_the_sequencer
    (env : string) (cfg : detection_config) (event : json) (rt : runtime) (w : world) :
  blank env = true ->
  WATCH_CLASSES cfg = watch_classes (Some env) ->
  watch_classes (Some env) = ∅ /\
  exists r rt' w',
    _handle_event cfg event (rt, w) = (r, (rt', w')) /\
    serial_cmds (trace w') = serial_cmds (trace w) /\
    serial_script w' = serial_script w.
Proof.
  intros Hblank Hcfg. pose proof (blank_watch_classes env Hblank) as Hempty.
  split; [exact Hempty|]. rewrite Hempty in Hcfg.
  destruct w as [c ss ps hs tr], rt as [yp el ld cd].
  assert (forall (r : outcome unit) (rt0 : runtime) (tr0 : list effect),
    serial_cmds tr0 = serial_cmds tr ->
    exists (r' : outcome unit) rt' w',
      (r, (rt0, {| clock := c; serial_script := ss; poll_script := ps;
                   http_script := hs; trace := tr0 |})) = (r', (rt', w')) /\
      serial_cmds (trace w') = serial_cmds tr /\ serial_script w' = ss) as Hdone.
  { intros r rt0 tr0 Htr0. eexists r, rt0, _. split; [reflexivity|]. now split. }
  unfold _handle_event, dict_get, in_str_set, record_detection, logger, emit,
    modify, raise, bind, get, ret.
  rewrite Hcfg.
  destruct event as [| | | | |efields]; try (now apply Hdone).
  cbn -[truthy assoc_last bool_decide _execute_safety_sequence with_detection].
  destruct (default JNull (assoc_last "type" efields)) as [| | |ty| |];
    try (now apply Hdone).
  destruct (String.eqb ty "detection"); cbn [negb]; [|now apply Hdone].
  destruct (truthy (default JNull (assoc_last "payload" efields))).
  - destruct (default JNull (assoc_last "payload" efields)) as [| | | | |pfields];
      try (now apply Hdone).
    cbn -[truthy assoc_last bool_decide _execute_safety_sequence with_detection].
    destruct (truthy (default JNull (assoc_last "label" pfields))); cbn [negb];
      [|now apply Hdone].
    destruct (default JNull (assoc_last "label" pfields));
      cbn -[assoc_last _execute_safety_sequence with_detection];
      apply Hdone; unfold serial_cmds; rewrite omap_app; cbn; apply app_nil_r.
  - cbn. now apply Hdone.
Qed.

End BlankWatchSet.

Section WatchClassInstances.
Import Orchestrator EnvConfig.

Lemma watch_classes_are_trimmed_and_non_empty_witness :
  "bottle" <> "" /\ EventsClient.strip "bottle" = "bottle".
Proof.
  assert (H0 : PyStr.isascii (getenv (Some " person , ,bottle,") "person,bottle") = true)
    by reflexivity.
  assert (H : "bottle" ∈ watch_classes (Some " person , ,bottle,"))
    by (vm_compute; reflexivity).
  destruct (watch_classes_are_trimmed_and_non_empty _ _ H0 H) as (H1 & H2 & _).
  split; [exact H1 | exact H2].
Defined.

Lemma watch_classes_round_trip_witness :
  watch_classes (Some "person,traffic light,bottle")
  = list_to_set ["person"; "traffic light"; "bottle"].
Proof.
  assert (H : Forall clean_label ["person"; "traffic light"; "bottle"])
    by (repeat constructor; discriminate).
  exact (watch_classes_round_trip _ H).
Defined.

Lemma blank_watch_classes_disable_the_sequencer_witness :
  watch_classes (Some " , ") = ∅ /\
  exists r rt' w',
    _handle_event (config_watching (watch_classes (Some " , ")))
      (Scenario.detection_event (Scenario.seen "person" 1700000000))
      (Scenario.fresh_runtime, Scenario.quiet_world 1700000000)
    = (r, (rt', w')) /\
    serial_cmds (trace w') = [] /\ serial_script w' = [].
Proof.
  assert (H1 : blank " , " = true) by reflexivity.
  exact (blank_watch_classes_disable_the_sequencer " , "
           (config_watching (watch_classes (Some " , ")))
           (Scenario.detection_event (Scenario.seen "person" 1700000000))
           Scenario.fresh_runtime (Scenario.quiet_world 1700000000) H1 eq_refl).
Defined.

End WatchClassInstances.

(** ** The zeroconf handle *)

Section ZeroconfFacts.
Import ZeroconfRegister.
Variable ip_address : string -> option (list Byte.byte).

Ltac run_handle :=
  unfold handle_step, close, unregister, register, set_info, lift, zeroconf_call,
    detect_local_ip, _get_address_bytes, try_finally, emit, modify, raise, bind, get, ret;
  cbn -[String.append str_of_int].

Lemma registered_after_app (b : bool) (tr1 tr2 : list effect) :
  registered_after b (tr1 ++ tr2)
  = match registered_after b tr1 with
    | Some b' => registered_after b' tr2
    | None => None
    end.
Proof.
  revert b. induction tr1 as [|e tr1 IH]; intros b; [reflexivity|].
  destruct e; cbn [app registered_after]; try apply IH; destruct b; auto.
Qed.

Lemma handle_step_alternates (o : handle_op) (h : ZeroconfHandle) (w : world) :
  zeroconf_script w = [] ->
  registered_after false (trace w) = Some (holds_info h) ->
  let s' := snd (handle_step ip_address o (h, w)) in
  zeroconf_script (snd s') = [] /\
  registered_after false (trace (snd s')) = Some (holds_info (fst s')).
Proof.
  intros Hscript Hreg. destruct w as [ss zs tr], h as [n ty p props a info].
  cbn [zeroconf_script trace] in *. subst zs. unfold holds_info in *.
  cbn [_info] in *.
  destruct o, info as [info|]; run_handle.
  2: destruct a as [a0|]; [destruct (String.eqb a0 "")|];
     try destruct ss as [|[ip|] ss]; run_handle;
     match goal with
     | |- context [ip_address ?x] => destruct (ip_address x)
     end; run_handle.
  all: split; [reflexivity|].
  all: rewrite <- ?app_assoc, ?registered_after_app, ?Hreg; try reflexivity.
Qed.

(** X22.  While the zeroconf library raises nothing, a handle never
    registers its service twice in a row and never unregisters a service that
    is not registered: whatever the order in which [register], [unregister] and
    [close] are called, the calls of [register_service] and
    [unregister_service] alternate, starting with a registration, and [_info]
    is set exactly while the service is registered. *)
Theorem registrations_alternate_with_unregistrations
    (ops : list handle_op) (h : ZeroconfHandle) (w : world) :
  zeroconf_script w = [] ->
  registered_after false (trace w) = Some (holds_info h) ->
  let s' := handle_run ip_address ops (h, w) in
  registered_after false (trace (snd s')) = Some (holds_info (fst s')).
Proof.
  revert h w. induction ops as [|o ops IH]; intros h w Hscript Hreg; [exact Hreg|].
  cbn [handle_run].
  destruct (handle_step_alternates o h w Hscript Hreg) as [Hscript' Hreg'].
  destruct (snd (handle_step ip_address o (h, w))) as [h' w'].
  now apply IH.
Qed.

(** X23.  [close] always closes the zeroconf instance: whether the handle
    was registered or not, and whether unregistering succeeds or raises,
    [Zeroconf.close] is called exactly once, as the last action.  When
    [close] returns normally the handle holds no service any more. *)
Theorem close_always_closes_zeroconf (h : ZeroconfHandle) (w : world) :
  exists r h' w' before raised,
    close (h, w) = (r, (h', w')) /\
    trace w' = trace w ++ before ++ [Close raised] /\
    closes before = 0%nat /\
    (r = Ret tt -> _info h' = None /\ raised = None).
Proof.
  destruct w as [ss zs tr], h as [n ty p props a info].
  destruct info as [info|]; [destruct zs as [|[e1|] [|[e2|] zs]] | destruct zs as [|[e1|] zs]];
    run_handle.
  all: eexists _, _, _;
    (exists [Log DEBUG "Closing zeroconf handle for %s" [n]] + eexists [_; _; _]);
    eexists; (split; [reflexivity|]); split;
    [cbn; rewrite <- ?app_assoc; reflexivity|];
    split; [reflexivity|]; intros Hr; try discriminate; now split.
Qed.

(** X24.  A registration that fails is not retried: when
    [register_service] raises, [register] passes the exception on but has
    already stored the service info, so that a second call of [register]
    returns at once, without any call of the library, while the service is not
    registered. *)
Theorem failed_registration_is_not_retried
    (h : ZeroconfHandle) (w : world) (a : string) (packed : list Byte.byte)
    (e : exn) (rest : list (option exn)) :
  _info h = None ->
  address h = Some a ->
  a <> "" ->
  ip_address a = Some packed ->
  zeroconf_script w = Some e :: rest ->
  exists h1 w1 info,
    register ip_address (h, w) = (Raise e, (h1, w1)) /\
    _info h1 = Some info /\
    last (trace w1) = Some (RegisterService info (Some e)) /\
    zeroconf_script w1 = rest /\
    register ip_address (h1, w1)
    = (Ret tt,
       (h1, {| socket_script := socket_script w1; zeroconf_script := rest;
               trace := trace w1
                 ++ [Log DEBUG "Zeroconf service %s already registered" [name h1]] |})).
Proof.
  intros Hinfo Haddr Hne Hip Hscript.
  destruct w as [ss zs tr], h as [n ty p props a0 info].
  cbn [_info address zeroconf_script] in *. subst info a0 zs.
  apply String.eqb_neq in Hne.
  run_handle. rewrite Hne. run_handle. rewrite Hip. run_handle.
  eexists _, _, _. split; [reflexivity|]. split; [reflexivity|].
  split; [|split; [reflexivity|]].
  - cbn. now rewrite last_snoc.
  - run_handle. reflexivity.
Qed.

End ZeroconfFacts.

Section ZeroconfInstances.
Import ZeroconfRegister.

Lemma registrations_alternate_with_unregistrations_witness :
  let s' := handle_run toy_ip_address
              [Register; Register; CloseHandle; Unregister; Register]
              (orchestrator_handle, quiet_world) in
  registered_after false (trace (snd s')) = Some true /\ holds_info (fst s') = true.
Proof.
  intros s'.
  pose proof (registrations_alternate_with_unregistrations toy_ip_address
                [Register; Register; CloseHandle; Unregister; Register]
                orchestrator_handle quiet_world eq_refl eq_refl) as H.
  split; [exact H | reflexivity].
Defined.

Lemma failed_registration_is_not_retried_witness :
  let w := {| socket_script := [];
              zeroconf_script := [Some (RuntimeError "NonUniqueNameException")];
              trace := [] |} in
  exists h1 w1,
    register toy_ip_address (orchestrator_handle, w)
    = (Raise (RuntimeError "NonUniqueNameException"), (h1, w1)) /\
    fst (register toy_ip_address (h1, w1)) = Ret tt /\
    registrations (trace (snd (snd (register toy_ip_address (h1, w1))))) = 1%nat.
Proof.
  intros w.
  assert (H3 : "192.168.1.20" <> "") by discriminate.
  destruct (failed_registration_is_not_retried toy_ip_address orchestrator_handle w
              "192.168.1.20" [Byte.xc0; Byte.xa8; Byte.x01; Byte.x14]
              (RuntimeError "NonUniqueNameException") []
              eq_refl eq_refl H3 eq_refl eq_refl)
    as (h1 & w1 & info & Hrun & Hinfo & Hlast & Hscript & Hagain).
  exists h1, w1. split; [exact Hrun|].
  rewrite Hagain. split; [reflexivity|].
  inversion Hrun; subst. reflexivity.
Defined.

End ZeroconfInstances.

(** ** The thread of the event client *)

Section ClientThreadFacts.
Import ClientThread.

Ltac run_client :=
  unfold client_step, start, stop, thread_start, thread_join, set_stop_event, emit,
    modify, bind, get, ret;
  cbn -[bool_decide union difference].

Lemma client_step_tracked (o : client_op) (s : state) :
  tracked s -> exists s', client_step o s = (Ret tt, s') /\ tracked s'.
Proof.
  destruct s as [[u se th] [al nt js tr]]. unfold tracked. cbn [fst snd alive _thread next_thread].
  intros [Halive Hnext]. destruct o as [| |t0].
  - (* start *)
    run_client.
    destruct (match th with Some t => bool_decide (t ∈ al) | None => false end) eqn:Hrun;
      run_client.
    + eexists. split; [reflexivity|]. now split.
    + eexists. split; [reflexivity|]. cbn [fst snd alive _thread next_thread]. split.
      * intros t Ht. apply elem_of_union in Ht as [Ht|Ht].
        -- apply elem_of_singleton in Ht. now subst.
        -- specialize (Halive t Ht). subst th.
           apply bool_decide_eq_false in Hrun. contradiction.
      * intros t [= <-]. lia.
  - (* stop *)
    run_client. destruct th as [t|]; run_client.
    + destruct (bool_decide (t ∈ al)) eqn:Hrun; [destruct js as [|[|] js]|]; run_client.
      all: eexists; (split; [reflexivity|]); cbn [fst snd alive _thread next_thread].
      all: split; [|exact Hnext].
      all: intros t' Ht'; try apply elem_of_difference in Ht' as [Ht' _].
      all: now apply Halive.
    + eexists. split; [reflexivity|]. now split.
  - (* a thread ends *)
    run_client. eexists. split; [reflexivity|]. cbn [fst snd alive _thread next_thread].
    split; [|exact Hnext].
    intros t Ht. apply elem_of_difference in Ht as [Ht _]. now apply Halive.
Qed.

(** X25.  A client never has two reader threads: however [start] and
    [stop] are called, and whenever threads end, at every moment at most one
    thread of the client runs, and it is the one that the client holds in
    [_thread]; [start] does nothing while that thread is alive. *)
Theorem client_runs_at_most_one_thread (ops : list client_op) (s : state) :
  tracked s ->
  exists s',
    client_run ops s = (Ret tt, s') /\
    (forall t, t ∈ alive (snd s') -> _thread (fst s') = Some t) /\
    (forall t1 t2, t1 ∈ alive (snd s') -> t2 ∈ alive (snd s') -> t1 = t2).
Proof.
  intros Hs.
  enough (exists s', client_run ops s = (Ret tt, s') /\ tracked s') as (s' & Hrun & Hs').
  { exists s'. split; [exact Hrun|]. destruct Hs' as [Halive _]. split; [exact Halive|].
    intros t1 t2 H1 H2. apply Halive in H1, H2. congruence. }
  revert s Hs. induction ops as [|o ops IH]; intros s Hs.
  - now exists s.
  - destruct (client_step_tracked o s Hs) as (s1 & Hstep & Hs1).
    destruct (IH s1 Hs1) as (s2 & Hrun & Hs2).
    exists s2. cbn [client_run]. unfold bind at 1. rewrite Hstep. now split.
Qed.

End ClientThreadFacts.

Section ClientThreadInstances.
Import ClientThread.

(** The client is started twice, stopped while its thread does not end in
    time, and started again: only one thread was ever started. *)
Lemma client_runs_at_most_one_thread_witness :
  let s := (__init__ "http://127.0.0.1:8001/events",
            {| alive := ∅; next_thread := 0; join_script := [false]; trace := [] |}) in
  exists s',
    client_run [Start; Start; Stop; Start] s = (Ret tt, s') /\
    trace (snd s') = [ThreadStart 0; Join 0 2.0 false] /\
    _stop_event (fst s') = true.
Proof.
  intros s.
  assert (H : tracked s).
  { split; cbn; [intros t Ht; now apply elem_of_empty in Ht | discriminate]. }
  destruct (client_runs_at_most_one_thread [Start; Start; Stop; Start] s H)
    as (s' & Hrun & _).
  exists s'. split; [exact Hrun|].
  assert (s' = snd (client_run [Start; Start; Stop; Start] s)) as ->
    by now rewrite Hrun.
  vm_compute. split; reflexivity.
Defined.

End ClientThreadInstances.

(** ** The child process, and stopping the runtime *)

Section LifecycleFacts.
Import Lifecycle.
Variable cfg : detection_config.
Variable net : network_config.
Variable sys_executable : string.
Variable ip_address : string -> option (list Byte.byte).

Ltac run_lifecycle :=
  unfold _launch_yolo_server, _terminate_process, popen, process_wait,
    set_yolo_process, set_events_client, set_zeroconf_handle, set_shutdown,
    lift_core, emit, yolo_process,
    Orchestrator.process_poll, Orchestrator.logger, Orchestrator.emit,
    modify, raise, bind, get, ret;
  cbn -[Qltb Qplus Qminus Qmult Qle Qlt String.append str_of_int PyStr.join].

(** What [_terminate_process] does, case by case. *)
Lemma terminate_process_spec
    (process : Z) (wait : Q) (s : state) :
  let polled := default None (head (Orchestrator.poll_script (snd (core s)))) in
  let exited := default true (head (wait_script s)) in
  exists s',
    _terminate_process process wait s = (Ret tt, s') /\
    trace s' = trace s ++
      match polled with
      | Some _ => []
      | None =>
          Terminate process :: Wait process wait exited
          :: (if exited then [] else [Kill process])
      end /\
    events_client s' = events_client s /\
    zeroconf_handle s' = zeroconf_handle s /\
    _shutdown s' = _shutdown s /\
    yolo_process s' = yolo_process s.
Proof.
  destruct s as [ec zh sd [rt [c ss ps hs tr0]] th zc pop ws tr].
  cbn [core snd Orchestrator.poll_script wait_script trace].
  destruct ps as [|[code|] ps]; run_lifecycle.
  2:{ eexists. split; [reflexivity|]. rewrite app_nil_r. now destruct rt. }
  all: destruct ws as [|[|] ws]; run_lifecycle.
  all: eexists; (split; [reflexivity|]); cbn; rewrite <- ?app_assoc; now destruct rt.
Qed.

(** X26.  Ending a child process escalates, and only as far as needed: a
    child that has already exited is sent nothing; a running child is sent
    [terminate], and [kill] follows exactly when the child has not exited when
    the wait of [wait] seconds expires.  The call itself never raises. *)
Theorem child_is_killed_only_after_the_wait_expired
    (process : Z) (wait : Q) (s : state) :
  let polled := default None (head (Orchestrator.poll_script (snd (core s)))) in
  let exited := default true (head (wait_script s)) in
  exists s',
    _terminate_process process wait s = (Ret tt, s') /\
    trace s' = trace s ++
      match polled with
      | Some _ => []
      | None =>
          Terminate process :: Wait process wait exited
          :: (if exited then [] else [Kill process])
      end /\
    events_client s' = events_client s /\
    zeroconf_handle s' = zeroconf_handle s /\
    _shutdown s' = _shutdown s /\
    yolo_process s' = yolo_process s.
Proof. apply terminate_process_spec. Qed.

(** X27.  [_launch_yolo_server] starts a child exactly when none is
    running: with no child, or with a child that has exited, it starts one
    [uvicorn] process for the configured host and port and tracks it; while the
    tracked child runs, a further call starts nothing and keeps the child. *)
Theorem child_is_launched_only_when_none_runs (s : state) :
  let running :=
    match yolo_process s with
    | Some _ =>
        match default None (head (Orchestrator.poll_script (snd (core s)))) with
        | None => true
        | Some _ => false
        end
    | None => false
    end in
  exists s',
    _launch_yolo_server cfg sys_executable s = (Ret tt, s') /\
    if running then trace s' = trace s /\ yolo_process s' = yolo_process s
    else
      let process := default 1%Z (head (popen_script s)) in
      trace s' = trace s ++
        [Popen [sys_executable; "-m"; "uvicorn"; "backend.yolo_server:app";
                "--host"; YOLO_SERVER_HOST cfg;
                "--port"; str_of_int (YOLO_SERVER_PORT cfg)] process] /\
      yolo_process s' = Some process.
Proof.
  destruct s as [ec zh sd [[yp el ld cd] [c ss ps hs tr0]] th zc pop ws tr].
  cbn [core fst snd Orchestrator.poll_script Orchestrator.yolo_process popen_script
       trace yolo_process].
  destruct yp as [pid|]; [destruct ps as [|[code|] ps]|]; run_lifecycle.
  1,2,3: try (eexists; split; [reflexivity|]; now split).
  all: destruct pop as [|p pop]; run_lifecycle.
  all: eexists; (split; [reflexivity|]); now split.
Qed.

Lemma client_stop_returns (c : ClientThread.DetectionEventsClient)
    (t : ClientThread.world) :
  exists c' t', ClientThread.stop (c, t) = (Ret tt, (c', t')).
Proof.
  destruct c as [u se th], t as [al nt js tr].
  unfold ClientThread.stop, ClientThread.thread_join, ClientThread.set_stop_event,
    ClientThread.emit, modify, bind, get, ret.
  destruct th as [t|]; cbn -[bool_decide difference]; [|now eexists _, _].
  destruct (bool_decide (t ∈ al)); [destruct js as [|[|] js]|]; cbn -[difference];
    now eexists _, _.
Qed.

Lemma bind_ret_eq {S A B} (m : M S A) (k : A -> M S B) (s s1 : S) (a : A) :
  m s = (Ret a, s1) -> bind m k s = k a s1.
Proof. intros H. unfold bind. now rewrite H. Qed.

Lemma bind_raise_eq {S A B} (m : M S A) (k : A -> M S B) (s s1 : S) (e : exn) :
  m s = (Raise e, s1) -> bind m k s = (Raise e, s1).
Proof. intros H. unfold bind. now rewrite H. Qed.

Lemma bind_get_eq {S B} (k : S -> M S B) (s : S) : bind get k s = k s s.
Proof. reflexivity. Qed.

(** The three parts of [stop]. *)
Lemma stop_client_part (s : state) :
  exists s1,
    (match events_client s with
     | Some _ => on_events_client ClientThread.stop;; set_events_client None
     | None => ret tt
     end)%py s = (Ret tt, s1) /\
    events_client s1 = None /\ zeroconf_handle s1 = zeroconf_handle s /\
    _shutdown s1 = _shutdown s /\ core s1 = core s /\ zeroconf s1 = zeroconf s /\
    trace s1 = trace s.
Proof.
  destruct s as [ec zh sd c0 th zc pop ws tr]. cbn [events_client].
  destruct ec as [c|]; [|eexists; split; [reflexivity|]; now repeat split].
  destruct (client_stop_returns c th) as (c' & th1 & Hstop).
  unfold bind, on_events_client, set_events_client, modify.
  cbn [events_client threads]. rewrite Hstop.
  eexists. split; [reflexivity|]. now repeat split.
Qed.

Lemma stop_zeroconf_part (s : state) :
  exists r s1,
    (match zeroconf_handle s with
     | Some _ => on_zeroconf_handle ZeroconfRegister.close;; set_zeroconf_handle None
     | None => ret tt
     end)%py s = (r, s1) /\
    events_client s1 = events_client s /\ _shutdown s1 = _shutdown s /\
    core s1 = core s /\ trace s1 = trace s /\
    (r = Ret tt -> zeroconf_handle s1 = None) /\
    (forall e, r = Raise e ->
       exists h h' z',
         zeroconf_handle s = Some h /\
         ZeroconfRegister.close (h, zeroconf s) = (Raise e, (h', z')) /\
         zeroconf_handle s1 = Some h').
Proof.
  destruct s as [ec zh sd c0 th zc pop ws tr]. cbn [zeroconf_handle zeroconf].
  destruct zh as [h|].
  2:{ eexists _, _. split; [reflexivity|]. repeat split; discriminate. }
  unfold bind, on_zeroconf_handle, set_zeroconf_handle, modify.
  cbn [zeroconf_handle zeroconf].
  destruct (ZeroconfRegister.close (h, zc)) as [[[]|e] [h' zc']] eqn:Hclose.
  - eexists _, _. split; [reflexivity|]. repeat split; discriminate.
  - eexists _, _. split; [reflexivity|]. repeat split; try discriminate.
    intros e0 [= <-]. now exists h, h', zc'.
Qed.

Lemma stop_process_part (s : state) :
  exists s1,
    (match yolo_process s with
     | Some process =>
         lift_core (Orchestrator.logger Orchestrator.INFO
                      "Stopping YOLO server subprocess" []);;
         _terminate_process process 5.0;;
         set_yolo_process None
     | None => ret tt
     end)%py s = (Ret tt, s1) /\
    yolo_process s1 = None /\ events_client s1 = events_client s /\
    zeroconf_handle s1 = zeroconf_handle s /\ _shutdown s1 = _shutdown s.
Proof.
  destruct s as [ec zh sd [[yp el ld cd] w0] th zc pop ws tr].
  cbn [yolo_process core fst Orchestrator.yolo_process].
  destruct yp as [pid|].
  2:{ eexists. split; [reflexivity|]. now repeat split. }
  unfold bind at 1. unfold lift_core at 1, Orchestrator.logger, Orchestrator.emit, modify.
  cbn [events_client zeroconf_handle _shutdown core threads zeroconf popen_script
       wait_script trace].
  match goal with
  | |- context [bind (_terminate_process pid 5.0) _ ?s0] =>
      destruct (terminate_process_spec pid 5.0 s0)
        as (s1 & Hterm & _ & Hec & Hzh & Hsd & _)
  end.
  rewrite (bind_ret_eq _ _ _ _ _ Hterm).
  destruct s1 as [ec1 zh1 sd1 [[yp1 el1 ld1 cd1] w1] th2 zc1 pop1 ws1 tr1].
  cbn [events_client zeroconf_handle _shutdown] in Hec, Hzh, Hsd. subst.
  eexists. split; [reflexivity|]. now repeat split.
Qed.

Lemma stop_phases (s : state) :
  exists r s',
    stop s = (r, s') /\
    _shutdown s' = true /\
    (r = Ret tt ->
     events_client s' = None /\ zeroconf_handle s' = None /\ yolo_process s' = None).
Proof.
  unfold stop.
  erewrite bind_ret_eq by (unfold set_shutdown, modify; reflexivity).
  rewrite bind_get_eq.
  match goal with
  | |- context [bind _ _ ?s0] =>
      destruct (stop_client_part s0) as (s1 & H1 & Hec1 & Hzh1 & Hsd1 & Hc1 & Hz1 & Ht1)
  end.
  rewrite (bind_ret_eq _ _ _ _ _ H1). rewrite bind_get_eq.
  destruct (stop_zeroconf_part s1) as (r2 & s2 & H2 & Hec2 & Hsd2 & Hc2 & Ht2 & Hok2 & _).
  destruct r2 as [[]|e].
  2:{ rewrite (bind_raise_eq _ _ _ _ _ H2). eexists _, _. split; [reflexivity|].
      split; [|discriminate]. now rewrite Hsd2, Hsd1. }
  rewrite (bind_ret_eq _ _ _ _ _ H2). rewrite bind_get_eq.
  destruct (stop_process_part s2) as (s3 & H3 & Hyp3 & Hec3 & Hzh3 & Hsd3).
  rewrite H3. eexists _, _. split; [reflexivity|].
  split; [now rewrite Hsd3, Hsd2, Hsd1|]. intros _.
  split; [now rewrite Hec3, Hec2|]. split; [|exact Hyp3].
  rewrite Hzh3. now apply Hok2.
Qed.

Lemma stop_when_stopped (s : state) :
  _shutdown s = true -> events_client s = None -> zeroconf_handle s = None ->
  yolo_process s = None ->
  stop s = (Ret tt, s).
Proof.
  destruct s as [ec zh sd [[yp el ld cd] w0] th zc pop ws tr].
  cbn [_shutdown events_client zeroconf_handle yolo_process core fst
       Orchestrator.yolo_process].
  now intros -> -> -> ->.
Qed.

(** X28.  [stop] can be called again: it always sets the shutdown flag, and
    when it returns normally the runtime holds no event client, no zeroconf
    handle and no child process any more, so that a second call does
    nothing: no thread is joined, nothing is closed and no process is polled
    or signalled. *)
Theorem stop_is_idempotent (s : state) :
  exists r s',
    stop s = (r, s') /\
    _shutdown s' = true /\
    (r = Ret tt ->
     events_client s' = None /\ zeroconf_handle s' = None /\ yolo_process s' = None /\
     stop s' = (Ret tt, s')).
Proof.
  destruct (stop_phases s) as (r & s' & Hstop & Hsd & Hdone).
  exists r, s'. split; [exact Hstop|]. split; [exact Hsd|].
  intros Hr. destruct (Hdone Hr) as (Hec & Hzh & Hyp).
  repeat split; try assumption. now apply stop_when_stopped.
Qed.

(** X29.  [stop] gives up at the first exception: when closing the zeroconf
    handle raises, the exception leaves [stop] before the child process is
    looked at, so the child is neither polled nor signalled and stays tracked,
    and the handle stays in place; the event client has already been
    stopped and dropped. *)
Theorem failing_zeroconf_close_leaves_the_child_running
    (s : state) (h h' : ZeroconfRegister.ZeroconfHandle)
    (z' : ZeroconfRegister.world) (e : exn) :
  zeroconf_handle s = Some h ->
  ZeroconfRegister.close (h, zeroconf s) = (Raise e, (h', z')) ->
  exists s',
    stop s = (Raise e, s') /\
    events_client s' = None /\
    zeroconf_handle s' = Some h' /\
    yolo_process s' = yolo_process s /\
    core s' = core s /\
    trace s' = trace s.
Proof.
  intros Hzh Hclose. unfold stop.
  erewrite bind_ret_eq by (unfold set_shutdown, modify; reflexivity).
  rewrite bind_get_eq.
  match goal with
  | |- context [bind _ _ ?s0] =>
      destruct (stop_client_part s0) as (s1 & H1 & Hec1 & Hzh1 & Hsd1 & Hc1 & Hz1 & Ht1)
  end.
  rewrite (bind_ret_eq _ _ _ _ _ H1). rewrite bind_get_eq.
  cbn [zeroconf_handle core zeroconf trace] in Hzh1, Hc1, Hz1, Ht1.
  rewrite Hzh in Hzh1.
  rewrite Hzh1.
  assert ((on_zeroconf_handle ZeroconfRegister.close;; set_zeroconf_handle None)%py s1
          = (Raise e,
             {| events_client := events_client s1; zeroconf_handle := Some h';
                _shutdown := _shutdown s1; core := core s1; threads := threads s1;
                zeroconf := z'; popen_script := popen_script s1;
                wait_script := wait_script s1; trace := trace s1 |})) as H2.
  { apply bind_raise_eq. unfold on_zeroconf_handle. rewrite Hzh1, Hz1, Hclose.
    reflexivity. }
  rewrite (bind_raise_eq _ _ _ _ _ H2).
  eexists. split; [reflexivity|].
  cbn [events_client zeroconf_handle yolo_process core trace].
  rewrite Hc1, Ht1. now repeat split.
Qed.

End LifecycleFacts.

Section LifecycleInstances.
Import Lifecycle.

Lemma failing_zeroconf_close_leaves_the_child_running_witness :
  let s := {| events_client := None; zeroconf_handle := Some registered_handle;
              _shutdown := false;
              core := (Scenario.supervising_runtime, Scenario.quiet_world 1700000000);
              threads := ClientThread.no_threads;
              zeroconf := {| ZeroconfRegister.socket_script := [];
                             ZeroconfRegister.zeroconf_script :=
                               [Some (RuntimeError "EventLoopBlocked")];
                             ZeroconfRegister.trace := [] |};
              popen_script := []; wait_script := []; trace := [] |} in
  exists s',
    stop s = (Raise (RuntimeError "EventLoopBlocked"), s') /\
    yolo_process s' = Some 4242%Z /\
    trace s' = [].
Proof.
  intros s.
  destruct (failing_zeroconf_close_leaves_the_child_running s registered_handle
              registered_handle
              {| ZeroconfRegister.socket_script := [];
                 ZeroconfRegister.zeroconf_script := [];
                 ZeroconfRegister.trace :=
                   [ZeroconfRegister.Log ZeroconfRegister.DEBUG
                      "Closing zeroconf handle for %s" ["TrainShunting-Orchestrator"];
                    ZeroconfRegister.Log ZeroconfRegister.INFO
                      "Unregistering zeroconf service %s" ["TrainShunting-Orchestrator"];
                    ZeroconfRegister.UnregisterService
                      (default
                         {| ZeroconfRegister.ServiceInfo.type_ := "";
                            ZeroconfRegister.ServiceInfo.name := "";
                            ZeroconfRegister.ServiceInfo.port := 0;
                            ZeroconfRegister.ServiceInfo.addresses := [];
                            ZeroconfRegister.ServiceInfo.properties := [] |}
                         (ZeroconfRegister._info registered_handle))
                      (Some (RuntimeError "EventLoopBlocked"));
                    ZeroconfRegister.Close None] |}
              (RuntimeError "EventLoopBlocked") eq_refl)
    as (s' & Hstop & _ & _ & Hyp & _ & Htr).
  - vm_compute. reflexivity.
  - exists s'. split; [exact Hstop|]. split; [exact Hyp | exact Htr].
Defined.

End LifecycleInstances.

(** ** Starting the runtime when the detector never becomes healthy *)

Section StartFacts.
Import Lifecycle.
Variable cfg : detection_config.
Variable net : network_config.
Variable sys_executable : string.
Variable ip_address : string -> option (list Byte.byte).

Local Abbreviation never_ok hs :=
  (Forall (fun x : option Z * Q => fst x <> Some 200%Z /\ 0 <= snd x) hs).
Local Abbreviation still_running ps :=
  (Forall (fun r : option Z => r = None) ps).

Ltac run_poll :=
  unfold Orchestrator.health_iteration, Orchestrator.process_poll,
    Orchestrator.requests_get, Orchestrator.time_time, Orchestrator.time_sleep,
    Orchestrator.advance, Orchestrator.logger, Orchestrator.emit,
    modify, raise, bind, get, ret;
  cbn -[Qltb Qplus Qminus Qmult Qle Qlt bool_decide].

Lemma health_iteration_never_healthy url start timeout rt w :
  never_ok (Orchestrator.http_script w) ->
  still_running (Orchestrator.poll_script w) ->
  exists c w',
    Orchestrator.health_iteration url start timeout (rt, w) = (Ret c, (rt, w')) /\
    never_ok (Orchestrator.http_script w') /\
    still_running (Orchestrator.poll_script w') /\
    match c with
    | Orchestrator.Continue =>
        Orchestrator.clock w - start < timeout /\
        Orchestrator.clock w + 1 <= Orchestrator.clock w'
    | Orchestrator.Break =>
        timeout <= Orchestrator.clock w - start /\
        Orchestrator.clock w' = Orchestrator.clock w
    | Orchestrator.Return => False
    end.
Proof.
  intros Hhs Hps. destruct w as [c ss ps hs tr], rt as [yp el ld cd].
  cbn [Orchestrator.clock Orchestrator.http_script Orchestrator.poll_script] in *.
  run_poll.
  destruct (Qltb (c - start) timeout) eqn:Hin; run_poll.
  2:{ apply Qltb_ge in Hin. eexists Orchestrator.Break, _.
      split; [reflexivity|]. cbn. repeat split; assumption. }
  apply Qltb_lt in Hin.
  replace (Qltb 1 0) with false by (symmetry; apply Qltb_ge; lra).
  destruct yp as [pid|]; [destruct ps as [|r ps]|];
    try (apply Forall_cons in Hps as [-> Hps]);
    destruct hs as [|[resp dt] hs];
    try (apply Forall_cons in Hhs as [[Hresp Hdt] Hhs]; cbn [fst snd] in Hresp, Hdt);
    run_poll;
    try (rewrite (bool_decide_eq_false_2 (resp = Some 200%Z)) by exact Hresp);
    run_poll.
  all: eexists Orchestrator.Continue, _; (split; [reflexivity|]).
  all: cbn [Orchestrator.clock Orchestrator.http_script Orchestrator.poll_script].
  all: repeat split; try assumption; try constructor; try lra.
Qed.

Lemma health_loop_never_healthy url start timeout fuel : forall rt w,
  never_ok (Orchestrator.http_script w) ->
  still_running (Orchestrator.poll_script w) ->
  (1 <= fuel)%nat ->
  timeout - (Orchestrator.clock w - start) + 1 <= inject_Z (Z.of_nat fuel) ->
  exists w',
    Orchestrator.health_loop fuel url start timeout (rt, w)
    = (Raise (TimeoutError ("Timed out waiting for YOLO health endpoint at " +:+ url)),
       (rt, w')) /\
    timeout <= Orchestrator.clock w' - start.
Proof.
  induction fuel as [|fuel IH]; intros rt w Hhs Hps Hfuel Hrem; [lia|].
  destruct (health_iteration_never_healthy url start timeout rt w Hhs Hps)
    as (c & w1 & Hit & Hhs1 & Hps1 & Hcase).
  cbn [Orchestrator.health_loop]. unfold bind at 1. rewrite Hit.
  destruct c; [| |contradiction].
  - destruct Hcase as [Hin Hclock]. rewrite inject_nat_succ in Hrem.
    apply IH; try assumption.
    + destruct fuel; [change (inject_Z (Z.of_nat 0)) with 0 in Hrem; lra | lia].
    + lra.
  - destruct Hcase as [Hto Hclock]. exists w1. split; [reflexivity|].
    now rewrite Hclock.
Qed.

Lemma wait_never_healthy (timeout : Q) (fuel : nat) rt w :
  never_ok (Orchestrator.http_script w) ->
  still_running (Orchestrator.poll_script w) ->
  (Z.to_nat (Qceiling timeout) + 1 <= fuel)%nat ->
  exists w',
    Orchestrator._wait_for_yolo_health cfg fuel timeout (rt, w)
    = (Raise (TimeoutError ("Timed out waiting for YOLO health endpoint at "
                            +:+ Orchestrator.health_url cfg)), (rt, w')) /\
    timeout <= Orchestrator.clock w' - Orchestrator.clock w.
Proof.
  intros Hhs Hps Hfuel. destruct w as [c ss ps hs tr].
  unfold Orchestrator._wait_for_yolo_health, Orchestrator.time_time,
    Orchestrator.emit, modify, bind, get, ret.
  cbn -[Orchestrator.health_loop Qle].
  destruct (health_loop_never_healthy (Orchestrator.health_url cfg) c timeout fuel rt
              {| Orchestrator.clock := c; Orchestrator.serial_script := ss;
                 Orchestrator.poll_script := ps; Orchestrator.http_script := hs;
                 Orchestrator.trace := tr ++ [Orchestrator.TimeRead c] |})
    as (w' & Hloop & Hto);
    cbn [Orchestrator.clock Orchestrator.http_script Orchestrator.poll_script] in *;
    try assumption.
  - lia.
  - pose proof (Qle_ceiling timeout) as Hceil.
    assert (Qceiling timeout + 1 <= Z.of_nat fuel)%Z as Hz by lia.
    rewrite Zle_Qle, inject_Z_plus in Hz. change (inject_Z 1) with 1 in Hz. lra.
  - exists w'. split; [exact Hloop | exact Hto].
Qed.

(** X30.  [start] fails closed: when the endpoint never answers 200 while
    the child keeps running, [start] raises the [TimeoutError] of the health
    wait after having launched the child and nothing else: no event client is
    created, no thread is started, nothing is registered, and the child is
    left running and tracked. *)
Theorem start_fails_closed_when_never_healthy (fuel : nat) (s : state) :
  yolo_process s = None ->
  never_ok (Orchestrator.http_script (snd (core s))) ->
  still_running (Orchestrator.poll_script (snd (core s))) ->
  (46 <= fuel)%nat ->
  exists s',
    start cfg net sys_executable ip_address fuel s
    = (Raise (TimeoutError ("Timed out waiting for YOLO health endpoint at "
                            +:+ Orchestrator.health_url cfg)), s') /\
    events_client s' = events_client s /\
    zeroconf_handle s' = zeroconf_handle s /\
    threads s' = threads s /\
    zeroconf s' = zeroconf s /\
    yolo_process s' = Some (default 1%Z (head (popen_script s))) /\
    trace s' = trace s ++
      [Popen [sys_executable; "-m"; "uvicorn"; "backend.yolo_server:app";
              "--host"; YOLO_SERVER_HOST cfg;
              "--port"; str_of_int (YOLO_SERVER_PORT cfg)]
         (default 1%Z (head (popen_script s)))] /\
    45 <= Orchestrator.clock (snd (core s')) - Orchestrator.clock (snd (core s)).
Proof.
  intros Hyp Hhs Hps Hfuel.
  destruct s as [ec zh sd [[yp el ld cd] [c ss ps hs tr0]] th zc pop ws tr].
  cbn [yolo_process core fst snd Orchestrator.yolo_process Orchestrator.http_script
       Orchestrator.poll_script popen_script trace events_client zeroconf_handle
       threads zeroconf Orchestrator.clock] in *.
  subst yp. unfold start.
  set (pid := default 1%Z (head pop)).
  assert (_launch_yolo_server cfg sys_executable
            {| events_client := ec; zeroconf_handle := zh; _shutdown := sd;
               core := ({| Orchestrator.yolo_process := None;
                           Orchestrator.event_log := el;
                           Orchestrator.last_detection := ld;
                           Orchestrator._serial_cooldown := cd |},
                        {| Orchestrator.clock := c; Orchestrator.serial_script := ss;
                           Orchestrator.poll_script := ps;
                           Orchestrator.http_script := hs;
                           Orchestrator.trace := tr0 |});
               threads := th; zeroconf := zc; popen_script := pop;
               wait_script := ws; trace := tr |}
          = (Ret tt,
             {| events_client := ec; zeroconf_handle := zh; _shutdown := sd;
                core := ({| Orchestrator.yolo_process := Some pid;
                            Orchestrator.event_log := el;
                            Orchestrator.last_detection := ld;
                            Orchestrator._serial_cooldown := cd |},
                         {| Orchestrator.clock := c; Orchestrator.serial_script := ss;
                            Orchestrator.poll_script := ps;
                            Orchestrator.http_script := hs;
                            Orchestrator.trace := tr0 ++
                              [Orchestrator.Log Orchestrator.INFO
                                 "Launching YOLO server: %s"
                                 [JStr (PyStr.join " "
                                    [sys_executable; "-m"; "uvicorn";
                                     "backend.yolo_server:app"; "--host";
                                     YOLO_SERVER_HOST cfg; "--port";
                                     str_of_int (YOLO_SERVER_PORT cfg)])]] |});
                threads := th; zeroconf := zc; popen_script := tail pop;
                wait_script := ws;
                trace := tr ++
                  [Popen [sys_executable; "-m"; "uvicorn"; "backend.yolo_server:app";
                          "--host"; YOLO_SERVER_HOST cfg;
                          "--port"; str_of_int (YOLO_SERVER_PORT cfg)] pid] |}))
    as Hlaunch.
  { subst pid. unfold _launch_yolo_server, popen, set_yolo_process, lift_core, emit,
      yolo_process, Orchestrator.logger, Orchestrator.emit, modify, bind, get, ret.
    cbn -[String.append str_of_int PyStr.join]. now destruct pop. }
  rewrite (bind_ret_eq _ _ _ _ _ Hlaunch).
  match type of Hlaunch with
  | _ = (_, ?s1) =>
      destruct (wait_never_healthy 45.0 fuel (fst (core s1)) (snd (core s1)))
        as (w' & Hwait & Hto)
  end; cbn [core fst snd Orchestrator.clock Orchestrator.http_script
            Orchestrator.poll_script] in *;
    try assumption.
  erewrite bind_raise_eq by (unfold lift_core; cbn [core]; rewrite Hwait; reflexivity).
  eexists. split; [reflexivity|].
  cbn [events_client zeroconf_handle threads zeroconf yolo_process core fst snd
       Orchestrator.yolo_process trace Orchestrator.clock].
  repeat split. lra.
Qed.

End StartFacts.

Section StartInstances.
Import Lifecycle.

Lemma start_fails_closed_when_never_healthy_witness :
  exists s',
    start default_config default_network "/usr/bin/python3"
      ZeroconfRegister.toy_ip_address 46 (fresh 1700000000)
    = (Raise (TimeoutError ("Timed out waiting for YOLO health endpoint at "
                            +:+ Orchestrator.health_url default_config)), s') /\
    events_client s' = None /\ zeroconf_handle s' = None /\
    yolo_process s' = Some 4242%Z.
Proof.
  assert (H1 : yolo_process (fresh 1700000000) = None) by reflexivity.
  assert (H2 : Forall (fun x : option Z * Q => fst x <> Some 200%Z /\ 0 <= snd x)
                 (Orchestrator.http_script (snd (core (fresh 1700000000)))))
    by constructor.
  assert (H3 : Forall (fun r : option Z => r = None)
                 (Orchestrator.poll_script (snd (core (fresh 1700000000)))))
    by constructor.
  assert (H4 : (46 <= 46)%nat) by lia.
  destruct (start_fails_closed_when_never_healthy default_config default_network
              "/usr/bin/python3" ZeroconfRegister.toy_ip_address 46
              (fresh 1700000000) H1 H2 H3 H4)
    as (s' & Hstart & Hec & Hzh & _ & _ & Hyp & _).
  exists s'. split; [exact Hstart|]. split; [exact Hec|]. split; [exact Hzh | exact Hyp].
Defined.

End StartInstances.
